(** * Code graph extraction engine (src/lib/analyzer/engine.ts)

    A shallow embedding of [AnalyzerEngine.analyze] and of the part of the
    upload route that consumes its result, followed by the properties of
    the extracted graph.

    The engine reads a ts-morph project.  What it reads from ts-morph (file
    paths, declaration names, texts, line numbers, the ancestor chain of a
    call expression, the symbol of a callee) is the input of the model: a
    list of [SourceFile] records.  Node's [path.dirname], [path.basename]
    and [path.extname] are modelled for POSIX paths; [path.relative] is a
    parameter of the development.  The [send] callback only emits progress
    notifications whose payload is never read back, so the engine model
    leaves those calls out. *)

From Stdlib Require Import String Ascii List Bool Arith Lia.
From Stdlib Require Import DecimalString.
Import ListNotations.

Open Scope list_scope.
Open Scope string_scope.

(* ================================================================= *)
(** ** JavaScript string primitives *)

Module Js.

(** A string used as a condition: the empty string is falsy. *)
Definition truthy (s : string) : bool := negb (String.eqb s "").

(** [o || d] where [o] is [string | undefined]. *)
Definition or_else (o : option string) (d : string) : string :=
  match o with
  | Some s => if truthy s then s else d
  | None => d
  end.

(** [`${o}`] where [o] is [string | undefined]. *)
Definition template (o : option string) : string :=
  match o with
  | Some s => s
  | None => "undefined"
  end.

(** [s.startsWith(p)]. *)
Definition startsWith (s p : string) : bool := String.prefix p s.

(** [s.includes(sub)]. *)
Fixpoint includes (s sub : string) : bool :=
  if String.prefix sub s then true
  else match s with
       | EmptyString => false
       | String _ s' => includes s' sub
       end.

(** [s.endsWith(p)]. *)
Definition endsWith (s p : string) : bool :=
  let n := String.length s in
  let k := String.length p in
  if Nat.leb k n then String.eqb (String.substring (n - k) k s) p else false.

(** [s.slice(0, n)]. *)
Definition slice0 (n : nat) (s : string) : string := String.substring 0 n s.

(** [s.replace(/\\/g, "/")]. *)
Fixpoint replaceBackslashes (s : string) : string :=
  match s with
  | EmptyString => EmptyString
  | String c s' =>
      String (if Ascii.eqb c "\"%char then "/"%char else c)
             (replaceBackslashes s')
  end.

(** [s.split(sep)[0]] for a one-character separator. *)
Fixpoint splitHead (sep : ascii) (s : string) : string :=
  match s with
  | EmptyString => EmptyString
  | String c s' =>
      if Ascii.eqb c sep then EmptyString else String c (splitHead sep s')
  end.

Definition isSpace (c : ascii) : bool :=
  let n := nat_of_ascii c in
  Nat.eqb n 32 || (Nat.leb 9 n && Nat.leb n 13).

Fixpoint trimStart (s : string) : string :=
  match s with
  | EmptyString => EmptyString
  | String c s' => if isSpace c then trimStart s' else s
  end.

Fixpoint trimEnd (s : string) : string :=
  match s with
  | EmptyString => EmptyString
  | String c s' =>
      match trimEnd s' with
      | EmptyString => if isSpace c then EmptyString else String c EmptyString
      | r => String c r
      end
  end.

(** [s.trim()], on ASCII white space. *)
Definition trim (s : string) : string := trimEnd (trimStart s).

Definition lowerChar (c : ascii) : ascii :=
  let n := nat_of_ascii c in
  if Nat.leb 65 n && Nat.leb n 90 then ascii_of_nat (n + 32) else c.

(** [s.toLowerCase()], on ASCII letters. *)
Fixpoint toLowerCase (s : string) : string :=
  match s with
  | EmptyString => EmptyString
  | String c s' => String (lowerChar c) (toLowerCase s')
  end.

(** [`${n}`] for a non-negative integer. *)
Definition ofNat (n : nat) : string := NilEmpty.string_of_uint (Nat.to_uint n).

(** [xs.join(sep)]. *)
Fixpoint join (sep : string) (xs : list string) : string :=
  match xs with
  | [] => ""
  | [x] => x
  | x :: rest => x ++ sep ++ join sep rest
  end.

(** [set.has(x)] / [array.includes(x)] on strings. *)
Definition mem (x : string) (xs : list string) : bool :=
  existsb (String.eqb x) xs.

End Js.

(* ================================================================= *)
(** ** [Map<string, V>]: keys in insertion order *)

Module JsMap.

Definition t (V : Type) : Type := list (string * V).

Definition empty {V : Type} : t V := [].

Fixpoint get {V : Type} (k : string) (m : t V) : option V :=
  match m with
  | [] => None
  | (k', v) :: rest => if String.eqb k k' then Some v else get k rest
  end.

Definition has {V : Type} (k : string) (m : t V) : bool :=
  match get k m with
  | Some _ => true
  | None => false
  end.

(** [m.set(k, v)]: a present key keeps its position and takes the new
    value, a new key goes last. *)
Fixpoint set {V : Type} (k : string) (v : V) (m : t V) : t V :=
  match m with
  | [] => [(k, v)]
  | (k', v') :: rest =>
      if String.eqb k k' then (k, v) :: rest else (k', v') :: set k v rest
  end.

(** [Array.from(m.values())]. *)
Definition values {V : Type} (m : t V) : list V := map snd m.

Definition keys {V : Type} (m : t V) : list string := map fst m.

End JsMap.

(* ================================================================= *)
(** ** Node's [path] module on POSIX paths *)

Module Path.

Definition isSlash (c : ascii) : bool := Ascii.eqb c "/"%char.

Fixpoint dropWhile (p : ascii -> bool) (l : list ascii) : list ascii :=
  match l with
  | [] => []
  | c :: l' => if p c then dropWhile p l' else l
  end.

Fixpoint takeWhile (p : ascii -> bool) (l : list ascii) : list ascii :=
  match l with
  | [] => []
  | c :: l' => if p c then c :: takeWhile p l' else []
  end.

Definition notSlash (c : ascii) : bool := negb (isSlash c).

(** [path.dirname]: scanning from the right and never looking at the
    first character, skip the trailing slashes and the last component;
    the slash found there ends the result. *)
Definition dirname (p : string) : string :=
  match list_ascii_of_string p with
  | [] => "."
  | c :: rest =>
      let hasRoot := isSlash c in
      match dropWhile notSlash (dropWhile isSlash (rev rest)) with
      | [] => if hasRoot then "/" else "."
      | _ :: before =>
          match before with
          | [] => if hasRoot then "//" else String c EmptyString
          | _ => string_of_list_ascii (c :: rev before)
          end
      end
  end.

(** The last path component, trailing slashes dropped, as a list of
    characters. *)
Definition lastComponent (p : string) : list ascii :=
  rev (takeWhile notSlash (dropWhile isSlash (rev (list_ascii_of_string p)))).

(** [path.basename] with one argument. *)
Definition basename (p : string) : string :=
  string_of_list_ascii (lastComponent p).

Definition isDot (c : ascii) : bool := Ascii.eqb c "."%char.
Definition notDot (c : ascii) : bool := negb (isDot c).

(** [path.extname]: from the last dot of the last component to its end;
    empty when there is no dot, when the dot opens the component, and
    for the component [..]. *)
Definition extname (p : string) : string :=
  let comp := lastComponent p in
  let rcomp := rev comp in
  let afterDot := takeWhile notDot rcomp in
  match dropWhile notDot rcomp with
  | [] => ""
  | dot :: rbefore =>
      match rbefore with
      | [] => ""
      | _ =>
          if String.eqb (string_of_list_ascii comp) ".." then ""
          else string_of_list_ascii (dot :: rev afterDot)
      end
  end.

End Path.

(* ================================================================= *)
(** ** The graph (types.ts) *)

Inductive NodeType : Type :=
| folder | file | function | class | component.

Inductive RelationType : Type :=
| imports | calls | extends | renders | contains.

Definition RelationType_eqb (a b : RelationType) : bool :=
  match a, b with
  | imports, imports | calls, calls | extends, extends
  | renders, renders | contains, contains => true
  | _, _ => false
  end.

(** The relation as it is spliced into a template string. *)
Definition RelationType_text (r : RelationType) : string :=
  match r with
  | imports => "imports"
  | calls => "calls"
  | extends => "extends"
  | renders => "renders"
  | contains => "contains"
  end.

(** [interface ProjectNode]; an optional field that is absent or
    [undefined] is [None]. *)
Record ProjectNode : Type := mkNode {
  node_id : string;
  node_name : string;
  node_type : NodeType;
  node_path : string;
  node_line : option nat;
  node_parentId : option string;
  node_content : option string;
  node_signature : option string;
  node_docComment : option string
}.

(** [interface ProjectEdge]. *)
Record ProjectEdge : Type := mkEdge {
  edge_from : string;
  edge_to : string;
  edge_relation : RelationType;
  edge_callCount : option nat
}.

(** [interface ProjectGraph]. *)
Record ProjectGraph : Type := mkGraph {
  nodes : list ProjectNode;
  edges : list ProjectEdge;
  rootPath : string
}.

(* ================================================================= *)
(** ** What the engine reads from ts-morph *)

(** [FunctionDeclaration]: [getName()], [getStartLineNumber()],
    [getText()], and [getCommentText()] of each of [getJsDocs()]. *)
Record FunctionDeclaration : Type := mkFunctionDeclaration {
  fd_name : option string;
  fd_line : nat;
  fd_text : string;
  fd_docs : list (option string)
}.

(** [getKind()] of an initializer, as far as the engine tells kinds apart. *)
Inductive InitializerKind : Type :=
| ArrowFunction | FunctionExpression | OtherExpression.

Record Initializer : Type := mkInitializer {
  init_kind : InitializerKind;
  init_text : string
}.

Record VariableDeclaration : Type := mkVariableDeclaration {
  vd_name : string;
  vd_line : nat;
  vd_init : option Initializer
}.

Record MethodDeclaration : Type := mkMethodDeclaration {
  md_name : string;
  md_line : nat;
  md_text : string;
  md_docs : list (option string)
}.

Record ClassDeclaration : Type := mkClassDeclaration {
  cd_name : option string;
  cd_line : nat;
  cd_text : string;
  cd_docs : list (option string);
  cd_methods : list MethodDeclaration
}.

(** [ImportDeclaration]: the file path of
    [getModuleSpecifierSourceFile()], when there is one. *)
Record ImportDeclaration : Type := mkImportDeclaration {
  imp_resolved : option string
}.

(** One step of the [getParent()] chain of a call expression, as
    [_findContainingFunctionId] looks at it. *)
Inductive Ancestor : Type :=
| AncFunctionDeclaration (name : option string)
    (** a function declaration and its [getName()] *)
| AncMethodOfClass (className : option string) (methodName : string)
    (** a method declaration whose parent is a class declaration *)
| AncMethodElsewhere
    (** a method declaration whose parent is not a class declaration *)
| AncVariableDeclaration (name : string)
    (** a variable declaration and its [getName()] *)
| AncOther.
    (** any other syntax kind *)

(** [callExpr.getExpression()]. *)
Inductive Callee : Type :=
| CalleeIdentifier (text : string)
| CalleePropertyAccess (obj : string) (prop : string)
| CalleeOther.

(** [expr.getSymbol()]: its [getName()] and, for each of
    [getDeclarations()], the file path of [getSourceFile()]. *)
Record SymbolInfo : Type := mkSymbolInfo {
  sym_name : string;
  sym_declFiles : list string
}.

(** A call expression: the chain starts at the call expression itself;
    [call_symbol] is [None] when [getSymbol()] gives nothing or the
    lookup throws (the engine swallows the exception). *)
Record CallExpression : Type := mkCallExpression {
  call_chain : list Ancestor;
  call_expr : Callee;
  call_symbol : option SymbolInfo
}.

(** [SourceFile]: [getFilePath()], [getFullText()],
    [getImportDeclarations()], [getFunctions()],
    [getVariableDeclarations()], [getClasses()] and
    [getDescendantsOfKind(SyntaxKind.CallExpression)]. *)
Record SourceFile : Type := mkSourceFile {
  sf_path : string;
  sf_text : string;
  sf_imports : list ImportDeclaration;
  sf_functions : list FunctionDeclaration;
  sf_variables : list VariableDeclaration;
  sf_classes : list ClassDeclaration;
  sf_calls : list CallExpression
}.

(* ================================================================= *)
(** ** Iteration *)

(** [xs.forEach((x, idx) => ...)] threading a state, counting from [i]. *)
Fixpoint forEachFrom {A St : Type} (f : A -> nat -> St -> St)
    (i : nat) (xs : list A) (s : St) : St :=
  match xs with
  | [] => s
  | x :: rest => forEachFrom f (S i) rest (f x i s)
  end.

Definition forEachIdx {A St : Type} (f : A -> nat -> St -> St)
    (xs : list A) (s : St) : St :=
  forEachFrom f 0 xs s.

(** [for (const x of xs)] / [xs.forEach(x => ...)] threading a state. *)
Definition forEach {A St : Type} (f : A -> St -> St) (xs : list A) (s : St)
    : St :=
  fold_left (fun acc x => f x acc) xs s.

(** [x] is the element of [xs] that the loop started at [i] visits with
    index [idx]. *)
Definition visitedAt {A : Type} (i : nat) (xs : list A) (x : A) (idx : nat)
    : Prop :=
  exists k, idx = i + k /\ nth_error xs k = Some x.

(* ================================================================= *)
(** ** The engine, over the [addEdge] callback it is handed *)

(** [getJsDocs().map(d => d.getCommentText()).filter(Boolean).join("\n")]. *)
Definition newline : string := String (ascii_of_nat 10) EmptyString.

Definition isCommentText (o : option string) : bool :=
  match o with
  | Some s => Js.truthy s
  | None => false
  end.

Definition docCommentOf (docs : list (option string)) : string :=
  Js.join newline (map Js.template (filter isCommentText docs)).

(** The maps and sets of one run; [E] is whatever the [addEdge] callback
    accumulates into. *)
Record EngineState (E : Type) : Type := mkState {
  nodesMap : JsMap.t ProjectNode;
  edgesAcc : E;
  fnRegistry : JsMap.t string;
  folderPaths : list string
}.

Arguments mkState {E} _ _ _ _.
Arguments nodesMap {E} _.
Arguments edgesAcc {E} _.
Arguments fnRegistry {E} _.
Arguments folderPaths {E} _.

Section Engine.

(** [path.relative]. *)
Variable relative : string -> string -> string.

Context {E : Type}.
Variable addEdge : string -> string -> RelationType -> E -> E.

Abbreviation State := (EngineState E).

Definition withEdge (f t : string) (r : RelationType) (st : State) : State :=
  mkState (nodesMap st) (addEdge f t r (edgesAcc st))
          (fnRegistry st) (folderPaths st).

Definition setNode (id : string) (n : ProjectNode) (st : State) : State :=
  mkState (JsMap.set id n (nodesMap st)) (edgesAcc st)
          (fnRegistry st) (folderPaths st).

Definition register (name id : string) (st : State) : State :=
  mkState (nodesMap st) (edgesAcc st)
          (JsMap.set name id (fnRegistry st)) (folderPaths st).

Definition markFolder (dir : string) (st : State) : State :=
  mkState (nodesMap st) (edgesAcc st) (fnRegistry st)
          (folderPaths st ++ [dir])%list.

(** *** [_addFolderNodes] *)

Definition folderNode (currentDir : string) : ProjectNode :=
  mkNode ("folder:" ++ currentDir) (Path.basename currentDir) folder
         currentDir None None None None None.

(** The loop condition. *)
Definition aboveRoot (currentDir : string) : bool :=
  negb (String.eqb currentDir ".") && negb (String.eqb currentDir "")
  && negb (String.eqb currentDir "/").

(** The loop body up to the reassignment of [currentDir]. *)
Definition addFolderNode (currentDir : string) (st : State) : State :=
  if Js.mem currentDir (folderPaths st) then st
  else
    let st1 := markFolder currentDir st in
    let st2 := setNode ("folder:" ++ currentDir) (folderNode currentDir) st1 in
    let parentDir := Js.replaceBackslashes (Path.dirname currentDir) in
    if negb (String.eqb parentDir ".") && negb (String.eqb parentDir "")
    then withEdge ("folder:" ++ parentDir) ("folder:" ++ currentDir) contains st2
    else st2.

(** The [while] loop, with a bound on its iterations. *)
Fixpoint addFolderNodesLoop (fuel : nat) (currentDir : string) (st : State)
    : State :=
  match fuel with
  | 0 => st
  | S fuel' =>
      if aboveRoot currentDir then
        addFolderNodesLoop fuel'
          (Js.replaceBackslashes (Path.dirname currentDir))
          (addFolderNode currentDir st)
      else st
  end.

(** Each iteration shortens [currentDir] or ends the loop, so the length
    of the path bounds the iterations (see [addFolderNodes_terminates]). *)
Definition _addFolderNodes (relativePath : string) (st : State) : State :=
  addFolderNodesLoop (S (String.length relativePath))
    (Js.replaceBackslashes (Path.dirname relativePath)) st.

(** *** [_registerFunction] *)

Definition functionNode (fnId name relativePath fileNodeId : string)
    (fn : FunctionDeclaration) : ProjectNode :=
  mkNode fnId name function relativePath
         (Some (fd_line fn))
         (Some fileNodeId)
         (Some (Js.slice0 3000 (fd_text fn)))
         (Some (Js.trim (Js.splitHead "{"%char (fd_text fn))))
         (Some (docCommentOf (fd_docs fn))).

(** [fn.getName() || `anonymous_${idx}`]. *)
Definition functionNameOf (fn : FunctionDeclaration) (idx : nat) : string :=
  Js.or_else (fd_name fn) ("anonymous_" ++ Js.ofNat idx).

Definition _registerFunction (fn : FunctionDeclaration) (idx : nat)
    (fileNodeId relativePath : string) (st : State) : State :=
  let name := functionNameOf fn idx in
  let fnId := fileNodeId ++ ":fn:" ++ name in
  let st1 := register name fnId st in
  let st2 := setNode fnId (functionNode fnId name relativePath fileNodeId fn) st1 in
  withEdge fileNodeId fnId contains st2.

(** *** Pass 1, the body of the loop over the source files *)

Definition fileNode (fileNodeId relativePath parentDir : string)
    (sourceFile : SourceFile) : ProjectNode :=
  mkNode fileNodeId (Path.basename (sf_path sourceFile)) file relativePath
         None
         (if String.eqb parentDir "." then None
          else Some ("folder:" ++ parentDir))
         (Some (Js.slice0 8000 (sf_text sourceFile)))
         None None.

Definition addImport (root fileNodeId : string) (imp : ImportDeclaration)
    (st : State) : State :=
  match imp_resolved imp with
  | Some resolvedPath =>
      let targetPath := Js.replaceBackslashes (relative root resolvedPath) in
      if negb (Js.includes targetPath "node_modules")
      then withEdge fileNodeId ("file:" ++ targetPath) imports st
      else st
  | None => st
  end.

Definition isFunctionInitializer (init : Initializer) : bool :=
  match init_kind init with
  | ArrowFunction | FunctionExpression => true
  | OtherExpression => false
  end.

Definition variableNode (fnId name relativePath fileNodeId : string)
    (v : VariableDeclaration) (init : Initializer) : ProjectNode :=
  mkNode fnId name function relativePath
         (Some (vd_line v))
         (Some fileNodeId)
         (Some (Js.slice0 3000 (init_text init)))
         (Some ("const " ++ name ++ " = "
                  ++ Js.splitHead (ascii_of_nat 10) (init_text init)))
         None.

Definition registerVariable (fileNodeId relativePath : string)
    (v : VariableDeclaration) (st : State) : State :=
  match vd_init v with
  | Some init =>
      if isFunctionInitializer init then
        let name := vd_name v in
        let fnId := fileNodeId ++ ":fn:" ++ name in
        if negb (JsMap.has fnId (nodesMap st)) then
          let st1 := register name fnId st in
          let st2 :=
            setNode fnId (variableNode fnId name relativePath fileNodeId v init) st1 in
          withEdge fileNodeId fnId contains st2
        else st
      else st
  | None => st
  end.

Definition classNode (clsId name relativePath fileNodeId : string)
    (cls : ClassDeclaration) : ProjectNode :=
  mkNode clsId name class relativePath
         (Some (cd_line cls))
         (Some fileNodeId)
         (Some (Js.slice0 3000 (cd_text cls)))
         None
         (Some (docCommentOf (cd_docs cls))).

Definition methodNode (methodId methodName relativePath clsId : string)
    (method : MethodDeclaration) : ProjectNode :=
  mkNode methodId methodName function relativePath
         (Some (md_line method))
         (Some clsId)
         (Some (Js.slice0 3000 (md_text method)))
         (Some (Js.trim (Js.splitHead "{"%char (md_text method))))
         (Some (docCommentOf (md_docs method))).

Definition registerMethod (name clsId relativePath : string)
    (method : MethodDeclaration) (st : State) : State :=
  let methodName := md_name method in
  let methodId := clsId ++ ":method:" ++ methodName in
  let st1 := register (name ++ "." ++ methodName) methodId st in
  let st2 := setNode methodId (methodNode methodId methodName relativePath clsId method) st1 in
  withEdge clsId methodId contains st2.

(** [cls.getName() || `AnonymousClass_${idx}`]. *)
Definition classNameOf (cls : ClassDeclaration) (idx : nat) : string :=
  Js.or_else (cd_name cls) ("AnonymousClass_" ++ Js.ofNat idx).

Definition registerClass (fileNodeId relativePath : string)
    (cls : ClassDeclaration) (idx : nat) (st : State) : State :=
  let name := classNameOf cls idx in
  let clsId := fileNodeId ++ ":cls:" ++ name in
  let st1 := register name clsId st in
  let st2 := setNode clsId (classNode clsId name relativePath fileNodeId cls) st1 in
  let st3 := withEdge fileNodeId clsId contains st2 in
  forEach (registerMethod name clsId relativePath) (cd_methods cls) st3.

(** [path.relative(this.rootPath, filePath).replace(/\\/g, "/")]. *)
Definition relativePathOf (root filePath : string) : string :=
  Js.replaceBackslashes (relative root filePath).

(** The guard that makes both passes [continue]. *)
Definition outsideRoot (relativePath : string) : bool :=
  Js.startsWith relativePath ".." || Js.includes relativePath "node_modules".

Definition pass1File (root : string) (sourceFile : SourceFile) (st : State)
    : State :=
  let filePath := sf_path sourceFile in
  let relativePath := relativePathOf root filePath in
  if outsideRoot relativePath then st
  else
    let st1 := _addFolderNodes relativePath st in
    let fileNodeId := "file:" ++ relativePath in
    let parentDir := Js.replaceBackslashes (Path.dirname relativePath) in
    let st2 :=
      setNode fileNodeId (fileNode fileNodeId relativePath parentDir sourceFile) st1 in
    let st3 :=
      if negb (String.eqb parentDir ".")
      then withEdge ("folder:" ++ parentDir) fileNodeId contains st2
      else st2 in
    let st4 := forEach (addImport root fileNodeId) (sf_imports sourceFile) st3 in
    let st5 :=
      forEachIdx
        (fun fn idx => _registerFunction fn idx fileNodeId relativePath)
        (sf_functions sourceFile) st4 in
    let st6 :=
      forEach (registerVariable fileNodeId relativePath)
              (sf_variables sourceFile) st5 in
    forEachIdx (registerClass fileNodeId relativePath)
               (sf_classes sourceFile) st6.

Definition pass1 (root : string) (sourceFiles : list SourceFile) (st : State)
    : State :=
  forEach (pass1File root) sourceFiles st.

(** *** [_findContainingFunctionId] *)

Fixpoint _findContainingFunctionId (chain : list Ancestor)
    (fileNodeId relativePath : string) (nodesMap : JsMap.t ProjectNode)
    : option string :=
  match chain with
  | [] => None
  | current :: parents =>
      let next :=
        _findContainingFunctionId parents fileNodeId relativePath nodesMap in
      match current with
      | AncFunctionDeclaration (Some name) =>
          let id := fileNodeId ++ ":fn:" ++ name in
          if Js.truthy name && JsMap.has id nodesMap then Some id else next
      | AncFunctionDeclaration None => next
      | AncMethodOfClass clsName methodName =>
          let methodId :=
            fileNodeId ++ ":cls:" ++ Js.template clsName
                       ++ ":method:" ++ methodName in
          if JsMap.has methodId nodesMap then Some methodId else next
      | AncMethodElsewhere => next
      | AncVariableDeclaration name =>
          let id := fileNodeId ++ ":fn:" ++ name in
          if Js.truthy name && JsMap.has id nodesMap then Some id else next
      | AncOther => next
      end
  end.

(** *** [_traceCallEdges] *)

(** The name the callee is looked up under. *)
Definition calledNameOf (registry : JsMap.t string) (expr : Callee)
    : option string :=
  match expr with
  | CalleeIdentifier text => Some text
  | CalleePropertyAccess obj prop =>
      if JsMap.has (obj ++ "." ++ prop) registry
      then Some (obj ++ "." ++ prop)
      else Some prop
  | CalleeOther => None
  end.

(** Tier 1: the registry entry, when it is a live node other than the
    caller. *)
Definition tier1 (registry : JsMap.t string) (nodesMap : JsMap.t ProjectNode)
    (callerFnId calledName : string) : option string :=
  match JsMap.get calledName registry with
  | Some targetId =>
      if Js.truthy targetId && negb (String.eqb targetId callerFnId)
         && JsMap.has targetId nodesMap
      then Some targetId else None
  | None => None
  end.

(** The inner [for] over the candidates, up to its [break]. *)
Fixpoint firstCandidate (candidates : list string)
    (nodesMap : JsMap.t ProjectNode) (callerFnId : string) : option string :=
  match candidates with
  | [] => None
  | c :: rest =>
      if JsMap.has c nodesMap && negb (String.eqb c callerFnId)
      then Some c
      else firstCandidate rest nodesMap callerFnId
  end.

(** Tier 2, the body of the loop over the declarations of the symbol. *)
Definition traceDeclaration (root callerFnId declName : string)
    (declFile : string) (st : State) : State :=
  let targetRel := relativePathOf root declFile in
  if Js.includes targetRel "node_modules" then st
  else
    let targetFileId := "file:" ++ targetRel in
    let candidates :=
      [targetFileId ++ ":fn:" ++ declName;
       targetFileId ++ ":cls:" ++ declName] in
    match firstCandidate candidates (nodesMap st) callerFnId with
    | Some c => withEdge callerFnId c calls st
    | None => st
    end.

Definition tier2 (root callerFnId : string) (call : CallExpression)
    (st : State) : State :=
  match call_symbol call with
  | Some symbol =>
      forEach (traceDeclaration root callerFnId (sym_name symbol))
              (sym_declFiles symbol) st
  | None => st
  end.

Definition traceCall (root fileNodeId relativePath : string)
    (callExpr : CallExpression) (st : State) : State :=
  match _findContainingFunctionId (call_chain callExpr) fileNodeId
          relativePath (nodesMap st) with
  | None => st
  | Some callerFnId =>
      if negb (Js.truthy callerFnId) then st
      else
        match calledNameOf (fnRegistry st) (call_expr callExpr) with
        | None => st
        | Some calledName =>
            if negb (Js.truthy calledName) then st
            else
              match tier1 (fnRegistry st) (nodesMap st) callerFnId calledName with
              | Some targetId => withEdge callerFnId targetId calls st
              | None => tier2 root callerFnId callExpr st
              end
        end
  end.

Definition _traceCallEdges (root : string) (sourceFile : SourceFile)
    (relativePath : string) (st : State) : State :=
  let fileNodeId := "file:" ++ relativePath in
  forEach (traceCall root fileNodeId relativePath) (sf_calls sourceFile) st.

(** *** Pass 2, the body of the loop over the source files *)

Definition pass2File (root : string) (sourceFile : SourceFile) (st : State)
    : State :=
  let relativePath := relativePathOf root (sf_path sourceFile) in
  if outsideRoot relativePath then st
  else _traceCallEdges root sourceFile relativePath st.

Definition pass2 (root : string) (sourceFiles : list SourceFile) (st : State)
    : State :=
  forEach (pass2File root) sourceFiles st.

(** *** The source set *)

Definition BINARY_EXTENSIONS : list string :=
  [".png"; ".jpg"; ".jpeg"; ".gif"; ".webp"; ".svg"; ".ico"; ".avif";
   ".mp4"; ".webm"; ".mov"; ".avi"; ".mkv"; ".mp3"; ".wav"; ".ogg";
   ".woff"; ".woff2"; ".ttf"; ".eot"; ".otf";
   ".pdf"; ".zip"; ".tar"; ".gz"; ".7z";
   ".lock"; ".bin"; ".exe"; ".dll"; ".so";
   ".map"; ".min.js"; ".min.css"].

Definition ignoredPaths : list string :=
  ["/node_modules/"; "/dist/"; "/build/"; "/.next/"; "/out/";
   "/coverage/"; "/vendor/"; "/.git/"].

(** The condition under which a source file is removed from the project. *)
Definition removedFromProject (filePath : string) : bool :=
  let p := Js.replaceBackslashes filePath in
  let ext := Js.toLowerCase (Path.extname p) in
  existsb (fun ignored => Js.includes p ignored) ignoredPaths
  || Js.mem ext BINARY_EXTENSIONS
  || Js.endsWith p ".min.js" || Js.endsWith p ".min.css".

(** [this.project.getSourceFiles()] after the removals; [added] is what
    [addSourceFilesAtPaths] put into the project. *)
Definition getSourceFiles (added : list SourceFile) : list SourceFile :=
  filter (fun sf => negb (removedFromProject (sf_path sf))) added.

(** Both passes, from the empty maps and [init] as edge accumulator. *)
Definition runPasses (root : string) (added : list SourceFile) (init : E)
    : State :=
  let sourceFiles := getSourceFiles added in
  pass2 root sourceFiles
    (pass1 root sourceFiles (mkState JsMap.empty init JsMap.empty [])).

End Engine.

(* ================================================================= *)
(** ** [analyze] *)

(** The key of [edgesMap]. *)
Definition edgeKey (from to : string) (relation : RelationType) : string :=
  from ++ "→" ++ to ++ "→" ++ RelationType_text relation.

(** [e.callCount || 1]. *)
Definition callCountOr1 (c : option nat) : nat :=
  match c with
  | Some 0 | None => 1
  | Some n => n
  end.

(** The [addEdge] closure of [analyze]. *)
Definition addEdge (from to : string) (relation : RelationType)
    (edgesMap : JsMap.t ProjectEdge) : JsMap.t ProjectEdge :=
  let key := edgeKey from to relation in
  match JsMap.get key edgesMap with
  | Some e =>
      if RelationType_eqb relation calls
      then JsMap.set key
             (mkEdge (edge_from e) (edge_to e) (edge_relation e)
                     (Some (callCountOr1 (edge_callCount e) + 1)))
             edgesMap
      else edgesMap
  | None => JsMap.set key (mkEdge from to relation (Some 1)) edgesMap
  end.

(** The maps at the end of pass 2. *)
Definition finalState (relative : string -> string -> string)
    (root : string) (added : list SourceFile)
    : EngineState (JsMap.t ProjectEdge) :=
  runPasses relative addEdge root added JsMap.empty.

(** The last statements of [analyze]: the edges whose two ends are ids of
    nodes. *)
Definition assemble (root : string) (st : EngineState (JsMap.t ProjectEdge))
    : ProjectGraph :=
  let nodes := JsMap.values (nodesMap st) in
  let nodeIds := map node_id nodes in
  let validEdges :=
    filter (fun e => Js.mem (edge_from e) nodeIds && Js.mem (edge_to e) nodeIds)
           (JsMap.values (edgesAcc st)) in
  mkGraph nodes validEdges root.

(** [new AnalyzerEngine(root, send).analyze()] on the project that
    [addSourceFilesAtPaths] filled with [added]. *)
Definition analyze (relative : string -> string -> string)
    (root : string) (added : list SourceFile) : ProjectGraph :=
  assemble root (finalState relative root added).

(* ================================================================= *)
(** ** The edges the passes hand to [addEdge], in order *)

Definition EdgeCall : Type := (string * string * RelationType)%type.

Definition recordEdge (f t : string) (r : RelationType) (log : list EdgeCall)
    : list EdgeCall :=
  (log ++ [(f, t, r)])%list.

(** The same passes with a callback that only records its arguments. *)
Definition edgeCalls (relative : string -> string -> string)
    (root : string) (added : list SourceFile) : list EdgeCall :=
  edgesAcc (runPasses relative recordEdge root added []).

(** The state pass 1 leaves on the recording engine. *)
Definition pass1Tables (relative : string -> string -> string) (root : string)
    (added : list SourceFile) : EngineState (list EdgeCall) :=
  pass1 relative recordEdge root (getSourceFiles added)
    (mkState JsMap.empty [] JsMap.empty []).

(** The calls of [addEdge] made by pass 1 alone. *)
Definition structureEdgeCalls (relative : string -> string -> string)
    (root : string) (added : list SourceFile) : list EdgeCall :=
  edgesAcc (pass1Tables relative root added).

(** The calls of [addEdge] made by pass 2 alone, from the state pass 1
    leaves. *)
Definition callObservations (relative : string -> string -> string)
    (root : string) (added : list SourceFile) : list EdgeCall :=
  let st1 := pass1Tables relative root added in
  edgesAcc (pass2 relative recordEdge root (getSourceFiles added)
              (mkState (nodesMap st1) [] (fnRegistry st1) (folderPaths st1))).

Definition EdgeCall_eqb (a b : EdgeCall) : bool :=
  let '(f1, t1, r1) := a in
  let '(f2, t2, r2) := b in
  String.eqb f1 f2 && String.eqb t1 t2 && RelationType_eqb r1 r2.

(** How often [addEdge(from, to, relation)] occurs in a log. *)
Definition observed (from to : string) (relation : RelationType)
    (log : list EdgeCall) : nat :=
  length (filter (EdgeCall_eqb (from, to, relation)) log).

(** The edges of a list that join [from] to [to] with [relation]. *)
Definition edgesBetween (from to : string) (relation : RelationType)
    (es : list ProjectEdge) : list ProjectEdge :=
  filter (fun e => String.eqb (edge_from e) from && String.eqb (edge_to e) to
                   && RelationType_eqb (edge_relation e) relation) es.

(* ================================================================= *)
(** ** The upload route, from the call of [analyze] on *)

Inductive StreamEvent : Type :=
| EvProgress (pct : nat) (message : string)
| EvError (message : string)
| EvDone (data : ProjectGraph).

Definition isFailure (ev : StreamEvent) : bool :=
  match ev with
  | EvError _ => true
  | _ => false
  end.

Definition isDone (ev : StreamEvent) : bool :=
  match ev with
  | EvDone _ => true
  | _ => false
  end.

Definition noSourceMessage : string :=
  "No source files found. Make sure the repo contains .ts/.tsx/.js/.jsx files.".

Section Route.

Variable relative : string -> string -> string.

(** Everything the handler sends after the emptiness test: saving the
    rows, the embeddings and the final [done] event. *)
Variable persist : ProjectGraph -> list StreamEvent.

(** What the handler sends from [analyzer.analyze()] on. *)
Definition afterAnalysis (analysis : ProjectGraph) : list StreamEvent :=
  EvProgress 75
    ("Found " ++ Js.ofNat (length (nodes analysis)) ++ " nodes and "
       ++ Js.ofNat (length (edges analysis))
       ++ " edges. Saving to database...")
  :: (if Nat.eqb (length (nodes analysis)) 0
      then [EvError noSourceMessage]
      else persist analysis).

Definition analyzeAndReport (targetPath : string) (added : list SourceFile)
    : list StreamEvent :=
  afterAnalysis (analyze relative targetPath added).

End Route.

(* ================================================================= *)
(** ** [path.relative] on absolute, normalized POSIX paths *)

Module PosixRelative.

Fixpoint splitSlash (cs : list ascii) : list (list ascii) :=
  match cs with
  | [] => [[]]
  | c :: rest =>
      if Path.isSlash c then [] :: splitSlash rest
      else match splitSlash rest with
           | [] => [[c]]
           | seg :: segs => (c :: seg) :: segs
           end
  end.

Definition segments (p : string) : list string :=
  filter Js.truthy (map string_of_list_ascii (splitSlash (list_ascii_of_string p))).

Fixpoint dropCommon (a b : list string) : list string * list string :=
  match a, b with
  | x :: a', y :: b' => if String.eqb x y then dropCommon a' b' else (a, b)
  | _, _ => (a, b)
  end.

(** One [..] for each segment left of [from], then what is left of [to]. *)
Definition relative (from to : string) : string :=
  let '(up, down) := dropCommon (segments from) (segments to) in
  Js.join "/" (map (fun _ => "..") up ++ down)%list.

End PosixRelative.


(* ================================================================= *)
(** ** Statements about the model *)

(** Two states that agree on everything but the accumulated edges, which
    are related by [R]. *)
Definition sim {E1 E2 : Type} (R : E1 -> E2 -> Prop)
    (s1 : EngineState E1) (s2 : EngineState E2) : Prop :=
  nodesMap s1 = nodesMap s2 /\ fnRegistry s1 = fnRegistry s2
  /\ folderPaths s1 = folderPaths s2 /\ R (edgesAcc s1) (edgesAcc s2).

Create HintDb sim.

(** Replaying a log of [addEdge] calls on the empty [edgesMap]. *)
Definition applyEdgeCall (m : JsMap.t ProjectEdge) (c : EdgeCall)
    : JsMap.t ProjectEdge :=
  let '(f, t, r) := c in addEdge f t r m.

Definition replay (log : list EdgeCall) : JsMap.t ProjectEdge :=
  fold_left applyEdgeCall log JsMap.empty.

(** The ids [_findContainingFunctionId] can return for a file. *)
Definition callerIdOf (fileNodeId id : string) : Prop :=
  (exists name, id = fileNodeId ++ ":fn:" ++ name)
  \/ (exists clsName methodName,
        id = fileNodeId ++ ":cls:" ++ clsName ++ ":method:" ++ methodName).

(** What pass 2 guarantees of each call of [addEdge], given the node map
    pass 1 left. *)
Definition callEdgeOk (nodesMap : JsMap.t ProjectNode) (c : EdgeCall) : Prop :=
  let '(f, t, r) := c in
  r = calls /\ f <> t
  /\ JsMap.has f nodesMap = true /\ JsMap.has t nodesMap = true
  /\ exists relativePath, callerIdOf ("file:" ++ relativePath) f.

(** The parts of the state pass 2 never writes. *)
Definition sameTables {E : Type} (s s' : EngineState E) : Prop :=
  nodesMap s' = nodesMap s /\ fnRegistry s' = fnRegistry s
  /\ folderPaths s' = folderPaths s.

(** The node map is [N] and the log so far is as pass 2 leaves it. *)
Definition okLog (N : JsMap.t ProjectNode) (s : EngineState (list EdgeCall))
    : Prop :=
  nodesMap s = N /\ Forall (callEdgeOk N) (edgesAcc s).

(** The [parentId] a file node is given. *)
Definition fileParentId (relativePath : string) : option string :=
  let parentDir := Js.replaceBackslashes (Path.dirname relativePath) in
  if String.eqb parentDir "." then None else Some ("folder:" ++ parentDir).

(** How the id and the [parentId] of a node follow from its type, path and
    name; [P] holds of the path of every file that contributed a node and
    [Q] of every class name. *)
Definition nodeShape (P Q : string -> Prop) (n : ProjectNode) : Prop :=
  let fileNodeId := "file:" ++ node_path n in
  match node_type n with
  | folder =>
      node_id n = "folder:" ++ node_path n /\ node_parentId n = None
  | file =>
      P (node_path n) /\ node_id n = fileNodeId
      /\ node_parentId n = fileParentId (node_path n)
  | function =>
      P (node_path n)
      /\ ((node_id n = fileNodeId ++ ":fn:" ++ node_name n
           /\ node_parentId n = Some fileNodeId)
          \/ (exists clsName,
                Q clsName
                /\ node_parentId n = Some (fileNodeId ++ ":cls:" ++ clsName)
                /\ node_id n = (fileNodeId ++ ":cls:" ++ clsName)
                                 ++ ":method:" ++ node_name n))
  | class =>
      P (node_path n) /\ Q (node_name n)
      /\ node_id n = fileNodeId ++ ":cls:" ++ node_name n
      /\ node_parentId n = Some fileNodeId
  | component => False
  end.

(** Every entry of the node map is stored under its own id and is shaped
    as above. *)
Definition nodesInv (P Q : string -> Prop) (m : JsMap.t ProjectNode) : Prop :=
  forall k n, In (k, n) m -> k = node_id n /\ nodeShape P Q n.

(** A call of [addEdge] that is not a [calls] edge. *)
Definition structural (c : EdgeCall) : Prop := snd c <> calls.

(** The invariant of pass 1 on the recording engine. *)
Definition inv1 (P Q : string -> Prop) (s : EngineState (list EdgeCall))
    : Prop :=
  nodesInv P Q (nodesMap s) /\ Forall structural (edgesAcc s).

(** A source file whose relative path satisfies [P] and whose class names
    satisfy [Q]. *)
Definition fileOk (relative : string -> string -> string) (root : string)
    (P Q : string -> Prop) (sf : SourceFile) : Prop :=
  P (relativePathOf relative root (sf_path sf))
  /\ forall idx cls, nth_error (sf_classes sf) idx = Some cls ->
                     Q (classNameOf cls idx).

(** What holds of an entry of [edgesMap] after replaying [log]. *)
Definition edgeEntryOk (log : list EdgeCall) (k : string) (e : ProjectEdge)
    : Prop :=
  k = edgeKey (edge_from e) (edge_to e) (edge_relation e)
  /\ In (edge_from e, edge_to e, edge_relation e) log
  /\ exists n, edge_callCount e = Some n /\ 1 <= n
               /\ (edge_relation e <> calls -> n = 1).

Definition edgesInv (log : list EdgeCall) (m : JsMap.t ProjectEdge) : Prop :=
  NoDup (JsMap.keys m) /\ forall k e, In (k, e) m -> edgeEntryOk log k e.

(** The test of [edgesBetween] on one edge. *)
Definition joins (from to : string) (relation : RelationType) (e : ProjectEdge)
    : bool :=
  String.eqb (edge_from e) from && String.eqb (edge_to e) to
  && RelationType_eqb (edge_relation e) relation.

(** How the engine sets [parentId], by node type. *)
Definition parentAsBuilt (n : ProjectNode) : Prop :=
  let fileNodeId := "file:" ++ node_path n in
  match node_type n with
  | folder => node_parentId n = None
  | file => node_parentId n = fileParentId (node_path n)
  | class => node_parentId n = Some fileNodeId
  | function =>
      (node_id n = fileNodeId ++ ":fn:" ++ node_name n
       /\ node_parentId n = Some fileNodeId)
      \/ (exists clsName,
            node_id n = (fileNodeId ++ ":cls:" ++ clsName)
                          ++ ":method:" ++ node_name n
            /\ node_parentId n = Some (fileNodeId ++ ":cls:" ++ clsName))
  | component => False
  end.

(** [s.split(":")]. *)
Fixpoint fields (s : string) : list string :=
  match s with
  | EmptyString => [EmptyString]
  | String c s' =>
      if Ascii.eqb c ":"%char then EmptyString :: fields s'
      else match fields s' with
           | [] => [String c EmptyString]
           | h :: t => String c h :: t
           end
  end.

(** [!s.includes(":")]. *)
Fixpoint colonFree (s : string) : bool :=
  match s with
  | EmptyString => true
  | String c s' => negb (Ascii.eqb c ":"%char) && colonFree s'
  end.

Fixpoint forallbFrom {A : Type} (g : A -> nat -> bool) (i : nat) (xs : list A)
    : bool :=
  match xs with
  | [] => true
  | x :: rest => g x i && forallbFrom g (S i) rest
  end.

(** The relative path of the file and the names its classes are
    registered under contain no colon. *)
Definition namesColonFree (relative : string -> string -> string)
    (root : string) (sf : SourceFile) : bool :=
  colonFree (relativePathOf relative root (sf_path sf))
  && forallbFrom (fun cls idx => colonFree (classNameOf cls idx)) 0
                 (sf_classes sf).

(** [s] ends with [e]. *)
Fixpoint endsIn (e s : string) : bool :=
  String.eqb s e
  || match s with
     | EmptyString => false
     | String _ s' => endsIn e s'
     end.

(** The extensions of the four globs [analyze] hands to
    [addSourceFilesAtPaths]; no other call adds a file to the project. *)
Definition sourceExtensions : list string := [".ts"; ".tsx"; ".js"; ".jsx"].

(** The path ends like one of the globs, whatever the case of its
    letters. *)
Definition hasSourceExtension (p : string) : bool :=
  existsb (fun e => endsIn e (Js.toLowerCase p)) sourceExtensions.

(** The closing quote of a string literal, the closing bracket of a
    computed name or of an array pattern, the closing brace of an object
    pattern. *)
Definition isCloser (c : ascii) : bool :=
  let n := nat_of_ascii c in
  Nat.eqb n 34 || Nat.eqb n 39 || Nat.eqb n 93 || Nat.eqb n 125.

(** The last character of [s] is one of those. *)
Fixpoint closes (s : string) : bool :=
  match s with
  | EmptyString => false
  | String c EmptyString => isCloser c
  | String _ s' => closes s'
  end.

(** What [getName()] gives for a function, a variable or a method is the
    text of its name node.  An identifier, a private name or a number
    holds no colon; a string literal, a computed name or a binding pattern
    may hold one, and ends with its closing quote, bracket or brace.  None
    of them ends like a source file. *)
Definition writtenName (name : string) : bool :=
  negb (hasSourceExtension name) && (colonFree name || closes name).

(** The name a class is registered under is an identifier or
    [AnonymousClass_<idx>]: it holds no colon and ends with no quote,
    bracket or brace. *)
Definition identifierLike (name : string) : bool :=
  colonFree name && negb (closes name).

(** The names [_findContainingFunctionId] reads at one ancestor. *)
Definition ancestorNamed (a : Ancestor) : bool :=
  match a with
  | AncFunctionDeclaration (Some name) => writtenName name
  | AncMethodOfClass _ methodName => writtenName methodName
  | AncVariableDeclaration name => writtenName name
  | _ => true
  end.

(** A source file as the globs find it and the parser reads it: its
    relative path ends with a source extension, its classes are named by
    identifiers and the names around its call expressions are as
    written. *)
Definition asParsed (relative : string -> string -> string)
    (root : string) (sf : SourceFile) : bool :=
  hasSourceExtension (relativePathOf relative root (sf_path sf))
  && forallbFrom (fun cls idx => identifierLike (classNameOf cls idx)) 0
                 (sf_classes sf)
  && forallb (fun call => forallb ancestorNamed (call_chain call))
             (sf_calls sf).

(** An id [_findContainingFunctionId] builds for a file from a name as
    written: [middle] is empty for a function or a variable and
    [:cls:<class>] for a method. *)
Definition writtenCallerId (fileNodeId id : string) : Prop :=
  exists middle kind name,
    id = fileNodeId ++ middle ++ ":" ++ kind ++ ":" ++ name
    /\ (kind = "fn" \/ kind = "method")
    /\ writtenName name = true.

(** A file, function or class node made for the file at [relativePath]. *)
Definition nodeOfFile (relativePath : string) (n : ProjectNode) : Prop :=
  node_path n = relativePath /\ node_type n <> folder.

(** The names [f x idx] of the elements of a list visited from [i]. *)
Fixpoint namesFrom {A : Type} (f : A -> nat -> string) (i : nat) (xs : list A)
    : list string :=
  match xs with
  | [] => []
  | x :: rest => f x i :: namesFrom f (S i) rest
  end.

(** The names under which pass 1 registers the function declarations, the
    function-valued variables, the classes and the methods of a file. *)
Definition functionNames (sf : SourceFile) : list string :=
  namesFrom functionNameOf 0 (sf_functions sf).

Definition isFunctionVariable (v : VariableDeclaration) : bool :=
  match vd_init v with
  | Some init => isFunctionInitializer init
  | None => false
  end.

Definition variableNames (sf : SourceFile) : list string :=
  map vd_name (filter isFunctionVariable (sf_variables sf)).

Definition classNames (sf : SourceFile) : list string :=
  namesFrom classNameOf 0 (sf_classes sf).

Definition methodKeysOf (cls : ClassDeclaration) (idx : nat) : list string :=
  map (fun m => classNameOf cls idx ++ "." ++ md_name m) (cd_methods cls).

Fixpoint methodKeysFrom (i : nat) (classes : list ClassDeclaration)
    : list string :=
  match classes with
  | [] => []
  | cls :: rest => (methodKeysOf cls i ++ methodKeysFrom (S i) rest)%list
  end.

Definition registeredKeys (sf : SourceFile) : list string :=
  (functionNames sf ++ variableNames sf ++ classNames sf
     ++ methodKeysFrom 0 (sf_classes sf))%list.

(** The registry maps [name] to a live node whose id starts with
    [fileNodeId:]. *)
Definition ownedBy {E : Type} (fileNodeId name : string) (st : EngineState E)
    : Prop :=
  exists id,
    JsMap.get name (fnRegistry st) = Some id
    /\ Js.startsWith id (fileNodeId ++ ":") = true
    /\ JsMap.has id (nodesMap st) = true.

(** The state in which pass 1 reaches the file that follows [earlier]. *)
Definition stateAfter (relative : string -> string -> string) (root : string)
    (earlier : list SourceFile) : EngineState (JsMap.t ProjectEdge) :=
  pass1 relative addEdge root earlier
    (mkState JsMap.empty JsMap.empty JsMap.empty []).

(** [!s.includes("→")]: the string does not hold the separator of the
    edge keys. *)
Definition arrowFree (s : string) : bool := negb (Js.includes s "→").

(** A call expression with the node id and the relative path of its
    file, as [_traceCallEdges] visits it. *)
Definition CallSite : Type := (string * string * CallExpression)%type.

Definition callSitesOf (relative : string -> string -> string) (root : string)
    (sf : SourceFile) : list CallSite :=
  let relativePath := relativePathOf relative root (sf_path sf) in
  if outsideRoot relativePath then []
  else map (fun call => ("file:" ++ relativePath, relativePath, call))
           (sf_calls sf).

(** The call sites pass 2 visits, in order. *)
Definition callSites (relative : string -> string -> string) (root : string)
    (added : list SourceFile) : list CallSite :=
  flat_map (callSitesOf relative root) (getSourceFiles added).

(** What one call site hands to [addEdge], given the node map and the
    registry of [tables]. *)
Definition siteObservations (relative : string -> string -> string)
    (root : string) (tables : EngineState (list EdgeCall)) (site : CallSite)
    : list EdgeCall :=
  let '(fileNodeId, relativePath, call) := site in
  edgesAcc (traceCall relative recordEdge root fileNodeId relativePath call
              (mkState (nodesMap tables) [] (fnRegistry tables)
                       (folderPaths tables))).

(** The call site yields the edge from [a] to [b] at least once. *)
Definition observesPair (relative : string -> string -> string) (root : string)
    (added : list SourceFile) (a b : string) (site : CallSite) : bool :=
  Nat.ltb 0 (observed a b calls
               (siteObservations relative root
                  (pass1Tables relative root added) site)).

(* ================================================================= *)
(** ** Small projects *)

(** The chain of a call in the body of a top-level function [name]. *)
Definition insideFunction (name : string) : list Ancestor :=
  [AncOther; AncOther; AncOther; AncFunctionDeclaration (Some name); AncOther].

(** [a.ts]: [export function helper() {}]. *)
Definition helperFile : SourceFile :=
  mkSourceFile "/repo/a.ts" "export function helper() {}" []
    [mkFunctionDeclaration (Some "helper") 1 "export function helper() {}" []]
    [] [] [].

(** [src/b.ts]: imports [helper] and calls it twice from [main]. *)
Definition mainFile : SourceFile :=
  mkSourceFile "/repo/src/b.ts"
    "import { helper } from '../a'; function main() { helper(); helper(); }"
    [mkImportDeclaration (Some "/repo/a.ts")]
    [mkFunctionDeclaration (Some "main") 1
       "function main() { helper(); helper(); }" []]
    [] []
    [mkCallExpression (insideFunction "main") (CalleeIdentifier "helper") None;
     mkCallExpression (insideFunction "main") (CalleeIdentifier "helper") None].

Definition helperProject : list SourceFile := [helperFile; mainFile].

(** [a.ts] declares [g] with an overload signature; [c.ts], processed
    later, wraps it in a function of the same name through a namespace
    import: [import * as ns from './a'; export function g() { ns.g(1); }].
    The symbol of [ns.g] has the two declarations of [g] in [a.ts]. *)
Definition overloadedFile : SourceFile :=
  mkSourceFile "/repo/a.ts"
    "export function g(x: number): void; export function g(x: any) {}" []
    [mkFunctionDeclaration (Some "g") 1 "export function g(x: any) {}" []]
    [] [] [].

Definition wrapperFile : SourceFile :=
  mkSourceFile "/repo/c.ts"
    "import * as ns from './a'; export function g() { ns.g(1); }"
    [mkImportDeclaration (Some "/repo/a.ts")]
    [mkFunctionDeclaration (Some "g") 1 "export function g() { ns.g(1); }" []]
    [] []
    [mkCallExpression (insideFunction "g") (CalleePropertyAccess "ns" "g")
       (Some (mkSymbolInfo "g" ["/repo/a.ts"; "/repo/a.ts"]))].

Definition wrapperProject : list SourceFile := [overloadedFile; wrapperFile].


(** [src/lib/x.ts]: one function, two levels below the root. *)
Definition nestedFile : SourceFile :=
  mkSourceFile "/repo/src/lib/x.ts" "export function x() {}" []
    [mkFunctionDeclaration (Some "x") 1 "export function x() {}" []]
    [] [] [].

(** A bundled dependency, removed from the project before pass 1. *)
Definition vendoredFile : SourceFile :=
  mkSourceFile "/repo/node_modules/pkg/index.js" "module.exports = {}" []
    [mkFunctionDeclaration (Some "pkg") 1 "function pkg() {}" []]
    [] [] [].

(** [src/util.ts]: a second top-level [helper]. *)
Definition shadowFile : SourceFile :=
  mkSourceFile "/repo/src/util.ts" "export const helper = () => 1" [] []
    [mkVariableDeclaration "helper" 1
       (Some (mkInitializer ArrowFunction "() => 1"))]
    [] [].

(** [b.ts] at the root: [import { helper } from "./a"; function main()
    { helper(); helper(); }]. *)
Definition rootMainFile : SourceFile :=
  mkSourceFile "/repo/b.ts"
    "import { helper } from './a'; function main() { helper(); helper(); }"
    [mkImportDeclaration (Some "/repo/a.ts")]
    [mkFunctionDeclaration (Some "main") 1
       "function main() { helper(); helper(); }" []]
    [] []
    [mkCallExpression (insideFunction "main") (CalleeIdentifier "helper") None;
     mkCallExpression (insideFunction "main") (CalleeIdentifier "helper") None].

(** [pkg:core/bus.ts], in a directory whose name holds a colon:
    [export function helper() {} export class Bus { 'on:ready'() {
    helper(); } }].  The method is named by a string literal; its call of
    [helper] sits in a statement of the method's block. *)
Definition busFile : SourceFile :=
  mkSourceFile "/repo/pkg:core/bus.ts"
    "export function helper() {} export class Bus { 'on:ready'() { helper(); } }"
    []
    [mkFunctionDeclaration (Some "helper") 1 "export function helper() {}" []]
    []
    [mkClassDeclaration (Some "Bus") 1
       "export class Bus { 'on:ready'() { helper(); } }" []
       [mkMethodDeclaration "'on:ready'" 1 "'on:ready'() { helper(); }" []]]
    [mkCallExpression
       [AncOther; AncOther; AncOther;
        AncMethodOfClass (Some "Bus") "'on:ready'"; AncOther; AncOther]
       (CalleeIdentifier "helper") None].

Definition busProject : list SourceFile := [busFile].

(* ================================================================= *)
(** * Further notions about the engine *)

(** The directories the loop of [_addFolderNodes] visits. *)
Fixpoint ancestorsFrom (fuel : nat) (currentDir : string) : list string :=
  match fuel with
  | 0 => []
  | S fuel' =>
      if aboveRoot currentDir
      then currentDir
             :: ancestorsFrom fuel'
                  (Js.replaceBackslashes (Path.dirname currentDir))
      else []
  end.

Definition ancestorDirs (relativePath : string) : list string :=
  ancestorsFrom (S (String.length relativePath))
    (Js.replaceBackslashes (Path.dirname relativePath)).

(** A source file that pass 1 does not skip. *)
Definition insideRoot (relative : string -> string -> string) (root : string)
    (sf : SourceFile) : bool :=
  negb (outsideRoot (relativePathOf relative root (sf_path sf))).

(** The source file with its call expressions left out. *)
Definition withoutCalls (sf : SourceFile) : SourceFile :=
  mkSourceFile (sf_path sf) (sf_text sf) (sf_imports sf) (sf_functions sf)
    (sf_variables sf) (sf_classes sf) [].

(** What identifies an edge. *)
Definition edgeTriple (e : ProjectEdge) : EdgeCall :=
  (edge_from e, edge_to e, edge_relation e).

Definition isCallsEdge (e : ProjectEdge) : bool :=
  RelationType_eqb (edge_relation e) calls.

(** Every registered id is a key of the node map and starts with
    [file:]. *)
Definition registryLive {E : Type} (s : EngineState E) : Prop :=
  forall name id,
    JsMap.get name (fnRegistry s) = Some id ->
    JsMap.has id (nodesMap s) = true /\ Js.startsWith id "file:" = true.

(** The [parentId] of every stored node is a key of the node map, but
    for a file that lies in the directory [/]. *)
Definition parentsLive (m : JsMap.t ProjectNode) : Prop :=
  forall k n p, In (k, n) m -> node_parentId n = Some p ->
    JsMap.has p m = true \/ (node_type n = file /\ p = "folder:/").

(** The invariant of pass 1 behind it: every directory the folder loop
    has seen has its node. *)
Definition parentsInv {E : Type} (s : EngineState E) : Prop :=
  parentsLive (nodesMap s)
  /\ (forall d, Js.mem d (folderPaths s) = true ->
                JsMap.has ("folder:" ++ d) (nodesMap s) = true).

(** The seen directories satisfy [D] and have their folder nodes, and
    every folder node is that of a seen directory. *)
Definition foldersInv {E : Type} (D : string -> Prop) (s : EngineState E)
    : Prop :=
  (forall d, Js.mem d (folderPaths s) = true ->
             D d /\ JsMap.get ("folder:" ++ d) (nodesMap s) = Some (folderNode d))
  /\ (forall k n, In (k, n) (nodesMap s) -> node_type n = folder ->
                  Js.mem (node_path n) (folderPaths s) = true).

(** The directories the folder loop visits for a file that pass 1 does not
    skip satisfy [G]. *)
Definition visitsOk (relative : string -> string -> string)
    (G : string -> Prop) (root : string) (sf : SourceFile) : Prop :=
  insideRoot relative root sf = true ->
  forall d, In d (ancestorDirs (relativePathOf relative root (sf_path sf))) ->
            G d.



(** The ends of an edge, by relation, as the two passes hand them to
    [addEdge]. *)
Definition edgeShape (c : EdgeCall) : Prop :=
  let '(f, t, r) := c in
  match r with
  | contains =>
      (exists d, f = "folder:" ++ Js.replaceBackslashes (Path.dirname d)
                 /\ (t = "folder:" ++ d \/ t = "file:" ++ d))
      \/ (exists rel rest,
             f = ("file:" ++ rel) ++ rest
             /\ exists kind name,
                  In kind [":fn:"; ":cls:"; ":method:"]
                  /\ t = f ++ kind ++ name)
  | imports =>
      exists rel target,
        f = "file:" ++ rel /\ t = "file:" ++ target
        /\ Js.includes target "node_modules" = false
  | calls =>
      (exists rel, callerIdOf ("file:" ++ rel) f)
      /\ Js.startsWith t "file:" = true
  | extends | renders => False
  end.

(* ================================================================= *)
(** * Embeddings (src/lib/embeddings.ts) *)

(** ** Awaited calls

    A computation that reads and writes the world outside the program
    (the Hugging Face API, the database, the response stream), of type
    [W], and either returns a value or throws an error with a message. *)

Inductive Outcome (A : Type) : Type :=
| Returned (a : A)
| Thrown (message : string).

Arguments Returned {A} _.
Arguments Thrown {A} _.

Definition Eff (W A : Type) : Type := W -> Outcome A * W.

Definition ret {W A : Type} (a : A) : Eff W A := fun w => (Returned a, w).

Definition throw {W A : Type} (message : string) : Eff W A :=
  fun w => (Thrown message, w).

Definition bind {W A B : Type} (c : Eff W A) (k : A -> Eff W B) : Eff W B :=
  fun w =>
    match c w with
    | (Returned a, w') => k a w'
    | (Thrown message, w') => (Thrown message, w')
    end.

(** [try { body } catch (err) { handler(err.message) }]. *)
Definition tryCatch {W A : Type} (body : Eff W A) (handler : string -> Eff W A)
    : Eff W A :=
  fun w =>
    match body w with
    | (Returned a, w') => (Returned a, w')
    | (Thrown message, w') => handler message w'
    end.

Declare Scope eff_scope.
Delimit Scope eff_scope with eff.

Notation "x <- c1 ;; c2" := (bind c1 (fun x => c2))
  (at level 61, c1 at next level, right associativity) : eff_scope.

(** [callback?.(arg)]. *)
Definition optionalCall {W A : Type} (callback : option (A -> Eff W unit))
    (arg : A) : Eff W unit :=
  match callback with
  | Some f => f arg
  | None => ret tt
  end.

(** [o] used as a condition, for [o : string | undefined]. *)
Definition isTruthy (o : option string) : bool :=
  match o with
  | Some s => Js.truthy s
  | None => false
  end.

(** ** Loops over slices *)

(** [xs.slice(i, j)] for [i <= j]. *)
Definition slice {A : Type} (i j : nat) (xs : list A) : list A :=
  firstn (j - i) (skipn i xs).

(** [for (let i = 0; i < xs.length; i += size) { const chunk =
    xs.slice(i, i + size); ... }]; [acc] stands for the variables the body
    assigns.  The bound [fuel] counts the iterations that are left. *)
Fixpoint forChunksFrom {W A R : Type} (fuel size : nat) (xs : list A)
    (body : nat -> list A -> R -> Eff W R) (i : nat) (acc : R) : Eff W R :=
  match fuel with
  | 0 => ret acc
  | S fuel' =>
      if Nat.ltb i (length xs)
      then bind (body i (slice i (i + size) xs) acc)
                (forChunksFrom fuel' size xs body (i + size))
      else ret acc
  end.

Definition forChunks {W A R : Type} (size : nat) (xs : list A)
    (body : nat -> list A -> R -> Eff W R) (acc : R) : Eff W R :=
  forChunksFrom (S (length xs)) size xs body 0 acc.

(** The offsets and slices the loop visits. *)
Fixpoint chunksFrom {A : Type} (fuel size : nat) (xs : list A) (i : nat)
    : list (nat * list A) :=
  match fuel with
  | 0 => []
  | S fuel' =>
      if Nat.ltb i (length xs)
      then (i, slice i (i + size) xs) :: chunksFrom fuel' size xs (i + size)
      else []
  end.

Definition chunksOf {A : Type} (size : nat) (xs : list A)
    : list (nat * list A) :=
  chunksFrom (S (length xs)) size xs 0.

(** A loop body run on the visited slices in turn, up to the first
    throw. *)
Fixpoint runChunks {W A R : Type} (body : nat -> list A -> R -> Eff W R)
    (visits : list (nat * list A)) (acc : R) : Eff W R :=
  match visits with
  | [] => ret acc
  | (i, chunk) :: rest => bind (body i chunk acc) (runChunks body rest)
  end.

(** ** [generateEmbeddings] *)

Record EmbedItem : Type := mkEmbedItem {
  item_id : string;
  item_text : string
}.

Definition BATCH : nat := 50.

Section Embeddings.

(** [number]. *)
Variable Num : Type.

Variable W : Type.

(** What [hf.featureExtraction] resolves to: a flat or a nested array. *)
Inductive FeatureOutput : Type :=
| FlatVector (v : list Num)
| VectorList (vs : list (list Num)).

(** [type EmbeddingResult]; the embedding is [undefined] when the API
    returned too few vectors. *)
Record EmbeddingResult : Type := mkEmbeddingResult {
  result_id : string;
  result_embedding : option (list Num)
}.

(** [mockEmbedding], a computation on floating point numbers. *)
Variable mockEmbedding : string -> list Num.

(** [hf.featureExtraction({ model, provider, inputs })] for the fixed
    model and provider. *)
Variable featureExtraction : list string -> Eff W FeatureOutput.

(** [s.slice(0, n)], the first [n] UTF-16 code units of [s].  A [string]
    is a sequence of bytes here, and the bytes of a text tell its code
    units apart only when the text is ASCII; so the cut is a parameter,
    as the numbers are. *)
Variable sliceUnits : nat -> string -> string.

(** [Array.isArray(out[0]) ? out : [out]]: the empty array has no first
    element and is wrapped like a flat vector. *)
Definition embeddingsArray (out : FeatureOutput) : list (list Num) :=
  match out with
  | FlatVector v => [v]
  | VectorList [] => [[]]
  | VectorList vs => vs
  end.

(** [for (let j = 0; j < chunk.length; j++) results.push(...)]. *)
Fixpoint chunkResultsFrom (j : nat) (chunk : list EmbedItem)
    (embeddings : list (list Num)) : list EmbeddingResult :=
  match chunk with
  | [] => []
  | c :: rest =>
      mkEmbeddingResult (item_id c) (nth_error embeddings j)
      :: chunkResultsFrom (S j) rest embeddings
  end.

Definition embeddingsApiError (message : string) : string :=
  "Hugging Face Embeddings API error: " ++ message.

(** The body of the loop over the batches. *)
Definition embedBatch (total : nat)
    (sendProgress : option (string -> Eff W unit))
    (i : nat) (chunk : list EmbedItem) (results : list EmbeddingResult)
    : Eff W (list EmbeddingResult) :=
  bind (optionalCall sendProgress
          ("Generating embeddings (" ++ Js.ofNat (i + length chunk) ++ "/"
             ++ Js.ofNat total ++ ")..."))
       (fun _ =>
          tryCatch
            (bind (featureExtraction
                     (map (fun c => sliceUnits 2048 (item_text c)) chunk))
                  (fun out =>
                     ret (results
                            ++ chunkResultsFrom 0 chunk (embeddingsArray out))%list))
            (fun message => throw (embeddingsApiError message))).

(** [token] is [process.env.HF_TOKEN]. *)
Definition generateEmbeddings (token : option string) (items : list EmbedItem)
    (sendProgress : option (string -> Eff W unit))
    : Eff W (list EmbeddingResult) :=
  if negb (isTruthy token) then
    ret (map (fun item =>
                mkEmbeddingResult (item_id item)
                                  (Some (mockEmbedding (item_text item))))
             items)
  else
    forChunks BATCH items (embedBatch (length items) sendProgress) [].

End Embeddings.

Arguments FlatVector {Num} _.
Arguments VectorList {Num} _.
Arguments mkEmbeddingResult {Num} _ _.
Arguments result_id {Num} _.
Arguments result_embedding {Num} _.

(** An API that records the inputs of every call, in order, and answers
    as [answer] says. *)
Definition recordingApi {Num : Type}
    (answer : list string -> Outcome (FeatureOutput Num))
    : list string -> Eff (list (list string)) (FeatureOutput Num) :=
  fun inputs calls => (answer inputs, (calls ++ [inputs])%list).

(** A loop that awaits [answer] on one input after the other has made
    the calls [sent] and left [rest]: it has come to its end with every
    call answered, or the last call failed, every call before it was
    answered and the loop threw the error of the last behind [wrap]. *)
Definition failsLast {Call Out A : Type} (answer : Call -> Outcome Out)
    (wrap : string -> string) (outcome : Outcome A) (sent rest : list Call)
    : Prop :=
  match outcome with
  | Returned _ =>
      rest = [] /\ Forall (fun call => exists out, answer call = Returned out) sent
  | Thrown message =>
      exists answered failing m,
        sent = (answered ++ [failing])%list
        /\ Forall (fun call => exists out, answer call = Returned out) answered
        /\ answer failing = Thrown m
        /\ message = wrap m
  end.

(** ** [buildEmbeddingText]

    [sliceUnits] is [s.slice(0, n)] as in [generateEmbeddings]. *)

Record EmbedNode : Type := mkEmbedNode {
  en_name : string;
  en_type : string;
  en_path : option string;
  en_signature : option string;
  en_docComment : option string;
  en_content : option string
}.

(** [if (cond) parts.push(part)]. *)
Definition pushIf (cond : bool) (part : string) (parts : list string)
    : list string :=
  if cond then (parts ++ [part])%list else parts.

Definition buildEmbeddingText (sliceUnits : nat -> string -> string)
    (node : EmbedNode) : string :=
  let parts := [] in
  let parts :=
    pushIf (isTruthy (en_path node))
           ("// File: " ++ Js.template (en_path node)) parts in
  let parts :=
    if isTruthy (en_signature node)
    then (parts ++ [Js.template (en_signature node)])%list
    else (parts ++ [(en_type node ++ " " ++ en_name node)%string])%list in
  let parts :=
    pushIf (isTruthy (en_docComment node))
           ("/** " ++ Js.template (en_docComment node) ++ " */") parts in
  let parts :=
    pushIf (isTruthy (en_content node))
           (sliceUnits 500 (Js.template (en_content node))) parts in
  Js.join newline parts.

Definition withContent (content : option string) (node : EmbedNode)
    : EmbedNode :=
  mkEmbedNode (en_name node) (en_type node) (en_path node)
              (en_signature node) (en_docComment node) content.

(* ================================================================= *)
(** * The AI audit route: reading the provider's event stream *)

(** [s.split("\n")]. *)
Fixpoint linesOf (s : string) : list string :=
  match s with
  | EmptyString => [EmptyString]
  | String c s' =>
      if Ascii.eqb c (ascii_of_nat 10) then EmptyString :: linesOf s'
      else match linesOf s' with
           | [] => [String c EmptyString]
           | h :: t => String c h :: t
           end
  end.

(** [s.slice(n)]. *)
Fixpoint sliceFrom (n : nat) (s : string) : string :=
  match n, s with
  | 0, _ => s
  | S n', String _ s' => sliceFrom n' s'
  | S _, EmptyString => EmptyString
  end.

(** What one pass of the loop over the lines does with a line: go on,
    after yielding a text or not, or return from the generator. *)
Inductive LineStep : Type :=
| GoOn (yielded : option string)
| ReturnNow.

(** [if (t) yield t]. *)
Definition yieldIf (t : option string) : LineStep :=
  GoOn (if isTruthy t then t else None).

(** [for (const line of lines) { ... }]: the texts yielded and whether
    the generator has returned. *)
Fixpoint forLines (step : string -> LineStep) (lines : list string)
    : list string * bool :=
  match lines with
  | [] => ([], false)
  | line :: rest =>
      match step line with
      | ReturnNow => ([], true)
      | GoOn yielded =>
          let (texts, returned) := forLines step rest in
          (match yielded with
           | Some t => t :: texts
           | None => texts
           end, returned)
      end
  end.

(** [while (true) { const { done, value } = await reader.read(); if (done)
    break; buffer += decoder.decode(value, { stream: true }); const lines
    = buffer.split("\n"); buffer = lines.pop() || ""; for (...) }].  The
    decoded pieces of the body are the input; nothing is read from
    [buffer] after the last piece. *)
Fixpoint readChunks (step : string -> LineStep) (chunks : list string)
    (buffer : string) : list string :=
  match chunks with
  | [] => []
  | value :: rest =>
      let buffer := buffer ++ value in
      let lines := linesOf buffer in
      let buffer := last lines "" in
      let lines := removelast lines in
      let (texts, returned) := forLines step lines in
      if returned then texts else (texts ++ readChunks step rest buffer)%list
  end.

Section StreamParsers.

(** [JSON.parse(data)] followed by the property path the parser reads:
    [None] when parsing throws or the path leads nowhere. *)
Variable extract : string -> option string.

(** The body of the loop of [openAIStream]. *)
Definition openAIStep (line : string) : LineStep :=
  if negb (Js.startsWith line "data: ") then GoOn None
  else
    let data := Js.trim (sliceFrom 6 line) in
    if String.eqb data "[DONE]" then ReturnNow
    else yieldIf (extract data).

(** The body of the loops of [anthropicStream] and [geminiStream]. *)
Definition dataStep (line : string) : LineStep :=
  if negb (Js.startsWith line "data: ") then GoOn None
  else yieldIf (extract (sliceFrom 6 line)).

(** [extract] reads [choices?.[0]?.delta?.content]. *)
Definition openAIStream (chunks : list string) : list string :=
  readChunks openAIStep chunks "".

(** [extract] reads [delta?.text]. *)
Definition anthropicStream (chunks : list string) : list string :=
  readChunks dataStep chunks "".

(** [extract] reads [candidates?.[0]?.content?.parts?.[0]?.text]. *)
Definition geminiStream (chunks : list string) : list string :=
  readChunks dataStep chunks "".

End StreamParsers.

(** The lines of a text that a newline ends. *)
Definition completeLines (text : string) : list string :=
  removelast (linesOf text).

(* ================================================================= *)
(** * The upload route: saving the graph *)

(** What the handler enqueues on the response stream once the graph is
    there. *)
Inductive Sent : Type :=
| SentProgress (pct : nat) (message : string)
| SentError (message : string)
| SentDone (analysis : ProjectGraph) (projectId : string).

Definition isProgressSent (ev : Sent) : bool :=
  match ev with
  | SentProgress _ _ => true
  | _ => false
  end.

Definition toStreamEvent (ev : Sent) : StreamEvent :=
  match ev with
  | SentProgress pct message => EvProgress pct message
  | SentError message => EvError message
  | SentDone analysis _ => EvDone analysis
  end.

(** A row of the table [nodes]. *)
Record NodeRow : Type := mkNodeRow {
  row_project_id : string;
  row_node_id : string;
  row_name : string;
  row_type : NodeType;
  row_path : string;
  row_line : option nat;
  row_content : option string;
  row_signature : option string;
  row_doc_comment : option string
}.

(** A row of the table [edges]. *)
Record EdgeRow : Type := mkEdgeRow {
  erow_project_id : string;
  erow_from_node : string;
  erow_to_node : string;
  erow_relation : RelationType;
  erow_call_count : nat
}.

(** [value || null]. *)
Definition orNull (o : option string) : option string :=
  if isTruthy o then o else None.

(** [message || fallback]. *)
Definition messageOr (fallback message : string) : string :=
  if Js.truthy message then message else fallback.

Definition nodeRow (projectId : string) (node : ProjectNode) : NodeRow :=
  mkNodeRow projectId (node_id node) (node_name node) (node_type node)
            (node_path node) (node_line node) (node_content node)
            (orNull (node_signature node)) (orNull (node_docComment node)).

Definition edgeRow (projectId : string) (edge : ProjectEdge) : EdgeRow :=
  mkEdgeRow projectId (edge_from edge) (edge_to edge) (edge_relation edge)
            (callCountOr1 (edge_callCount edge)).

Definition NodeType_text (t : NodeType) : string :=
  match t with
  | folder => "folder"
  | file => "file"
  | function => "function"
  | class => "class"
  | component => "component"
  end.

(** [n.type === "function" || n.type === "class"]. *)
Definition isEmbeddable (n : ProjectNode) : bool :=
  match node_type n with
  | function | class => true
  | _ => false
  end.

(** [buildEmbeddingText(n as any)]. *)
Definition embedNodeOf (n : ProjectNode) : EmbedNode :=
  mkEmbedNode (node_name n) (NodeType_text (node_type n)) (Some (node_path n))
              (node_signature n) (node_docComment n) (node_content n).

Definition embedItemOf (sliceUnits : nat -> string -> string)
    (n : ProjectNode) : EmbedItem :=
  mkEmbedItem (node_id n) (buildEmbeddingText sliceUnits (embedNodeOf n)).

Definition CHUNK : nat := 500.
Definition UPDATE_BATCH : nat := 50.

(** [send(payload)]; [controller.enqueue] is wrapped in a [try] and never
    throws. *)
Definition send {W : Type} (ev : Sent) : Eff (W * list Sent) unit :=
  fun st => (Returned tt, (fst st, (snd st ++ [ev])%list)).

(** An awaited call that leaves the response stream alone. *)
Definition await {W A : Type} (call : Eff W A) : Eff (W * list Sent) A :=
  fun st => let (r, w) := call (fst st) in (r, (w, snd st)).

(** [new Map(rows)]. *)
Definition mapOfPairs (rows : list (string * string)) : JsMap.t string :=
  fold_left (fun m row => JsMap.set (fst row) (snd row) m) rows JsMap.empty.

Section SaveGraph.

Variable Num : Type.
Variable W : Type.
Variable mockEmbedding : string -> list Num.
Variable featureExtraction : list string -> Eff W (FeatureOutput Num).

(** [s.slice(0, n)] on UTF-16 code units, as in [generateEmbeddings]. *)
Variable sliceUnits : nat -> string -> string.

(** [process.env.HF_TOKEN]. *)
Variable token : option string.

(** [supabase.from("projects").insert({ name, url, root_path,
    expires_at }).select().single()]: the id of the new row, or the
    error the handler throws. *)
Variable insertProject :
  string -> option string -> string -> string -> Eff W string.

(** [supabase.from("nodes").insert(rows)] and [supabase.from("edges")
    .insert(rows)], throwing the error they report. *)
Variable insertNodes : list NodeRow -> Eff W unit.
Variable insertEdges : list EdgeRow -> Eff W unit.

(** [supabase.from("nodes").select("id, node_id").eq("project_id", id)
    .in("node_id", ids)]: pairs of [node_id] and [id], or [null]. *)
Variable selectNodeIds :
  string -> list string -> W -> option (list (string * string)) * W.

(** [JSON.stringify(r.embedding)]. *)
Variable Json : Type.
Variable stringify : option (list Num) -> Json.

(** [supabase.from("nodes").update({ embedding }).eq("id", id)], settled
    whatever its result. *)
Variable updateEmbedding : string -> Json -> W -> W.

(** [Math.round((a / b) * 10)], a computation on floating point numbers. *)
Variable roundTenths : nat -> nat -> nat.

(** [new Date(Date.now() + 10 * 60 * 1000).toISOString()]. *)
Variable expiresAt : string.

Abbreviation Route := (Eff (W * list Sent)).

Definition saveNodes (projectId : string) (analysis : ProjectGraph)
    : Route unit :=
  let nodesToInsert := map (nodeRow projectId) (nodes analysis) in
  forChunks CHUNK nodesToInsert
    (fun i chunk _ =>
       bind (await (insertNodes chunk))
            (fun _ =>
               let pct :=
                 85 + roundTenths (i + CHUNK) (length nodesToInsert) in
               send (SentProgress (Nat.min pct 95)
                       ("Saved "
                          ++ Js.ofNat (Nat.min (i + CHUNK) (length nodesToInsert))
                          ++ "/" ++ Js.ofNat (length nodesToInsert)
                          ++ " nodes..."))))
    tt.

Definition saveEdges (projectId : string) (analysis : ProjectGraph)
    : Route unit :=
  let edgesToInsert := map (edgeRow projectId) (edges analysis) in
  forChunks CHUNK edgesToInsert
    (fun _ chunk _ => await (insertEdges chunk)) tt.

(** [await Promise.allSettled(batch.map(u => ...update...))]. *)
Definition settleUpdates (batch : list (option string * Json)) : Route unit :=
  await (fun w =>
           (Returned tt,
            fold_left (fun w u => updateEmbedding (Js.template (fst u)) (snd u) w)
                      batch w)).

(** The [if (dbNodes && dbNodes.length > 0)] block. *)
Definition storeEmbeddings (embedResults : list (EmbeddingResult Num))
    (dbNodes : list (string * string)) : Route unit :=
  let nodeIdMap := mapOfPairs dbNodes in
  let embUpdates :=
    filter (fun u => isTruthy (fst u))
           (map (fun r => (JsMap.get (result_id r) nodeIdMap,
                           stringify (result_embedding r)))
                embedResults) in
  bind (forChunks UPDATE_BATCH embUpdates
          (fun i batch _ =>
             bind (settleUpdates batch)
                  (fun _ =>
                     send (SentProgress 98
                             ("Indexed "
                                ++ Js.ofNat (Nat.min (i + UPDATE_BATCH)
                                                     (length embUpdates))
                                ++ "/" ++ Js.ofNat (length embUpdates)
                                ++ " embeddings..."))))
          tt)
       (fun _ =>
          send (SentProgress 99
                  ("✅ " ++ Js.ofNat (length embUpdates)
                     ++ " embeddings stored. Ensure pgvector index exists in Supabase for vector search."))).

(** The [try] block around the embeddings and its [catch]. *)
Definition indexEmbeddings (projectId : string) (analysis : ProjectGraph)
    : Route unit :=
  let embeddableNodes := filter isEmbeddable (nodes analysis) in
  if Nat.ltb 0 (length embeddableNodes) then
    bind (send (SentProgress 97
                  ("Generating embeddings for "
                     ++ Js.ofNat (length embeddableNodes) ++ " symbols...")))
         (fun _ =>
            tryCatch
              (bind (generateEmbeddings Num (W * list Sent) mockEmbedding
                       (fun inputs => await (featureExtraction inputs))
                       sliceUnits token
                       (map (embedItemOf sliceUnits) embeddableNodes)
                       (Some (fun msg => send (SentProgress 97 msg))))
                    (fun embedResults =>
                       bind (await (fun w =>
                                      let (data, w') :=
                                        selectNodeIds projectId
                                          (map node_id embeddableNodes) w in
                                      (Returned data, w')))
                            (fun dbNodes =>
                               match dbNodes with
                               | Some rows =>
                                   if Nat.ltb 0 (length rows)
                                   then storeEmbeddings embedResults rows
                                   else ret tt
                               | None => ret tt
                               end)))
              (fun message =>
                 send (SentProgress 98
                         ("⚠️ Embeddings skipped ("
                            ++ messageOr "non-fatal" message
                            ++ "). Search will use text fallback."))))
  else ret tt.

(** The [try] block once the project row is there. *)
Definition saveRows (projectId : string) (analysis : ProjectGraph)
    : Route unit :=
  bind (send (SentProgress 85
                ("Saving " ++ Js.ofNat (length (nodes analysis))
                   ++ " nodes...")))
     (fun _ =>
  bind (saveNodes projectId analysis)
     (fun _ =>
  bind (send (SentProgress 96
                ("Saving " ++ Js.ofNat (length (edges analysis))
                   ++ " edges...")))
     (fun _ =>
  bind (saveEdges projectId analysis)
     (fun _ =>
  bind (indexEmbeddings projectId analysis)
     (fun _ =>
  bind (send (SentProgress 100 "Analysis complete!"))
     (fun _ =>
  send (SentDone analysis projectId))))))).

(** The [try] block from [Creating project record...] on. *)
Definition createAndSave (projectName : string) (repoUrl : option string)
    (analysis : ProjectGraph) : Route unit :=
  bind (send (SentProgress 80 "Creating project record..."))
     (fun _ =>
  bind (await (insertProject projectName (orNull repoUrl)
                 (rootPath analysis) expiresAt))
     (fun projectId => saveRows projectId analysis)).

(** The [try] block and its [catch]. *)
Definition saveGraph (projectName : string) (repoUrl : option string)
    (analysis : ProjectGraph) : Route unit :=
  tryCatch (createAndSave projectName repoUrl analysis)
    (fun message => send (SentError (messageOr "Analysis failed" message))).

(** The events of one run, from the database state [w]. *)
Definition saveGraphEvents (projectName : string) (repoUrl : option string)
    (w : W) (analysis : ProjectGraph) : list Sent :=
  snd (snd (saveGraph projectName repoUrl analysis (w, []))).

End SaveGraph.

(** What a step of the handler adds to the response stream. *)
Definition allProgress (evs : list Sent) : Prop :=
  Forall (fun ev => isProgressSent ev = true) evs.

(** [c] only adds progress events. *)
Definition sendsProgress {W A : Type} (c : Eff (W * list Sent) A) : Prop :=
  forall st, exists new,
    snd (snd (c st)) = (snd st ++ new)%list /\ allProgress new.

(** [c] adds progress events and, when it returns, [final] after them. *)
Definition finishesWith {W A : Type} (final : Sent)
    (c : Eff (W * list Sent) A) : Prop :=
  forall st, exists new,
    allProgress new
    /\ match fst (c st) with
       | Returned _ => snd (snd (c st)) = (snd st ++ new ++ [final])%list
       | Thrown _ => snd (snd (c st)) = (snd st ++ new)%list
       end.

Definition neverThrows {W A : Type} (c : Eff W A) : Prop :=
  forall w, exists a, fst (c w) = Returned a.

Definition isTerminal (ev : StreamEvent) : bool := isFailure ev || isDone ev.

(** A table that records the rows of every insert, in order, and reports
    what [verdict] says. *)
Definition recordingInsert {Row : Type} (verdict : list Row -> Outcome unit)
    : list Row -> Eff (list (list Row)) unit :=
  fun rows calls => (verdict rows, (calls ++ [rows])%list).

(* ================================================================= *)
(** * The AI audit route: collecting the code and building the request *)

(** ** [buildCodeContext] *)

(** A row of [nodes] as the route selects it, with the similarity of the
    vector search merged in; [None] is [null] or a missing property. *)
Record ContextNode (Sim : Type) : Type := mkContextNode {
  cn_type : option string;
  cn_path : option string;
  cn_line : option nat;
  cn_content : option string;
  cn_signature : option string;
  cn_doc_comment : option string;
  cn_similarity : option Sim
}.

Arguments mkContextNode {Sim} _ _ _ _ _ _ _.
Arguments cn_type {Sim} _.
Arguments cn_path {Sim} _.
Arguments cn_line {Sim} _.
Arguments cn_content {Sim} _.
Arguments cn_signature {Sim} _.
Arguments cn_doc_comment {Sim} _.
Arguments cn_similarity {Sim} _.

Definition CHAR_LIMIT : nat := 70000.

Definition upperChar (c : ascii) : ascii :=
  let n := nat_of_ascii c in
  if Nat.leb 97 n && Nat.leb n 122 then ascii_of_nat (n - 32) else c.

(** [s.toUpperCase()], on ASCII letters. *)
Fixpoint toUpperCase (s : string) : string :=
  match s with
  | EmptyString => EmptyString
  | String c s' => String (upperChar c) (toUpperCase s')
  end.

(** [`${node.type?.toUpperCase()}`]. *)
Definition typeTag (type : option string) : string :=
  match type with
  | Some t => toUpperCase t
  | None => "undefined"
  end.

(** [`${node.path}`] for a column that holds a string or [null]. *)
Definition pathText (path : option string) : string :=
  match path with
  | Some p => p
  | None => "null"
  end.

(** [node.line || 0]. *)
Definition lineOr0 (line : option nat) : nat :=
  match line with
  | Some n => n
  | None => 0
  end.

Section CodeContext.

Variable Sim : Type.

(** [(similarity * 100).toFixed(0)], a computation on floating point
    numbers. *)
Variable percent : Sim -> string.

(** [s.slice(0, n)] and [s.length], which count UTF-16 code units.  A
    [string] is a sequence of bytes here, and the bytes of a text tell its
    code units apart only when the text is ASCII; so both are
    parameters. *)
Variable sliceUnits : nat -> string -> string.
Variable lengthUnits : string -> nat.

Definition backticks : string := "```".

Definition snippetOf (showSimilarity : bool) (node : ContextNode Sim) : string :=
  let simTag :=
    match cn_similarity node with
    | Some similarity =>
        if showSimilarity then " [relevance: " ++ percent similarity ++ "%]"
        else ""
    | None => ""
    end in
  let sig :=
    if isTruthy (cn_signature node)
    then newline ++ "// " ++ Js.template (cn_signature node)
    else "" in
  let doc :=
    if isTruthy (cn_doc_comment node)
    then newline ++ "/** " ++ Js.template (cn_doc_comment node) ++ " */"
    else "" in
  "### " ++ typeTag (cn_type node) ++ ": " ++ pathText (cn_path node) ++ ":"
    ++ Js.ofNat (lineOr0 (cn_line node)) ++ simTag ++ doc ++ sig ++ newline
    ++ backticks ++ "typescript" ++ newline
    ++ sliceUnits 2500 (Js.template (cn_content node)) ++ newline
    ++ backticks ++ newline.

(** The loop over the nodes, from [totalChars] characters on. *)
Fixpoint contextChunks (showSimilarity : bool) (nodes : list (ContextNode Sim))
    (totalChars : nat) : list string :=
  match nodes with
  | [] => []
  | node :: rest =>
      if negb (isTruthy (cn_content node)) || Nat.leb CHAR_LIMIT totalChars
      then []
      else
        let snippet := snippetOf showSimilarity node in
        snippet
        :: contextChunks showSimilarity rest
             (totalChars + lengthUnits snippet)
  end.

Definition buildCodeContext (nodes : list (ContextNode Sim))
    (showSimilarity : bool) : string :=
  let joined := Js.join newline (contextChunks showSimilarity nodes 0) in
  if Js.truthy joined then joined else "_No code content available._".

(** The lengths of the snippets together. *)
Definition totalLength (chunks : list string) : nat :=
  fold_right (fun chunk total => lengthUnits chunk + total) 0 chunks.

(** ** The hits of the vector search *)

(** A row that [match_nodes] returns. *)
Record Hit : Type := mkHit {
  hit_node_id : string;
  hit_similarity : option Sim
}.

(** [seenNodeIds] and [relevantNodes]. *)
Definition Seen : Type := (list string * list Hit)%type.

(** [if (!seenNodeIds.has(hit.node_id)) { seenNodeIds.add(hit.node_id);
    relevantNodes.push(hit); }]. *)
Definition addHit (hit : Hit) (acc : Seen) : Seen :=
  if Js.mem (hit_node_id hit) (fst acc) then acc
  else ((fst acc ++ [hit_node_id hit])%list, (snd acc ++ [hit])%list).

(** The body of the loop over the query embeddings; [answer] is the
    [data] of the call, [None] when the call reported an error or no
    data. *)
Definition addHits (answer : option (list Hit)) (acc : Seen) : Seen :=
  match answer with
  | Some hits => forEach addHit hits acc
  | None => acc
  end.

Definition relevantNodes (answers : list (option (list Hit))) : list Hit :=
  snd (forEach addHits answers ([], [])).

(** [{ ...enrichedMap.get(hit.node_id), similarity: hit.similarity }]. *)
Definition mergeHit (enrichedMap : JsMap.t (ContextNode Sim)) (hit : Hit)
    : ContextNode Sim :=
  match JsMap.get (hit_node_id hit) enrichedMap with
  | Some row =>
      mkContextNode (cn_type row) (cn_path row) (cn_line row) (cn_content row)
                    (cn_signature row) (cn_doc_comment row)
                    (hit_similarity hit)
  | None => mkContextNode None None None None None None (hit_similarity hit)
  end.

(** [new Map((enriched || []).map(n => [n.node_id, n]))]. *)
Definition enrichedMapOf (enriched : option (list (string * ContextNode Sim)))
    : JsMap.t (ContextNode Sim) :=
  match enriched with
  | Some rows =>
      fold_left (fun m row => JsMap.set (fst row) (snd row) m) rows JsMap.empty
  | None => JsMap.empty
  end.

Definition mergedNodes (enriched : option (list (string * ContextNode Sim)))
    (relevant : list Hit) : list (ContextNode Sim) :=
  filter (fun n => isTruthy (cn_content n))
         (map (mergeHit (enrichedMapOf enriched)) relevant).

End CodeContext.

Arguments mkHit {Sim} _ _.
Arguments hit_node_id {Sim} _.
Arguments hit_similarity {Sim} _.

(** ** The messages sent to the provider *)

Record Message : Type := mkMessage {
  msg_role : string;
  msg_content : string
}.

Definition isSystem (m : Message) : bool := String.eqb (msg_role m) "system".

(** [Array.isArray(incomingMessages) && incomingMessages.length > 1];
    [None] stands for a value that is not an array. *)
Definition isFollowUp (incomingMessages : option (list Message)) : bool :=
  match incomingMessages with
  | Some messages => Nat.ltb 1 (length messages)
  | None => false
  end.

Definition finalMessages (incomingMessages : option (list Message))
    (systemPrompt userPrompt followUpSystem : string) : list Message :=
  if isFollowUp incomingMessages then
    mkMessage "system" followUpSystem
    :: filter (fun m => negb (isSystem m))
              (match incomingMessages with
               | Some messages => messages
               | None => []
               end)
  else [mkMessage "system" systemPrompt; mkMessage "user" userPrompt].

(** [{ role, parts: [{ text }] }]. *)
Record GeminiContent : Type := mkGeminiContent {
  gc_role : string;
  gc_text : string
}.

Inductive RequestBody : Type :=
| AnthropicBody (model : string) (max_tokens : nat) (stream : bool)
    (system : string) (messages : list Message)
| GeminiBody (contents : list GeminiContent) (systemInstruction : string)
    (maxOutputTokens : nat)
| OpenAIBody (model : string) (messages : list Message) (stream : bool)
    (max_tokens : nat).

Record ProviderRequest : Type := mkProviderRequest {
  apiUrl : string;
  headers : list (string * string);
  body : RequestBody
}.

(** [messages.find((m) => m.role === "system")?.content || ""]. *)
Definition systemContent (messages : list Message) : string :=
  match find isSystem messages with
  | Some m => msg_content m
  | None => ""
  end.

Definition buildProviderRequest (provider apiKey : string)
    (model customEndpoint : option string) (messages : list Message)
    : ProviderRequest :=
  let effectiveModel := Js.or_else model "gpt-4o" in
  if String.eqb provider "anthropic" then
    mkProviderRequest
      "https://api.anthropic.com/v1/messages"
      [("Content-Type", "application/json"); ("x-api-key", apiKey);
       ("anthropic-version", "2023-06-01")]
      (AnthropicBody effectiveModel 8000 true (systemContent messages)
         (filter (fun m => negb (isSystem m)) messages))
  else if String.eqb provider "gemini" then
    let geminiModel :=
      if Js.startsWith effectiveModel "gemini" then effectiveModel
      else "gemini-1.5-pro" in
    mkProviderRequest
      ("https://generativelanguage.googleapis.com/v1beta/models/"
         ++ geminiModel ++ ":streamGenerateContent?key=" ++ apiKey
         ++ "&alt=sse")
      [("Content-Type", "application/json")]
      (GeminiBody
         (map (fun m =>
                 mkGeminiContent
                   (if String.eqb (msg_role m) "assistant" then "model"
                    else "user")
                   (msg_content m))
              (filter (fun m => negb (isSystem m)) messages))
         (systemContent messages) 8000)
  else
    mkProviderRequest
      (if String.eqb provider "custom" then Js.or_else customEndpoint ""
       else "https://api.openai.com/v1/chat/completions")
      [("Content-Type", "application/json");
       ("Authorization", "Bearer " ++ apiKey)]
      (OpenAIBody effectiveModel messages true 8000).
(* ================================================================= *)
(** * Properties *)

(** String literals stay folded under [simpl]. *)
#[local] Arguments String.append : simpl never.

(** ** Facts about [Map] *)

Module JsMapFacts.

Import JsMap.

Lemma get_set_same {V : Type} (k : string) (v : V) (m : t V) :
  get k (set k v m) = Some v.
Proof.
  induction m as [|[k' v'] rest IH]; simpl.
  - now rewrite String.eqb_refl.
  - destruct (String.eqb k k') eqn:Hk; simpl.
    + now rewrite String.eqb_refl.
    + now rewrite Hk.
Qed.

Lemma get_set_other {V : Type} (k k' : string) (v : V) (m : t V) :
  k' <> k -> get k' (set k v m) = get k' m.
Proof.
  intros Hne.
  induction m as [|[k0 v0] rest IH]; simpl.
  - destruct (String.eqb k' k) eqn:Hk; [apply String.eqb_eq in Hk; easy | easy].
  - destruct (String.eqb k k0) eqn:Hk0; simpl.
    + apply String.eqb_eq in Hk0; subst k0.
      destruct (String.eqb k' k) eqn:Hk; [apply String.eqb_eq in Hk; easy | easy].
    + now rewrite IH.
Qed.

Lemma has_set_same {V : Type} (k : string) (v : V) (m : t V) :
  has k (set k v m) = true.
Proof. unfold has. now rewrite get_set_same. Qed.

Lemma has_set_mono {V : Type} (k k' : string) (v : V) (m : t V) :
  has k' m = true -> has k' (set k v m) = true.
Proof.
  destruct (string_dec k' k) as [->|Hne].
  - intros _. apply has_set_same.
  - unfold has. now rewrite get_set_other.
Qed.

Lemma in_set {V : Type} (k k' : string) (v v' : V) (m : t V) :
  In (k', v') (set k v m) -> (k' = k /\ v' = v) \/ In (k', v') m.
Proof.
  induction m as [|[k0 v0] rest IH]; simpl.
  - intros [H|[]]. inversion H; auto.
  - destruct (String.eqb k k0) eqn:Hk; simpl.
    + intros [H|H]; [inversion H; auto | auto].
    + intros [H|H]; [auto | destruct (IH H); auto].
Qed.

Lemma get_in {V : Type} (k : string) (v : V) (m : t V) :
  get k m = Some v -> In (k, v) m.
Proof.
  induction m as [|[k0 v0] rest IH]; simpl; [discriminate|].
  destruct (String.eqb k k0) eqn:Hk.
  - apply String.eqb_eq in Hk. subst. intros H. inversion H. auto.
  - auto.
Qed.

Lemma has_in {V : Type} (k : string) (m : t V) :
  has k m = true -> exists v, In (k, v) m.
Proof.
  unfold has. destruct (get k m) as [v|] eqn:Hg; [|discriminate].
  intros _. exists v. now apply get_in.
Qed.

Lemma keys_set {V : Type} (k k' : string) (v : V) (m : t V) :
  In k' (keys (set k v m)) -> k' = k \/ In k' (keys m).
Proof.
  unfold keys. rewrite in_map_iff. intros [[k0 v0] [Heq Hin]].
  simpl in Heq. subst k0. apply in_set in Hin as [[-> _]|Hin]; [auto|].
  right. apply in_map_iff. now exists (k', v0).
Qed.

Lemma NoDup_keys_set {V : Type} (k : string) (v : V) (m : t V) :
  NoDup (keys m) -> NoDup (keys (set k v m)).
Proof.
  induction m as [|[k0 v0] rest IH]; simpl; intros Hnd.
  - constructor; [easy | constructor].
  - inversion Hnd as [|? ? Hnotin Hrest]; subst.
    destruct (String.eqb k k0) eqn:Hk; simpl.
    + apply String.eqb_eq in Hk. subst. now constructor.
    + constructor; [|now apply IH].
      intros Hin. apply keys_set in Hin as [->|Hin]; [|easy].
      now rewrite String.eqb_refl in Hk.
Qed.

Lemma in_values {V : Type} (v : V) (m : t V) :
  In v (values m) <-> exists k, In (k, v) m.
Proof.
  unfold values. rewrite in_map_iff. split.
  - intros [[k v0] [Heq Hin]]. simpl in Heq. subst. now exists k.
  - intros [k Hin]. now exists (k, v).
Qed.

End JsMapFacts.

(** ** Facts about the loops *)

Lemma forEach_invariant {A St : Type} (I : St -> Prop) (G : A -> Prop)
    (f : A -> St -> St) :
  (forall x s, G x -> I s -> I (f x s)) ->
  forall xs s, Forall G xs -> I s -> I (forEach f xs s).
Proof.
  intros Hstep xs. unfold forEach.
  induction xs as [|x rest IH]; simpl; intros s HG HI; [exact HI|].
  inversion HG; subst. apply IH; [assumption|]. now apply Hstep.
Qed.

Lemma forEach_preserves {A St : Type} (I : St -> Prop) (f : A -> St -> St) :
  (forall x s, I s -> I (f x s)) ->
  forall xs s, I s -> I (forEach f xs s).
Proof.
  intros Hstep xs s. apply (forEach_invariant I (fun _ => True)).
  - intros x s0 _. apply Hstep.
  - apply Forall_forall. intros. exact Logic.I.
Qed.

Lemma forEachFrom_invariant {A St : Type} (I : St -> Prop)
    (f : A -> nat -> St -> St) :
  forall xs i s,
    (forall x idx s, visitedAt i xs x idx -> I s -> I (f x idx s)) ->
    I s -> I (forEachFrom f i xs s).
Proof.
  induction xs as [|x rest IH]; simpl; intros i s Hstep HI; [exact HI|].
  apply IH.
  - intros y idx s0 [k [-> Hk]]. apply Hstep.
    exists (S k). split; [lia | exact Hk].
  - apply Hstep; [|exact HI]. exists 0. split; [lia | reflexivity].
Qed.

Lemma forEachIdx_invariant {A St : Type} (I : St -> Prop)
    (f : A -> nat -> St -> St) (xs : list A) (s : St) :
  (forall x idx s, nth_error xs idx = Some x -> I s -> I (f x idx s)) ->
  I s -> I (forEachIdx f xs s).
Proof.
  intros Hstep. apply forEachFrom_invariant.
  intros x idx s0 [k [-> Hk]]. now apply Hstep.
Qed.

(** ** The folder loop ends by its own condition *)

Lemma dropWhile_length p l : length (Path.dropWhile p l) <= length l.
Proof.
  induction l as [|c l IH]; simpl; [lia|].
  destruct (p c); simpl; lia.
Qed.

Lemma dropWhile_head p l y l' : Path.dropWhile p l = y :: l' -> p y = false.
Proof.
  induction l as [|c l IH]; simpl; [discriminate|].
  destruct (p c) eqn:Hc; [exact IH|].
  intros [= <- _]. exact Hc.
Qed.

Lemma length_string_of_list l :
  String.length (string_of_list_ascii l) = length l.
Proof. induction l as [|c l IH]; simpl; [reflexivity | now rewrite IH]. Qed.

Lemma length_list_of_string s :
  length (list_ascii_of_string s) = String.length s.
Proof. induction s as [|c s IH]; simpl; [reflexivity | now rewrite IH]. Qed.

Lemma length_replaceBackslashes s :
  String.length (Js.replaceBackslashes s) = String.length s.
Proof. induction s as [|c s IH]; simpl; [reflexivity | now rewrite IH]. Qed.

(** [path.dirname] gives the current or the root directory, or a shorter
    path. *)
Lemma dirname_shorter p :
  Path.dirname p = "." \/ Path.dirname p = "/"
  \/ String.length (Path.dirname p) < String.length p.
Proof.
  unfold Path.dirname. rewrite <- (length_list_of_string p).
  destruct (list_ascii_of_string p) as [|c rest]; [now left|].
  destruct (Path.dropWhile Path.notSlash
              (Path.dropWhile Path.isSlash (rev rest))) as [|x before] eqn:H2.
  - destruct (Path.isSlash c); auto.
  - right. right.
    assert (Hlen : length before + 2 <= length rest).
    { destruct (Path.dropWhile Path.isSlash (rev rest)) as [|y r1] eqn:H1;
        [discriminate H2|].
      pose proof (dropWhile_length Path.isSlash (rev rest)) as Hl1.
      rewrite H1, length_rev in Hl1. simpl in Hl1.
      apply dropWhile_head in H1. simpl in H2.
      unfold Path.notSlash in H2 at 1. rewrite H1 in H2. simpl in H2.
      pose proof (dropWhile_length Path.notSlash r1) as Hl2.
      rewrite H2 in Hl2. simpl in Hl2. lia. }
    destruct before as [|b before].
    + destruct (Path.isSlash c); simpl in *; lia.
    + rewrite length_string_of_list. simpl in *.
      rewrite length_app, length_rev. simpl. lia.
Qed.

Lemma aboveRoot_dirname p :
  aboveRoot (Js.replaceBackslashes (Path.dirname p)) = false
  \/ String.length (Js.replaceBackslashes (Path.dirname p)) < String.length p.
Proof.
  destruct (dirname_shorter p) as [->|[->|H]]; [now left | now left |].
  right. now rewrite length_replaceBackslashes.
Qed.

Section FolderLoop.

Context {E : Type}.
Variable addE : string -> string -> RelationType -> E -> E.

(** With the condition false or enough iterations left, more iterations
    change nothing. *)
Lemma addFolderNodesLoop_fuel fuel :
  forall d (st : EngineState E) extra,
    aboveRoot d = false \/ String.length d < fuel ->
    addFolderNodesLoop addE (fuel + extra) d st
    = addFolderNodesLoop addE fuel d st.
Proof.
  induction fuel as [|fuel IH]; intros d st extra Hd.
  - destruct Hd as [Hd|Hd]; [|lia].
    destruct extra; simpl; [reflexivity | now rewrite Hd].
  - simpl. destruct (aboveRoot d) eqn:Ha; [|reflexivity].
    apply IH. destruct Hd as [Hd|Hd]; [discriminate Hd|].
    destruct (aboveRoot_dirname d) as [H|H]; [now left | right; lia].
Qed.

(** [_addFolderNodes] runs the loop to its end: any larger bound gives
    the same state. *)
Lemma addFolderNodes_terminates relativePath (st : EngineState E) extra :
  addFolderNodesLoop addE (S (String.length relativePath) + extra)
    (Js.replaceBackslashes (Path.dirname relativePath)) st
  = _addFolderNodes addE relativePath st.
Proof.
  unfold _addFolderNodes. apply addFolderNodesLoop_fuel.
  destruct (aboveRoot_dirname relativePath) as [H|H]; [now left | right; lia].
Qed.

End FolderLoop.

(** ** The passes do not depend on what [addEdge] accumulates *)

Section Simulation.

Variable relative : string -> string -> string.
Context {E1 E2 : Type}.
Variable add1 : string -> string -> RelationType -> E1 -> E1.
Variable add2 : string -> string -> RelationType -> E2 -> E2.
Variable R : E1 -> E2 -> Prop.
Hypothesis R_add :
  forall f t r e1 e2, R e1 e2 -> R (add1 f t r e1) (add2 f t r e2).

Ltac sim_start :=
  let s1 := fresh "s" in let s2 := fresh "s" in
  let Hn := fresh "Hn" in let Hr := fresh "Hr" in
  let Hf := fresh "Hf" in let He := fresh "He" in
  intros s1 s2 (Hn & Hr & Hf & He);
  destruct s1 as [n1 e1 r1 f1], s2 as [n2 e2 r2 f2];
  simpl in Hn, Hr, Hf, He; subst n2 r2 f2.

Lemma sim_withEdge f t r :
  forall s1 s2, sim R s1 s2 -> sim R (withEdge add1 f t r s1) (withEdge add2 f t r s2).
Proof. sim_start. repeat split; simpl; auto. Qed.

Lemma sim_setNode id n :
  forall s1 s2, sim R s1 s2 -> sim R (setNode id n s1) (setNode id n s2).
Proof. sim_start. repeat split; simpl; auto. Qed.

Lemma sim_register k id :
  forall s1 s2, sim R s1 s2 -> sim R (register k id s1) (register k id s2).
Proof. sim_start. repeat split; simpl; auto. Qed.

Lemma sim_markFolder d :
  forall s1 s2, sim R s1 s2 -> sim R (markFolder d s1) (markFolder d s2).
Proof. sim_start. repeat split; simpl; auto. Qed.

#[local] Hint Resolve sim_withEdge sim_setNode sim_register sim_markFolder : sim.

Lemma sim_forEach {A : Type} (f1 : A -> EngineState E1 -> EngineState E1)
    (f2 : A -> EngineState E2 -> EngineState E2) :
  (forall x s1 s2, sim R s1 s2 -> sim R (f1 x s1) (f2 x s2)) ->
  forall xs s1 s2, sim R s1 s2 -> sim R (forEach f1 xs s1) (forEach f2 xs s2).
Proof.
  intros Hstep xs. unfold forEach.
  induction xs as [|x rest IH]; simpl; intros s1 s2 Hs; [exact Hs|].
  apply IH. now apply Hstep.
Qed.

Lemma sim_forEachFrom {A : Type}
    (f1 : A -> nat -> EngineState E1 -> EngineState E1)
    (f2 : A -> nat -> EngineState E2 -> EngineState E2) :
  (forall x i s1 s2, sim R s1 s2 -> sim R (f1 x i s1) (f2 x i s2)) ->
  forall xs i s1 s2,
    sim R s1 s2 -> sim R (forEachFrom f1 i xs s1) (forEachFrom f2 i xs s2).
Proof.
  intros Hstep xs.
  induction xs as [|x rest IH]; simpl; intros i s1 s2 Hs; [exact Hs|].
  apply IH. now apply Hstep.
Qed.

Lemma sim_addFolderNode d :
  forall s1 s2, sim R s1 s2 -> sim R (addFolderNode add1 d s1) (addFolderNode add2 d s2).
Proof.
  intros s1 s2 Hs. unfold addFolderNode.
  assert (Hf : folderPaths s1 = folderPaths s2) by apply Hs.
  rewrite Hf. destruct (Js.mem d (folderPaths s2)); [exact Hs|].
  destruct (negb _ && negb _); auto with sim.
Qed.

Lemma sim_addFolderNodesLoop fuel :
  forall d s1 s2,
    sim R s1 s2 ->
    sim R (addFolderNodesLoop add1 fuel d s1) (addFolderNodesLoop add2 fuel d s2).
Proof.
  induction fuel as [|fuel IH]; simpl; intros d s1 s2 Hs; [exact Hs|].
  destruct (aboveRoot d); [|exact Hs].
  apply IH. now apply sim_addFolderNode.
Qed.

Lemma sim_registerFunction fn idx fid rel :
  forall s1 s2,
    sim R s1 s2 ->
    sim R (_registerFunction add1 fn idx fid rel s1)
        (_registerFunction add2 fn idx fid rel s2).
Proof. intros. unfold _registerFunction. auto with sim. Qed.

Lemma sim_addImport root fid imp :
  forall s1 s2,
    sim R s1 s2 ->
    sim R (addImport relative add1 root fid imp s1)
        (addImport relative add2 root fid imp s2).
Proof.
  intros. unfold addImport. destruct (imp_resolved imp); [|assumption].
  destruct (negb _); auto with sim.
Qed.

Lemma sim_registerVariable fid rel v :
  forall s1 s2,
    sim R s1 s2 ->
    sim R (registerVariable add1 fid rel v s1) (registerVariable add2 fid rel v s2).
Proof.
  intros s1 s2 Hs. unfold registerVariable.
  assert (Hn : nodesMap s1 = nodesMap s2) by apply Hs. rewrite Hn.
  destruct (vd_init v); [|assumption].
  destruct (isFunctionInitializer _); [|assumption].
  destruct (negb _); auto with sim.
Qed.

Lemma sim_registerMethod name clsId rel m :
  forall s1 s2,
    sim R s1 s2 ->
    sim R (registerMethod add1 name clsId rel m s1)
        (registerMethod add2 name clsId rel m s2).
Proof. intros. unfold registerMethod. auto with sim. Qed.

Lemma sim_registerClass fid rel cls idx :
  forall s1 s2,
    sim R s1 s2 ->
    sim R (registerClass add1 fid rel cls idx s1)
        (registerClass add2 fid rel cls idx s2).
Proof.
  intros. unfold registerClass. apply sim_forEach.
  - intros. now apply sim_registerMethod.
  - auto with sim.
Qed.

Lemma sim_pass1File root sf :
  forall s1 s2,
    sim R s1 s2 ->
    sim R (pass1File relative add1 root sf s1) (pass1File relative add2 root sf s2).
Proof.
  intros s1 s2 Hs. unfold pass1File.
  destruct (outsideRoot _); [assumption|].
  apply sim_forEachFrom; [intros; now apply sim_registerClass|].
  apply sim_forEach; [intros; now apply sim_registerVariable|].
  apply sim_forEachFrom; [intros; now apply sim_registerFunction|].
  apply sim_forEach; [intros; now apply sim_addImport|].
  assert (Hfile : forall n,
    sim R (setNode ("file:" ++ relativePathOf relative root (sf_path sf)) n
           (_addFolderNodes add1 (relativePathOf relative root (sf_path sf)) s1))
        (setNode ("file:" ++ relativePathOf relative root (sf_path sf)) n
           (_addFolderNodes add2 (relativePathOf relative root (sf_path sf)) s2))).
  { intros n. apply sim_setNode. now apply sim_addFolderNodesLoop. }
  destruct (negb _); auto with sim.
Qed.

Lemma sim_pass1 root sfs :
  forall s1 s2,
    sim R s1 s2 ->
    sim R (pass1 relative add1 root sfs s1) (pass1 relative add2 root sfs s2).
Proof. apply sim_forEach. intros. now apply sim_pass1File. Qed.

Lemma sim_traceDeclaration root caller declName declFile :
  forall s1 s2,
    sim R s1 s2 ->
    sim R (traceDeclaration relative add1 root caller declName declFile s1)
        (traceDeclaration relative add2 root caller declName declFile s2).
Proof.
  intros s1 s2 Hs. unfold traceDeclaration.
  assert (Hn : nodesMap s1 = nodesMap s2) by apply Hs. rewrite Hn.
  destruct (Js.includes _ _); [assumption|].
  destruct (firstCandidate _ _ _); auto with sim.
Qed.

Lemma sim_traceCall root fid rel call :
  forall s1 s2,
    sim R s1 s2 ->
    sim R (traceCall relative add1 root fid rel call s1)
        (traceCall relative add2 root fid rel call s2).
Proof.
  intros s1 s2 Hs. unfold traceCall, tier2.
  assert (Hn : nodesMap s1 = nodesMap s2) by apply Hs.
  assert (Hr : fnRegistry s1 = fnRegistry s2) by apply Hs.
  rewrite Hn, Hr.
  destruct (_findContainingFunctionId _ _ _ _); [|assumption].
  destruct (negb _); [assumption|].
  destruct (calledNameOf _ _); [|assumption].
  destruct (negb _); [assumption|].
  destruct (tier1 _ _ _ _); [auto with sim|].
  destruct (call_symbol call); [|assumption].
  apply sim_forEach; [|assumption].
  intros. now apply sim_traceDeclaration.
Qed.

Lemma sim_pass2 root sfs :
  forall s1 s2,
    sim R s1 s2 ->
    sim R (pass2 relative add1 root sfs s1) (pass2 relative add2 root sfs s2).
Proof.
  apply sim_forEach. intros sf s1 s2 Hs. unfold pass2File.
  destruct (outsideRoot _); [assumption|].
  unfold _traceCallEdges. apply sim_forEach; [|assumption].
  intros. now apply sim_traceCall.
Qed.

Lemma sim_runPasses root added i1 i2 :
  R i1 i2 ->
  sim R (runPasses relative add1 root added i1)
      (runPasses relative add2 root added i2).
Proof.
  intros Hi. unfold runPasses. apply sim_pass2, sim_pass1.
  repeat split; simpl; auto.
Qed.

End Simulation.

(** ** The accumulated edges are the replay of the recorded calls *)

Lemma replay_snoc log f t r :
  replay (recordEdge f t r log) = addEdge f t r (replay log).
Proof. unfold replay, recordEdge. now rewrite fold_left_app. Qed.

Lemma finalState_sim relative root added :
  sim (fun log m => m = replay log)
      (runPasses relative recordEdge root added [])
      (finalState relative root added).
Proof.
  unfold finalState. apply sim_runPasses; [|reflexivity].
  intros f t r log m ->. symmetry. apply replay_snoc.
Qed.

Lemma finalState_edges relative root added :
  edgesAcc (finalState relative root added)
  = replay (edgeCalls relative root added).
Proof. apply (finalState_sim relative root added). Qed.

Lemma finalState_nodes relative root added :
  nodesMap (finalState relative root added)
  = nodesMap (runPasses relative recordEdge root added []).
Proof. symmetry. apply (finalState_sim relative root added). Qed.

(** ** Pass 2 reads the node map and the registry and only adds edges *)

Section Pass2.

Variable relative : string -> string -> string.
Context {E : Type}.
Variable addE : string -> string -> RelationType -> E -> E.

Lemma sameTables_refl (s : EngineState E) : sameTables s s.
Proof. now repeat split. Qed.

Lemma sameTables_trans (s1 s2 s3 : EngineState E) :
  sameTables s1 s2 -> sameTables s2 s3 -> sameTables s1 s3.
Proof.
  intros (A1 & A2 & A3) (B1 & B2 & B3).
  repeat split; congruence.
Qed.

Lemma sameTables_withEdge f t r s : sameTables s (withEdge addE f t r s).
Proof. now repeat split. Qed.

Lemma sameTables_forEach {A : Type} (f : A -> EngineState E -> EngineState E) :
  (forall x s, sameTables s (f x s)) ->
  forall xs s, sameTables s (forEach f xs s).
Proof.
  intros Hstep xs s.
  apply (forEach_preserves (fun s' : EngineState E => sameTables s s')).
  - intros x s' Hs. eapply sameTables_trans; [exact Hs | apply Hstep].
  - apply sameTables_refl.
Qed.

Lemma sameTables_traceDeclaration root caller declName declFile s :
  sameTables s (traceDeclaration relative addE root caller declName declFile s).
Proof.
  unfold traceDeclaration. destruct (Js.includes _ _); [apply sameTables_refl|].
  destruct (firstCandidate _ _ _);
    [apply sameTables_withEdge | apply sameTables_refl].
Qed.

Lemma sameTables_traceCall root fid rel call s :
  sameTables s (traceCall relative addE root fid rel call s).
Proof.
  unfold traceCall, tier2.
  destruct (_findContainingFunctionId _ _ _ _); [|apply sameTables_refl].
  destruct (negb _); [apply sameTables_refl|].
  destruct (calledNameOf _ _); [|apply sameTables_refl].
  destruct (negb _); [apply sameTables_refl|].
  destruct (tier1 _ _ _ _); [apply sameTables_withEdge|].
  destruct (call_symbol call); [|apply sameTables_refl].
  apply sameTables_forEach. intros. apply sameTables_traceDeclaration.
Qed.

Lemma sameTables_pass2 root sfs s :
  sameTables s (pass2 relative addE root sfs s).
Proof.
  apply sameTables_forEach. intros sf s0. unfold pass2File.
  destruct (outsideRoot _); [apply sameTables_refl|].
  apply sameTables_forEach. intros. apply sameTables_traceCall.
Qed.

End Pass2.

(** ** What the caller search and the two tiers return *)

Lemma findContainingFunctionId_spec chain fid rel (N : JsMap.t ProjectNode) id :
  _findContainingFunctionId chain fid rel N = Some id ->
  JsMap.has id N = true /\ callerIdOf fid id.
Proof.
  induction chain as [|current parents IH]; simpl; [discriminate|].
  destruct current as [[name|]| clsName methodName | | name |]; try exact IH.
  - destruct (Js.truthy name && JsMap.has (fid ++ ":fn:" ++ name) N) eqn:Hc;
      [|exact IH].
    apply andb_prop in Hc as [_ Hh]. intros [= <-].
    split; [exact Hh | left; now exists name].
  - destruct (JsMap.has (fid ++ ":cls:" ++ Js.template clsName
                            ++ ":method:" ++ methodName) N) eqn:Hh;
      [|exact IH].
    intros [= <-]. split; [exact Hh|].
    right. now exists (Js.template clsName), methodName.
  - destruct (Js.truthy name && JsMap.has (fid ++ ":fn:" ++ name) N) eqn:Hc;
      [|exact IH].
    apply andb_prop in Hc as [_ Hh]. intros [= <-].
    split; [exact Hh | left; now exists name].
Qed.

Lemma tier1_spec (Rg : JsMap.t string) (N : JsMap.t ProjectNode) caller name t :
  tier1 Rg N caller name = Some t ->
  JsMap.get name Rg = Some t /\ t <> caller /\ JsMap.has t N = true.
Proof.
  unfold tier1. destruct (JsMap.get name Rg) as [targetId|]; [|discriminate].
  destruct (Js.truthy targetId && negb (String.eqb targetId caller)
            && JsMap.has targetId N) eqn:Hc; [|discriminate].
  apply andb_prop in Hc as [Hc Hh]. apply andb_prop in Hc as [_ Hne].
  intros [= <-]. repeat split; [|exact Hh].
  apply negb_true_iff in Hne. now apply String.eqb_neq.
Qed.

Lemma firstCandidate_spec candidates (N : JsMap.t ProjectNode) caller c :
  firstCandidate candidates N caller = Some c ->
  In c candidates /\ c <> caller /\ JsMap.has c N = true.
Proof.
  induction candidates as [|c0 rest IH]; simpl; [discriminate|].
  destruct (JsMap.has c0 N && negb (String.eqb c0 caller)) eqn:Hc.
  - apply andb_prop in Hc as [Hh Hne]. intros [= <-].
    apply negb_true_iff in Hne. apply String.eqb_neq in Hne. auto.
  - intros H. destruct (IH H) as (? & ? & ?). auto.
Qed.

(** ** Every call of [addEdge] in pass 2 joins a caller to another
       live node *)

Section Pass2Log.

Variable relative : string -> string -> string.
Variable N : JsMap.t ProjectNode.

Abbreviation okLog := (okLog N).

Lemma okLog_callEdge f t s rel :
  okLog s -> f <> t -> JsMap.has f N = true -> JsMap.has t N = true ->
  callerIdOf ("file:" ++ rel) f ->
  okLog (withEdge recordEdge f t calls s).
Proof.
  intros [Hn Hl] Hne Hf Ht Hc. split; [exact Hn|].
  simpl. unfold recordEdge. apply Forall_app. split; [exact Hl|].
  constructor; [|constructor].
  simpl. repeat split; auto. now exists rel.
Qed.

Lemma okLog_traceDeclaration root caller declName rel declFile s :
  JsMap.has caller N = true -> callerIdOf ("file:" ++ rel) caller ->
  okLog s ->
  okLog (traceDeclaration relative recordEdge root caller declName declFile s).
Proof.
  intros Hh Hc Hs. unfold traceDeclaration.
  destruct (Js.includes _ _); [exact Hs|].
  destruct (firstCandidate _ _ _) as [c|] eqn:Hfc; [|exact Hs].
  assert (Hn : nodesMap s = N) by apply Hs. rewrite Hn in Hfc.
  apply firstCandidate_spec in Hfc as (_ & Hne & Hhc).
  apply okLog_callEdge with (rel := rel); auto.
Qed.

Lemma okLog_traceCall root rel0 rel call s :
  okLog s ->
  okLog (traceCall relative recordEdge root ("file:" ++ rel0) rel call s).
Proof.
  intros Hs. unfold traceCall, tier2.
  assert (Hn : nodesMap s = N) by apply Hs. rewrite Hn.
  destruct (_findContainingFunctionId _ _ _ _) as [caller|] eqn:Hfind;
    [|exact Hs].
  apply findContainingFunctionId_spec in Hfind as [Hh Hc].
  destruct (negb _); [exact Hs|].
  destruct (calledNameOf _ _) as [name|]; [|exact Hs].
  destruct (negb _); [exact Hs|].
  destruct (tier1 _ _ _ _) as [t|] eqn:Ht.
  - apply tier1_spec in Ht as (_ & Hne & Hht).
    apply okLog_callEdge with (rel := rel0); auto.
  - destruct (call_symbol call) as [symbol|]; [|exact Hs].
    apply forEach_preserves; [|exact Hs].
    intros declFile s0 Hs0.
    now apply okLog_traceDeclaration with (rel := rel0).
Qed.

Lemma okLog_pass2 root sfs s :
  okLog s -> okLog (pass2 relative recordEdge root sfs s).
Proof.
  apply forEach_preserves. intros sf s0 Hs0. unfold pass2File.
  destruct (outsideRoot _); [exact Hs0|].
  unfold _traceCallEdges. apply forEach_preserves; [|exact Hs0].
  intros call s1 Hs1. now apply okLog_traceCall.
Qed.

End Pass2Log.

(** ** Pass 1 stores well-shaped nodes and adds no [calls] edge *)

Section Pass1Invariant.

Variable relative : string -> string -> string.
Variables P Q : string -> Prop.

Abbreviation inv := (inv1 P Q).

Lemma inv_setNode id n s :
  node_id n = id -> nodeShape P Q n -> inv s -> inv (setNode id n s).
Proof.
  intros Hid Hshape [Hn Hl]. split; [|exact Hl].
  intros k n' Hin. simpl in Hin.
  apply JsMapFacts.in_set in Hin as [[-> ->]|Hin]; [auto | now apply Hn].
Qed.

Lemma inv_withEdge f t r s :
  r <> calls -> inv s -> inv (withEdge recordEdge f t r s).
Proof.
  intros Hr [Hn Hl]. split; [exact Hn|].
  simpl. unfold recordEdge. apply Forall_app. split; [exact Hl|].
  now repeat constructor.
Qed.

Lemma inv_register k id s : inv s -> inv (register k id s).
Proof. intros [Hn Hl]. now split. Qed.

Lemma inv_markFolder d s : inv s -> inv (markFolder d s).
Proof. intros [Hn Hl]. now split. Qed.

Lemma inv_addFolderNode d s : inv s -> inv (addFolderNode recordEdge d s).
Proof.
  intros Hs. unfold addFolderNode.
  destruct (Js.mem d (folderPaths s)); [exact Hs|].
  assert (H2 : inv (setNode ("folder:" ++ d) (folderNode d) (markFolder d s))).
  { apply inv_setNode; [reflexivity | | now apply inv_markFolder].
    unfold nodeShape. simpl. auto. }
  destruct (negb _ && negb _); [|exact H2].
  apply inv_withEdge; [discriminate | exact H2].
Qed.

Lemma inv_addFolderNodes rel s :
  inv s -> inv (_addFolderNodes recordEdge rel s).
Proof.
  unfold _addFolderNodes.
  generalize (Js.replaceBackslashes (Path.dirname rel)) as d.
  generalize (S (String.length rel)) as fuel. intros fuel. revert s.
  induction fuel as [|fuel IH]; simpl; intros s d Hs; [exact Hs|].
  destruct (aboveRoot d); [|exact Hs].
  apply IH. now apply inv_addFolderNode.
Qed.

Lemma inv_registerFunction fn idx rel s :
  P rel -> inv s ->
  inv (_registerFunction recordEdge fn idx ("file:" ++ rel) rel s).
Proof.
  intros HP Hs. unfold _registerFunction.
  apply inv_withEdge; [discriminate|].
  apply inv_setNode; [reflexivity | | now apply inv_register].
  unfold nodeShape. simpl. auto.
Qed.

Lemma inv_addImport root rel imp s :
  inv s -> inv (addImport relative recordEdge root ("file:" ++ rel) imp s).
Proof.
  intros Hs. unfold addImport. destruct (imp_resolved imp); [|exact Hs].
  destruct (negb _); [|exact Hs].
  apply inv_withEdge; [discriminate | exact Hs].
Qed.

Lemma inv_registerVariable rel v s :
  P rel -> inv s ->
  inv (registerVariable recordEdge ("file:" ++ rel) rel v s).
Proof.
  intros HP Hs. unfold registerVariable.
  destruct (vd_init v) as [init|]; [|exact Hs].
  destruct (isFunctionInitializer init); [|exact Hs].
  destruct (negb _); [|exact Hs].
  apply inv_withEdge; [discriminate|].
  apply inv_setNode; [reflexivity | | now apply inv_register].
  unfold nodeShape. simpl. auto.
Qed.

Lemma inv_registerMethod name rel m s :
  P rel -> Q name -> inv s ->
  inv (registerMethod recordEdge name (("file:" ++ rel) ++ ":cls:" ++ name)
         rel m s).
Proof.
  intros HP HQ Hs. unfold registerMethod.
  apply inv_withEdge; [discriminate|].
  apply inv_setNode; [reflexivity | | now apply inv_register].
  unfold nodeShape. simpl. split; [exact HP|].
  right. exists name. auto.
Qed.

Lemma inv_registerClass rel cls idx s :
  P rel -> Q (classNameOf cls idx) -> inv s ->
  inv (registerClass recordEdge ("file:" ++ rel) rel cls idx s).
Proof.
  intros HP HQ Hs. unfold registerClass.
  apply forEach_preserves.
  - intros m s0 Hs0. now apply inv_registerMethod.
  - apply inv_withEdge; [discriminate|].
    apply inv_setNode; [reflexivity | | now apply inv_register].
    unfold nodeShape. simpl. auto.
Qed.

Lemma inv_pass1File root sf s :
  fileOk relative root P Q sf -> inv s ->
  inv (pass1File relative recordEdge root sf s).
Proof.
  intros [HP HQ] Hs. unfold pass1File.
  destruct (outsideRoot _); [exact Hs|].
  set (rel := relativePathOf relative root (sf_path sf)) in *.
  apply forEachIdx_invariant.
  { intros cls idx s0 Hnth Hs0. apply inv_registerClass; eauto. }
  apply forEach_preserves.
  { intros v s0 Hs0. now apply inv_registerVariable. }
  apply forEachIdx_invariant.
  { intros fn idx s0 _ Hs0. now apply inv_registerFunction. }
  apply forEach_preserves.
  { intros imp s0 Hs0. now apply inv_addImport. }
  assert (H2 : inv (setNode ("file:" ++ rel)
                      (fileNode ("file:" ++ rel) rel
                         (Js.replaceBackslashes (Path.dirname rel)) sf)
                      (_addFolderNodes recordEdge rel s))).
  { apply inv_setNode; [reflexivity | | now apply inv_addFolderNodes].
    unfold nodeShape. simpl. auto. }
  destruct (negb _); [|exact H2].
  apply inv_withEdge; [discriminate | exact H2].
Qed.

Lemma inv_pass1 root sfs s :
  Forall (fileOk relative root P Q) sfs -> inv s ->
  inv (pass1 relative recordEdge root sfs s).
Proof.
  intros Hok Hs. unfold pass1.
  apply (forEach_invariant inv (fileOk relative root P Q)); auto.
  intros sf s0 Hsf Hs0. now apply inv_pass1File.
Qed.

End Pass1Invariant.

(** ** Strings *)

Lemma chars_app a b :
  list_ascii_of_string (a ++ b)
  = (list_ascii_of_string a ++ list_ascii_of_string b)%list.
Proof. induction a as [|c a IH]; simpl; [reflexivity | now rewrite <- IH]. Qed.

Lemma append_inj_l a x y : a ++ x = a ++ y -> x = y.
Proof.
  induction a as [|c a IH]; intros H; [exact H|].
  apply IH. now injection H.
Qed.

Lemma append_assoc a b c : (a ++ b) ++ c = a ++ b ++ c.
Proof.
  induction a as [|x a IH]; [reflexivity|].
  change (String x ((a ++ b) ++ c) = String x (a ++ b ++ c)). now rewrite IH.
Qed.

Lemma prefix_append a b : String.prefix a (a ++ b) = true.
Proof.
  induction a as [|c a IH]; [now destruct b|].
  change (String.prefix (String c a) (String c (a ++ b)) = true).
  simpl. destruct (ascii_dec c c); [exact IH | congruence].
Qed.

Lemma RelationType_eqb_eq a b : RelationType_eqb a b = true <-> a = b.
Proof. destruct a, b; simpl; split; auto; discriminate. Qed.

Lemma EdgeCall_eqb_eq (a b : EdgeCall) : EdgeCall_eqb a b = true <-> a = b.
Proof.
  destruct a as [[f1 t1] r1], b as [[f2 t2] r2]. simpl.
  rewrite !andb_true_iff, !String.eqb_eq, RelationType_eqb_eq.
  split; [intros [[-> ->] ->]; reflexivity | intros [= -> -> ->]; auto].
Qed.

(** The relation can be read off the end of the key. *)
Lemma edgeKey_relation f t r f' t' r' :
  edgeKey f t r = edgeKey f' t' r' -> r = r'.
Proof.
  intros H. unfold edgeKey in H.
  apply (f_equal (fun s => rev (list_ascii_of_string s))) in H.
  rewrite !chars_app, !rev_app_distr in H.
  destruct r, r'; try reflexivity; simpl in H; discriminate H.
Qed.

Lemma arrowFree_tail c s : arrowFree (String c s) = true -> arrowFree s = true.
Proof.
  unfold arrowFree. cbn [Js.includes].
  destruct (String.prefix "→" (String c s)); [discriminate | auto].
Qed.

Lemma arrowFree_not_arrow s : arrowFree ("→" ++ s) = false.
Proof.
  unfold arrowFree.
  change ("→" ++ s) with (String "226" (String "134" (String "146" s))).
  cbn [Js.includes].
  change (String "226" (String "134" (String "146" s))) with ("→" ++ s).
  now rewrite prefix_append.
Qed.

(** Two arrow-free strings followed by the separator: the first separator
    of the whole marks the end of both. *)
Lemma arrow_cut f x f' x' :
  arrowFree f = true -> arrowFree f' = true ->
  f ++ "→" ++ x = f' ++ "→" ++ x' -> f = f' /\ x = x'.
Proof.
  revert f'. induction f as [|c f IH]; intros f' Hf Hf' H.
  - destruct f' as [|c1 [|c2 [|c3 f']]].
    + split; [reflexivity|]. now apply (append_inj_l "→").
    + discriminate H.
    + discriminate H.
    + injection H as <- <- <- _.
      pose proof (arrowFree_not_arrow f') as Hn.
      change ("→" ++ f')
        with (String "226" (String "134" (String "146" f'))) in Hn.
      congruence.
  - destruct f' as [|c' f'].
    + exfalso. destruct f as [|c2 [|c3 f]].
      * discriminate H.
      * discriminate H.
      * injection H as -> -> -> _.
        pose proof (arrowFree_not_arrow f) as Hn.
        change ("→" ++ f)
          with (String "226" (String "134" (String "146" f))) in Hn.
        congruence.
    + injection H as <- H. apply arrowFree_tail in Hf, Hf'.
      destruct (IH f' Hf Hf' H) as [-> ->]. auto.
Qed.

(** Ids without the separator have keys of their own. *)
Lemma edgeKey_arrowFree f t r a b r' :
  arrowFree f = true -> arrowFree t = true ->
  arrowFree a = true -> arrowFree b = true ->
  edgeKey f t r = edgeKey a b r' -> f = a /\ t = b /\ r = r'.
Proof.
  intros Hf Ht Ha Hb H. pose proof (edgeKey_relation _ _ _ _ _ _ H) as Hr.
  unfold edgeKey in H.
  apply arrow_cut in H as [-> H]; auto.
  apply arrow_cut in H as [-> _]; auto.
Qed.

(** ** [addEdge] on its own *)

Lemma get_addEdge_other f t r (m : JsMap.t ProjectEdge) k :
  k <> edgeKey f t r -> JsMap.get k (addEdge f t r m) = JsMap.get k m.
Proof.
  intros Hne. unfold addEdge.
  destruct (JsMap.get (edgeKey f t r) m) as [e|].
  - destruct (RelationType_eqb r calls); [|reflexivity].
    now apply JsMapFacts.get_set_other.
  - now apply JsMapFacts.get_set_other.
Qed.

Lemma edgeEntryOk_mono log log' k e :
  edgeEntryOk log k e -> edgeEntryOk (log ++ log') k e.
Proof.
  intros (Hk & Hin & Hn). repeat split; auto. apply in_or_app. now left.
Qed.

Lemma edgesInv_addEdge log m f t r :
  edgesInv log m -> edgesInv (log ++ [(f, t, r)]) (addEdge f t r m).
Proof.
  intros [Hnd Hall]. unfold addEdge.
  destruct (JsMap.get (edgeKey f t r) m) as [e|] eqn:Hget.
  - apply JsMapFacts.get_in in Hget. pose proof (Hall _ _ Hget) as He.
    destruct (RelationType_eqb r calls) eqn:Hr.
    + apply RelationType_eqb_eq in Hr. subst r.
      split; [now apply JsMapFacts.NoDup_keys_set|].
      intros k e' Hin. apply JsMapFacts.in_set in Hin as [[-> ->]|Hin].
      * destruct He as (Hk & Hlog & n & Hc & Hn & _).
        repeat split; simpl; [exact Hk | apply in_or_app; now left |].
        exists (callCountOr1 (edge_callCount e) + 1).
        repeat split; [lia|].
        intros Hrel. apply edgeKey_relation in Hk. congruence.
      * now apply edgeEntryOk_mono, Hall.
    + split; [exact Hnd|]. intros k e' Hin. now apply edgeEntryOk_mono, Hall.
  - split; [now apply JsMapFacts.NoDup_keys_set|].
    intros k e' Hin. apply JsMapFacts.in_set in Hin as [[-> ->]|Hin].
    + repeat split; simpl; [apply in_or_app; right; now left|].
      exists 1. auto.
    + now apply edgeEntryOk_mono, Hall.
Qed.

Lemma replay_app log c : replay (log ++ [c]) = applyEdgeCall (replay log) c.
Proof. unfold replay. now rewrite fold_left_app. Qed.

Lemma replay_inv log : edgesInv log (replay log).
Proof.
  induction log as [|[[f t] r] log IH] using rev_ind.
  - split; [constructor | intros k e []].
  - rewrite replay_app. now apply edgesInv_addEdge.
Qed.

Lemma observed_app f t r log log' :
  observed f t r (log ++ log') = observed f t r log + observed f t r log'.
Proof. unfold observed. now rewrite filter_app, length_app. Qed.

(** The entry of a key that no other recorded call renders to. *)
Lemma replay_count a b log :
  (forall f t r, In (f, t, r) log ->
                 edgeKey f t r = edgeKey a b calls -> (f, t, r) = (a, b, calls)) ->
  JsMap.get (edgeKey a b calls) (replay log)
  = match observed a b calls log with
    | 0 => None
    | S n => Some (mkEdge a b calls (Some (S n)))
    end.
Proof.
  induction log as [|[[f t] r] log IH] using rev_ind; intros Huniq.
  - reflexivity.
  - rewrite replay_app, observed_app. simpl applyEdgeCall.
    assert (IH' := IH (fun f0 t0 r0 Hin =>
                         Huniq f0 t0 r0 (in_or_app _ _ _ (or_introl Hin)))).
    clear IH.
    destruct (string_dec (edgeKey f t r) (edgeKey a b calls)) as [Hk|Hk].
    + assert (Hc : (f, t, r) = (a, b, calls)).
      { apply Huniq; [apply in_or_app; right; now left | exact Hk]. }
      injection Hc as -> -> ->.
      assert (H1 : observed a b calls [(a, b, calls)] = 1).
      { unfold observed. simpl. now rewrite !String.eqb_refl. }
      rewrite H1. unfold addEdge. rewrite IH'.
      destruct (observed a b calls log) as [|n]; simpl.
      * now rewrite JsMapFacts.get_set_same.
      * rewrite JsMapFacts.get_set_same. repeat f_equal; try lia.
    + rewrite get_addEdge_other by congruence. rewrite IH'.
      assert (H0 : observed a b calls [(f, t, r)] = 0).
      { unfold observed. cbn [filter].
        destruct (EdgeCall_eqb (a, b, calls) (f, t, r)) eqn:Heq; [|reflexivity].
        exfalso. apply Hk. apply EdgeCall_eqb_eq in Heq.
        now injection Heq as <- <- <-. }
      rewrite H0. now rewrite Nat.add_0_r.
Qed.

(** ** The two passes together *)

Lemma edgeCalls_split relative root added :
  edgeCalls relative root added
  = (structureEdgeCalls relative root added
       ++ callObservations relative root added)%list.
Proof.
  unfold edgeCalls, structureEdgeCalls, callObservations, runPasses.
  set (st1 := pass1 relative recordEdge root (getSourceFiles added)
                (mkState JsMap.empty [] JsMap.empty [])).
  apply (sim_pass2 relative recordEdge recordEdge
           (fun l1 l2 => l1 = (edgesAcc st1 ++ l2)%list)).
  - intros f t r l1 l2 ->. unfold recordEdge. now rewrite app_assoc.
  - repeat split; simpl. now rewrite app_nil_r.
Qed.

Lemma finalState_nodes_pass1 relative root added :
  nodesMap (finalState relative root added)
  = nodesMap (pass1 relative recordEdge root (getSourceFiles added)
                (mkState JsMap.empty [] JsMap.empty [])).
Proof.
  rewrite finalState_nodes. unfold runPasses.
  apply (sameTables_pass2 relative recordEdge).
Qed.

Lemma passes_facts relative root added (P Q : string -> Prop) :
  Forall (fileOk relative root P Q) (getSourceFiles added) ->
  nodesInv P Q (nodesMap (finalState relative root added))
  /\ Forall structural (structureEdgeCalls relative root added)
  /\ Forall (callEdgeOk (nodesMap (finalState relative root added)))
            (callObservations relative root added).
Proof.
  intros Hok. rewrite finalState_nodes_pass1.
  unfold structureEdgeCalls, callObservations.
  set (st1 := pass1 relative recordEdge root (getSourceFiles added)
                (mkState JsMap.empty [] JsMap.empty [])).
  assert (H1 : inv1 P Q st1).
  { apply inv_pass1; [exact Hok|]. split; [intros k n []|constructor]. }
  destruct H1 as [Hn Hl]. split; [exact Hn|]. split; [exact Hl|].
  apply (okLog_pass2 relative (nodesMap st1)).
  split; [reflexivity | constructor].
Qed.

Lemma fileOk_trivial relative root sfs :
  Forall (fileOk relative root (fun _ => True) (fun _ => True)) sfs.
Proof. apply Forall_forall. intros sf _. split; auto. Qed.

Lemma mem_In x xs : Js.mem x xs = true <-> In x xs.
Proof.
  unfold Js.mem. rewrite existsb_exists. split.
  - intros [y [Hin Heq]]. apply String.eqb_eq in Heq. now subst.
  - intros Hin. exists x. split; [exact Hin | apply String.eqb_refl].
Qed.

(** A key of the node map is the id of one of the returned nodes. *)
Lemma has_node_id (P Q : string -> Prop) (N : JsMap.t ProjectNode) id :
  nodesInv P Q N -> JsMap.has id N = true ->
  In id (map node_id (JsMap.values N)).
Proof.
  intros Hinv Hhas. apply JsMapFacts.has_in in Hhas as [n Hin].
  destruct (Hinv _ _ Hin) as [-> _].
  apply in_map. apply JsMapFacts.in_values. eauto.
Qed.

Lemma returned_edge_ends relative root added e :
  In e (edges (analyze relative root added)) ->
  In (edge_from e) (map node_id (nodes (analyze relative root added)))
  /\ In (edge_to e) (map node_id (nodes (analyze relative root added))).
Proof.
  unfold analyze, assemble. simpl.
  rewrite filter_In, andb_true_iff, !mem_In. tauto.
Qed.

(** ** The two-file project [a.ts], [b.ts] *)

Example two_file_project_nodes :
  map node_id
      (nodes (analyze PosixRelative.relative "/repo" [helperFile; rootMainFile]))
  = ["file:a.ts"; "file:a.ts:fn:helper"; "file:b.ts"; "file:b.ts:fn:main"].
Proof. vm_compute. reflexivity. Qed.

Example two_file_project_edges :
  edges (analyze PosixRelative.relative "/repo" [helperFile; rootMainFile])
  = [mkEdge "file:a.ts" "file:a.ts:fn:helper" contains (Some 1);
     mkEdge "file:b.ts" "file:a.ts" imports (Some 1);
     mkEdge "file:b.ts" "file:b.ts:fn:main" contains (Some 1);
     mkEdge "file:b.ts:fn:main" "file:a.ts:fn:helper" calls (Some 2)].
Proof. vm_compute. reflexivity. Qed.

(* ================================================================= *)
(** * The claims *)

(** C1 — Edge referential integrity.  [analyze] returns exactly those
    accumulated edges whose [from] and [to] are both ids of returned
    nodes: every returned edge has both ends among the ids of [nodes], and
    an accumulated edge with a dead end is dropped by the filter (the
    model is a total function, nothing is raised). *)
Theorem edge_referential_integrity relative root added :
  let g := analyze relative root added in
  let accumulated := JsMap.values (edgesAcc (finalState relative root added)) in
  let nodeIds := map node_id (nodes g) in
  forall e,
    In e (edges g)
    <-> In e accumulated /\ In (edge_from e) nodeIds /\ In (edge_to e) nodeIds.
Proof.
  intros g accumulated nodeIds e. unfold g, analyze, assemble. simpl.
  rewrite filter_In, andb_true_iff, !mem_In. reflexivity.
Qed.

(** ** Where a returned edge comes from *)

Lemma returned_edge_entry relative root added e :
  In e (edges (analyze relative root added)) ->
  exists k, edgeEntryOk (edgeCalls relative root added) k e.
Proof.
  unfold analyze, assemble. simpl. rewrite filter_In. intros [Hin _].
  rewrite finalState_edges in Hin.
  apply JsMapFacts.in_values in Hin as [k Hin].
  exists k. now apply (replay_inv (edgeCalls relative root added)).
Qed.

Lemma returned_calls_edge_observed relative root added e :
  In e (edges (analyze relative root added)) ->
  edge_relation e = calls ->
  In (edge_from e, edge_to e, calls) (callObservations relative root added)
  /\ callEdgeOk (nodesMap (finalState relative root added))
                (edge_from e, edge_to e, calls).
Proof.
  intros Hin Hrel.
  destruct (returned_edge_entry _ _ _ _ Hin) as [k (_ & Hlog & _)].
  rewrite Hrel, edgeCalls_split in Hlog.
  destruct (passes_facts relative root added _ _
              (fileOk_trivial relative root _)) as (_ & Hs & Hc).
  apply in_app_or in Hlog as [Hlog|Hlog].
  - rewrite Forall_forall in Hs. now apply Hs in Hlog.
  - split; [exact Hlog|]. rewrite Forall_forall in Hc. now apply Hc.
Qed.

(** C3 (as amended) — every returned edge carries a [callCount] of at
    least 1; on an edge whose relation is not [calls] it is exactly 1,
    because only a repeated [calls] observation increments it. *)
Theorem callCount_on_every_edge relative root added :
  Forall (fun e => exists n, edge_callCount e = Some n /\ 1 <= n
                             /\ (edge_relation e <> calls -> n = 1))
         (edges (analyze relative root added)).
Proof.
  apply Forall_forall. intros e Hin.
  destruct (returned_edge_entry _ _ _ _ Hin) as [k (_ & _ & Hn)]. exact Hn.
Qed.

(** C4 — Self-call exclusion.  Neither tier resolves a callee to the
    caller's own id, and no returned [calls] edge has [from] equal to
    [to]. *)
Theorem no_self_call_edge relative root added :
  (forall registry nodesMap callerFnId calledName,
      tier1 registry nodesMap callerFnId calledName <> Some callerFnId)
  /\ (forall candidates nodesMap callerFnId,
         firstCandidate candidates nodesMap callerFnId <> Some callerFnId)
  /\ Forall (fun e => edge_relation e = calls -> edge_from e <> edge_to e)
            (edges (analyze relative root added)).
Proof.
  split; [|split].
  - intros Rg N caller name H. apply tier1_spec in H as (_ & Hne & _). easy.
  - intros cs N caller H. apply firstCandidate_spec in H as (_ & Hne & _). easy.
  - apply Forall_forall. intros e Hin Hrel.
    destruct (returned_calls_edge_observed _ _ _ _ Hin Hrel)
      as [_ (_ & Hne & _)].
    exact Hne.
Qed.

(** ** Exactly one entry per key *)

Lemma filter_none {A : Type} (p : A -> bool) (l : list A) :
  (forall x, In x l -> p x = false) -> filter p l = [].
Proof.
  induction l as [|x l IH]; simpl; intros H; [reflexivity|].
  rewrite (H x) by auto. apply IH. auto.
Qed.

Lemma filter_unique_key {V : Type} (m : JsMap.t V) K (p : V -> bool) v0 :
  NoDup (JsMap.keys m) ->
  (forall k v, In (k, v) m -> (p v = true <-> k = K)) ->
  JsMap.get K m = Some v0 ->
  filter p (JsMap.values m) = [v0].
Proof.
  induction m as [|[k v] rest IH]; simpl; intros Hnd Hp Hget; [discriminate|].
  inversion Hnd as [|? ? Hnotin Hrest]; subst.
  destruct (String.eqb K k) eqn:HK.
  - apply String.eqb_eq in HK. subst k. injection Hget as ->.
    assert (Hpv : p v0 = true) by (apply (Hp K v0); auto).
    rewrite Hpv. apply f_equal.
    apply filter_none. intros v' Hin.
    apply JsMapFacts.in_values in Hin as [k' Hin].
    destruct (p v') eqn:Hpv'; [|reflexivity].
    exfalso. apply Hnotin.
    assert (k' = K) by (apply (Hp k' v'); auto). subst k'.
    unfold JsMap.keys. apply in_map_iff. now exists (K, v').
  - apply String.eqb_neq in HK.
    destruct (p v) eqn:Hpv.
    + exfalso. apply HK. symmetry. apply (Hp k v); auto.
    + apply IH; auto; intros k' v' Hin; apply Hp; auto.
Qed.

Lemma joins_eq a b r e :
  joins a b r e = true <-> (edge_from e, edge_to e, edge_relation e) = (a, b, r).
Proof.
  unfold joins. rewrite !andb_true_iff, !String.eqb_eq, RelationType_eqb_eq.
  split; [intros [[-> ->] ->]; reflexivity | intros [= -> -> ->]; auto].
Qed.

Lemma edgesBetween_replay log a b e0 :
  (forall f t r, In (f, t, r) log ->
                 edgeKey f t r = edgeKey a b calls -> (f, t, r) = (a, b, calls)) ->
  JsMap.get (edgeKey a b calls) (replay log) = Some e0 ->
  edgesBetween a b calls (JsMap.values (replay log)) = [e0].
Proof.
  intros Huniq Hget. destruct (replay_inv log) as [Hnd Hall].
  apply (filter_unique_key (replay log) (edgeKey a b calls) (joins a b calls));
    auto.
  intros k e Hin. destruct (Hall _ _ Hin) as (Hk & Hlog & _).
  rewrite joins_eq. split.
  - intros Heq. rewrite Hk. now injection Heq as -> -> ->.
  - intros ->. now apply Huniq.
Qed.

Lemma observed_structural a b log :
  Forall structural log -> observed a b calls log = 0.
Proof.
  unfold observed. induction log as [|c log IH]; intros Hs; [reflexivity|].
  inversion Hs as [|? ? Hc Hrest]; subst. cbn [filter].
  destruct (EdgeCall_eqb (a, b, calls) c) eqn:Heq; [|now apply IH].
  apply EdgeCall_eqb_eq in Heq. subst c. now elim Hc.
Qed.

Lemma observed_In f t r log : 0 < observed f t r log -> In (f, t, r) log.
Proof.
  unfold observed. induction log as [|c log IH]; [simpl; lia|].
  cbn [filter]. destruct (EdgeCall_eqb (f, t, r) c) eqn:Heq.
  - apply EdgeCall_eqb_eq in Heq. intros _. now left.
  - intros H. right. now apply IH.
Qed.

Lemma edgesBetween_filter a b r (p : ProjectEdge -> bool) es :
  edgesBetween a b r (filter p es) = filter p (edgesBetween a b r es).
Proof.
  unfold edgesBetween. induction es as [|e es IH]; simpl; [reflexivity|].
  destruct (p e) eqn:Hp; simpl;
    destruct (String.eqb (edge_from e) a && String.eqb (edge_to e) b
              && RelationType_eqb (edge_relation e) r) eqn:Hj;
    simpl; rewrite ?Hp, IH; reflexivity.
Qed.

(** A pair that pass 2 observed [S n] times, and whose key no other
    observed pair renders to, has exactly one [calls] edge in the returned
    graph, with [callCount = S n]. *)
Lemma calls_edge_counts_observations relative root added a b n :
  observed a b calls (callObservations relative root added) = S n ->
  (forall f t, In (f, t, calls) (callObservations relative root added) ->
               edgeKey f t calls = edgeKey a b calls -> f = a /\ t = b) ->
  edgesBetween a b calls (edges (analyze relative root added))
  = [mkEdge a b calls (Some (S n))].
Proof.
  intros Hobs Huniq.
  destruct (passes_facts relative root added _ _
              (fileOk_trivial relative root _)) as (Hnodes & Hs & Hc).
  rewrite Forall_forall in Hs, Hc.
  assert (Hkey : forall f t r,
             In (f, t, r) (edgeCalls relative root added) ->
             edgeKey f t r = edgeKey a b calls -> (f, t, r) = (a, b, calls)).
  { intros f t r Hin Hk. pose proof (edgeKey_relation _ _ _ _ _ _ Hk) as ->.
    rewrite edgeCalls_split in Hin. apply in_app_or in Hin as [Hin|Hin].
    - apply Hs in Hin. now elim Hin.
    - destruct (Huniq f t Hin Hk) as [-> ->]. reflexivity. }
  assert (Hcount : observed a b calls (edgeCalls relative root added) = S n).
  { rewrite edgeCalls_split, observed_app, observed_structural, Hobs; auto.
    apply Forall_forall. exact Hs. }
  pose proof (replay_count a b _ Hkey) as Hget. rewrite Hcount in Hget.
  assert (Hab : In (a, b, calls) (callObservations relative root added)).
  { apply observed_In. lia. }
  apply Hc in Hab. destruct Hab as (_ & _ & Ha & Hb & _).
  unfold analyze, assemble. cbn [edges].
  rewrite edgesBetween_filter, finalState_edges.
  rewrite (edgesBetween_replay _ a b _ Hkey Hget). cbn [filter].
  cbn [edge_from edge_to].
  rewrite (proj2 (mem_In a _) (has_node_id _ _ _ _ Hnodes Ha)).
  rewrite (proj2 (mem_In b _) (has_node_id _ _ _ _ Hnodes Hb)).
  reflexivity.
Qed.

(** ** Observations, call site by call site *)

Section CallSites.

Variable relative : string -> string -> string.
Variable root : string.

Lemma siteObservations_tables (s s' : EngineState (list EdgeCall)) site :
  sameTables s s' ->
  siteObservations relative root s' site = siteObservations relative root s site.
Proof.
  intros (Hn & Hr & Hf). destruct site as [[fid rel] call].
  unfold siteObservations. now rewrite Hn, Hr, Hf.
Qed.

Lemma traceCall_log fid rel call (s : EngineState (list EdgeCall)) :
  edgesAcc (traceCall relative recordEdge root fid rel call s)
  = (edgesAcc s ++ siteObservations relative root s (fid, rel, call))%list.
Proof.
  unfold siteObservations.
  apply (sim_traceCall relative recordEdge recordEdge
           (fun l1 l2 => l1 = (edgesAcc s ++ l2)%list)).
  - intros f t r l1 l2 ->. unfold recordEdge. now rewrite app_assoc.
  - repeat split; simpl. now rewrite app_nil_r.
Qed.

Lemma traceCallEdges_log sf rel (s : EngineState (list EdgeCall)) :
  edgesAcc (_traceCallEdges relative recordEdge root sf rel s)
  = (edgesAcc s
       ++ flat_map (siteObservations relative root s)
            (map (fun call => (("file:" ++ rel)%string, rel, call))
                 (sf_calls sf)))%list.
Proof.
  unfold _traceCallEdges, forEach.
  generalize (sf_calls sf) as calls. intros calls. revert s.
  induction calls as [|call calls IH]; intros s; simpl.
  - now rewrite app_nil_r.
  - rewrite IH, traceCall_log, <- app_assoc. do 2 f_equal.
    apply flat_map_ext. intros site.
    apply siteObservations_tables, sameTables_traceCall.
Qed.

Lemma pass2_log sfs :
  forall s : EngineState (list EdgeCall),
    edgesAcc (pass2 relative recordEdge root sfs s)
    = (edgesAcc s
         ++ flat_map (siteObservations relative root s)
              (flat_map (callSitesOf relative root) sfs))%list.
Proof.
  unfold pass2, forEach.
  induction sfs as [|sf sfs IH]; intros s; simpl.
  - now rewrite app_nil_r.
  - rewrite IH, flat_map_app, app_assoc.
    assert (Hsame : sameTables s (pass2File relative recordEdge root sf s)).
    { unfold pass2File. destruct (outsideRoot _); [apply sameTables_refl|].
      apply sameTables_forEach. intros. apply sameTables_traceCall. }
    f_equal.
    + unfold pass2File, callSitesOf.
      destruct (outsideRoot _); [now rewrite app_nil_r|].
      apply traceCallEdges_log.
    + apply flat_map_ext. intros site. now apply siteObservations_tables.
Qed.

Lemma callObservations_sites added :
  callObservations relative root added
  = flat_map (siteObservations relative root (pass1Tables relative root added))
             (callSites relative root added).
Proof.
  unfold callObservations, callSites. rewrite pass2_log. simpl.
  apply flat_map_ext. intros site.
  apply siteObservations_tables. now repeat split.
Qed.

End CallSites.

(** When no site yields the pair twice, the observations of the pair are
    as many as the sites that yield it. *)
Lemma observed_sites {A : Type} a b (obs : A -> list EdgeCall) sites :
  (forall site, In site sites -> observed a b calls (obs site) <= 1) ->
  observed a b calls (flat_map obs sites)
  = length (filter (fun site => Nat.ltb 0 (observed a b calls (obs site))) sites).
Proof.
  induction sites as [|site sites IH]; intros Hone; [reflexivity|].
  cbn [flat_map filter]. rewrite observed_app, IH by (intros; apply Hone; now right).
  pose proof (Hone site (or_introl eq_refl)) as H1.
  destruct (observed a b calls (obs site)) as [|[|k]] eqn:Hobs; simpl; lia.
Qed.

(** C2 (as amended) — let the pair [(a, b)] be yielded by [S n] call
    sites, none of which yields it twice (tier 2 adds the edge once for
    each declaration of the symbol that lands on [b]), and let no other
    observed pair render to the key of [(a, b)].  Then the returned graph
    has exactly one [calls] edge from [a] to [b], with [callCount = S n]:
    three such call sites give one edge with [callCount = 3]. *)
Theorem calls_edge_aggregates relative root added a b n :
  let tables := pass1Tables relative root added in
  let sites := callSites relative root added in
  length (filter (observesPair relative root added a b) sites) = S n ->
  (forall site, In site sites ->
                observed a b calls (siteObservations relative root tables site)
                <= 1) ->
  (forall f t, In (f, t, calls) (callObservations relative root added) ->
               edgeKey f t calls = edgeKey a b calls -> f = a /\ t = b) ->
  edgesBetween a b calls (edges (analyze relative root added))
  = [mkEdge a b calls (Some (S n))].
Proof.
  intros tables sites Hsites Hone Huniq.
  apply calls_edge_counts_observations; [|exact Huniq].
  rewrite callObservations_sites. fold tables. fold sites.
  rewrite observed_sites by exact Hone. exact Hsites.
Qed.

(** The two calls of [helper] from [main] give one edge counted twice. *)
Lemma calls_edge_aggregates_witness :
  edgesBetween "file:src/b.ts:fn:main" "file:a.ts:fn:helper" calls
    (edges (analyze PosixRelative.relative "/repo" helperProject))
  = [mkEdge "file:src/b.ts:fn:main" "file:a.ts:fn:helper" calls (Some 2)].
Proof.
  apply (calls_edge_aggregates PosixRelative.relative "/repo" helperProject
           "file:src/b.ts:fn:main" "file:a.ts:fn:helper" 1).
  - vm_compute. reflexivity.
  - intros site Hin. vm_compute in Hin.
    destruct Hin as [<-|[<-|[]]]; vm_compute; lia.
  - intros f t Hin _. vm_compute in Hin.
    destruct Hin as [H|[H|[]]]; injection H as <- <-; split; reflexivity.
Defined.

(** C2, counterexample — [wrapperProject] has a single call expression,
    the call [ns.g(1)] in [c.ts]; tier 1 finds the caller itself under the
    name [g], tier 2 then adds the edge once for each of the two
    declarations of the symbol, and the returned edge has
    [callCount = 2]. *)
Lemma one_call_site_counted_twice :
  length (flat_map sf_calls wrapperProject) = 1
  /\ edgesBetween "file:c.ts:fn:g" "file:a.ts:fn:g" calls
       (edges (analyze PosixRelative.relative "/repo" wrapperProject))
     = [mkEdge "file:c.ts:fn:g" "file:a.ts:fn:g" calls (Some 2)].
Proof. split; vm_compute; reflexivity. Qed.

(** C3, counterexample — the [contains] edge from [a.ts] to [helper]
    carries [callCount = 1]. *)
Lemma contains_edge_has_callCount :
  In (mkEdge "file:a.ts" "file:a.ts:fn:helper" contains (Some 1))
     (edges (analyze PosixRelative.relative "/repo" helperProject)).
Proof. vm_compute. auto. Qed.

(** C7 (as amended) — in the returned graph a folder node has no
    [parentId] (folder containment is expressed by [contains] edges only);
    a file node has the folder of its directory as parent, or none when it
    lies at the root; a class node has its file; a function node has its
    file when its id is [<file>:fn:<name>] and its class when its id is
    [<file>:cls:<class>:method:<name>]. *)
Theorem parent_of_each_node relative root added :
  Forall parentAsBuilt (nodes (analyze relative root added)).
Proof.
  apply Forall_forall. intros n Hin.
  unfold analyze, assemble in Hin. cbn [nodes] in Hin.
  apply JsMapFacts.in_values in Hin as [k Hin].
  destruct (passes_facts relative root added _ _
              (fileOk_trivial relative root _)) as (Hnodes & _ & _).
  destruct (Hnodes _ _ Hin) as [_ Hshape].
  unfold nodeShape in Hshape. unfold parentAsBuilt.
  destruct (node_type n).
  - apply Hshape.
  - apply Hshape.
  - destruct Hshape as [_ [[Hid Hp]|[c (_ & Hp & Hid)]]]; [now left|].
    right. now exists c.
  - apply Hshape.
  - exact Hshape.
Qed.

(** C7, counterexample — [src/lib] lies in [src], and [folder:src] is a
    node of the graph, yet the node of [src/lib] has no [parentId]. *)
Lemma nested_folder_has_no_parentId :
  let g := analyze PosixRelative.relative "/repo" [nestedFile] in
  exists n,
    In n (nodes g) /\ node_type n = folder /\ node_path n = "src/lib"
    /\ Path.dirname (node_path n) = "src"
    /\ In "folder:src" (map node_id (nodes g))
    /\ node_parentId n = None.
Proof.
  exists (mkNode "folder:src/lib" "lib" folder "src/lib" None None None None None).
  vm_compute. repeat split; auto.
Qed.

(** ** Splitting ids at the colons *)

Lemma fields_nonempty s : fields s <> [].
Proof.
  destruct s as [|c s]; simpl; [discriminate|].
  destruct (Ascii.eqb c ":"%char); [discriminate|].
  destruct (fields s); discriminate.
Qed.

Lemma fields_app a b : fields (a ++ ":" ++ b) = (fields a ++ fields b)%list.
Proof.
  induction a as [|c a IH].
  - reflexivity.
  - change (fields (String c (a ++ ":" ++ b))
            = (fields (String c a) ++ fields b)%list).
    simpl. rewrite IH.
    destruct (Ascii.eqb c ":"%char); [reflexivity|].
    destruct (fields a) as [|h t] eqn:Hf; [|reflexivity].
    now apply fields_nonempty in Hf.
Qed.

Lemma fields_colonFree s : colonFree s = true -> fields s = [s].
Proof.
  induction s as [|c s IH]; simpl; [reflexivity|].
  intros H. apply andb_prop in H as [Hc Hs].
  apply negb_true_iff in Hc. rewrite Hc, (IH Hs). reflexivity.
Qed.

Lemma fields_fileId rel : fields ("file:" ++ rel) = "file" :: fields rel.
Proof. apply (fields_app "file" rel). Qed.

Lemma fields_fnId fid name :
  fields (fid ++ ":fn:" ++ name) = (fields fid ++ "fn" :: fields name)%list.
Proof.
  change (fid ++ ":fn:" ++ name) with (fid ++ ":" ++ "fn" ++ ":" ++ name).
  now rewrite !fields_app.
Qed.

Lemma fields_clsId fid name :
  fields (fid ++ ":cls:" ++ name) = (fields fid ++ "cls" :: fields name)%list.
Proof.
  change (fid ++ ":cls:" ++ name) with (fid ++ ":" ++ "cls" ++ ":" ++ name).
  now rewrite !fields_app.
Qed.

Lemma fields_methodId clsId name :
  fields (clsId ++ ":method:" ++ name)
  = (fields clsId ++ "method" :: fields name)%list.
Proof.
  change (clsId ++ ":method:" ++ name)
    with (clsId ++ ":" ++ "method" ++ ":" ++ name).
  now rewrite !fields_app.
Qed.

Lemma folderId_not_fileId d rel rest : "folder:" ++ d <> ("file:" ++ rel) ++ rest.
Proof.
  rewrite append_assoc.
  change (String "f" (String "o" ("lder:" ++ d))
          <> String "f" (String "i" ("le:" ++ rel ++ rest))).
  discriminate.
Qed.

(** ** Ids built from names as written *)

Lemma colonFree_app a b : colonFree (a ++ b) = colonFree a && colonFree b.
Proof.
  induction a as [|c a IH]; [reflexivity|].
  change (colonFree (String c (a ++ b))
          = colonFree (String c a) && colonFree b).
  simpl. now rewrite IH, andb_assoc.
Qed.

Lemma colonFree_colon a b : colonFree (a ++ ":" ++ b) = false.
Proof. rewrite colonFree_app. apply andb_false_r. Qed.

Lemma append_cancel p a b : p ++ a = p ++ b -> a = b.
Proof.
  induction p as [|c p IH]; [auto|].
  change (String c (p ++ a) = String c (p ++ b) -> a = b).
  intros [= H]. exact (IH H).
Qed.

(** The text after the last colon determines what precedes it. *)
Lemma lastField_unique x :
  forall y n1 n2,
    colonFree n1 = true -> colonFree n2 = true ->
    x ++ ":" ++ n1 = y ++ ":" ++ n2 -> x = y /\ n1 = n2.
Proof.
  induction x as [|c x IH]; intros [|d y] n1 n2 H1 H2 Heq.
  - change (String ":" n1 = String ":" n2) in Heq.
    injection Heq as ->. now split.
  - change (String ":" n1 = String d (y ++ ":" ++ n2)) in Heq.
    injection Heq as _ ->. now rewrite colonFree_colon in H1.
  - change (String c (x ++ ":" ++ n1) = String ":" n2) in Heq.
    injection Heq as _ <-. now rewrite colonFree_colon in H2.
  - change (String c (x ++ ":" ++ n1) = String d (y ++ ":" ++ n2)) in Heq.
    injection Heq as -> Heq.
    destruct (IH _ _ _ H1 H2 Heq) as [-> ->]. now split.
Qed.

(** Whether an id closes is decided by its last field. *)
Lemma closes_field x q : closes (x ++ ":" ++ q) = closes q.
Proof.
  induction x as [|c x IH].
  - change (closes (String ":" q) = closes q). now destruct q.
  - change (closes (String c (x ++ ":" ++ q)) = closes q).
    rewrite <- IH. simpl.
    destruct (x ++ ":" ++ q) eqn:Hx; [|reflexivity].
    destruct x; discriminate Hx.
Qed.

Lemma toLowerCase_app a b :
  Js.toLowerCase (a ++ b) = Js.toLowerCase a ++ Js.toLowerCase b.
Proof.
  induction a as [|c a IH]; [reflexivity|].
  change (Js.toLowerCase (String c (a ++ b))
          = String (Js.lowerChar c) (Js.toLowerCase a ++ Js.toLowerCase b)).
  simpl. now rewrite IH.
Qed.

Lemma endsIn_cons e c s :
  endsIn e (String c s) = String.eqb (String c s) e || endsIn e s.
Proof. reflexivity. Qed.

Lemma endsIn_field e x name :
  colonFree e = true -> endsIn e (x ++ ":" ++ name) = true ->
  endsIn e name = true.
Proof.
  intros He. induction x as [|c x IH].
  - change (endsIn e (String ":" name) = true -> endsIn e name = true).
    rewrite endsIn_cons. intros H. apply orb_prop in H as [H|H]; [|exact H].
    apply String.eqb_eq in H. subst e.
    pose proof (colonFree_colon "" name) as Hc.
    change (colonFree (String ":" name) = false) in Hc. congruence.
  - change (endsIn e (String c (x ++ ":" ++ name)) = true
            -> endsIn e name = true).
    rewrite endsIn_cons. intros H.
    apply orb_prop in H as [H|H]; [|exact (IH H)].
    apply String.eqb_eq in H. subst e.
    pose proof (colonFree_colon (String c x) name) as Hc.
    change (colonFree (String c (x ++ ":" ++ name)) = false) in Hc.
    congruence.
Qed.

(** A path that ends like a source file has a last field that does. *)
Lemma hasSourceExtension_field x name :
  hasSourceExtension (x ++ ":" ++ name) = true ->
  hasSourceExtension name = true.
Proof.
  unfold hasSourceExtension. rewrite !existsb_exists.
  intros [e [Hin He]]. exists e. split; [exact Hin|].
  rewrite toLowerCase_app in He.
  apply (endsIn_field e (Js.toLowerCase x)); [|exact He].
  destruct Hin as [<-|[<-|[<-|[<-|[]]]]]; reflexivity.
Qed.

Lemma findContainingFunctionId_written chain fid rel
    (N : JsMap.t ProjectNode) id :
  forallb ancestorNamed chain = true ->
  _findContainingFunctionId chain fid rel N = Some id ->
  writtenCallerId fid id.
Proof.
  induction chain as [|current parents IH]; simpl; [discriminate|].
  intros Hall. apply andb_prop in Hall as [Hname Hrest].
  specialize (IH Hrest).
  destruct current as [[name|]| clsName methodName | | name |]; try exact IH;
    simpl in Hname.
  - destruct (Js.truthy name && JsMap.has (fid ++ ":fn:" ++ name) N);
      [|exact IH].
    intros [= <-]. exists "", "fn", name. auto.
  - destruct (JsMap.has (fid ++ ":cls:" ++ Js.template clsName
                            ++ ":method:" ++ methodName) N);
      [|exact IH].
    intros [= <-]. exists (":cls:" ++ Js.template clsName), "method", methodName.
    auto.
  - destruct (Js.truthy name && JsMap.has (fid ++ ":fn:" ++ name) N);
      [|exact IH].
    intros [= <-]. exists "", "fn", name. auto.
Qed.

(** A node stored under the id of a caller is a function node: a file
    node would need a name that ends like a source file, a class node a
    class name that closes or a last field but one other than [cls]. *)
Lemma written_caller_is_function rel n :
  nodeShape (fun p => hasSourceExtension p = true)
            (fun c => identifierLike c = true) n ->
  writtenCallerId ("file:" ++ rel) (node_id n) ->
  node_type n = function.
Proof.
  intros Hshape (middle & kind & name & Hid & Hkind & Hname).
  apply andb_prop in Hname as [Hext Hname].
  apply negb_true_iff in Hext.
  unfold nodeShape in Hshape.
  destruct (node_type n) eqn:Hty; try reflexivity; exfalso.
  - destruct Hshape as [Hfolder _]. rewrite Hfolder in Hid.
    now apply folderId_not_fileId in Hid.
  - destruct Hshape as (HP & Hfile & _). rewrite Hfile in Hid.
    rewrite append_assoc in Hid.
    change ("file:" ++ node_path n
            = "file:" ++ rel ++ middle ++ ":" ++ kind ++ ":" ++ name) in Hid.
    apply append_cancel in Hid.
    replace (rel ++ middle ++ ":" ++ kind ++ ":" ++ name)
      with ((rel ++ middle ++ ":" ++ kind) ++ ":" ++ name) in Hid
      by now rewrite !append_assoc.
    rewrite Hid in HP. apply hasSourceExtension_field in HP. congruence.
  - destruct Hshape as (_ & HQ & Hcls & _). rewrite Hcls in Hid.
    apply andb_prop in HQ as [Hfree Hopen]. apply negb_true_iff in Hopen.
    replace (("file:" ++ node_path n) ++ ":cls:" ++ node_name n)
      with ((("file:" ++ node_path n) ++ ":cls") ++ ":" ++ node_name n) in Hid
      by now rewrite !append_assoc.
    replace (("file:" ++ rel) ++ middle ++ ":" ++ kind ++ ":" ++ name)
      with (((("file:" ++ rel) ++ middle) ++ ":" ++ kind) ++ ":" ++ name) in Hid
      by now rewrite !append_assoc.
    apply orb_prop in Hname as [Hname|Hname].
    + apply lastField_unique in Hid as [Hid _]; [|exact Hfree|exact Hname].
      apply lastField_unique in Hid as [_ Hid]; [| reflexivity |].
      * destruct Hkind as [->| ->]; discriminate Hid.
      * destruct Hkind as [->| ->]; reflexivity.
    + apply (f_equal closes) in Hid. rewrite !closes_field in Hid. congruence.
  - exact Hshape.
Qed.

(** Every edge a call site hands to [addEdge] starts at the id the caller
    search returned for it. *)
Lemma traceCall_callers relative root fid rel call
    (s : EngineState (list EdgeCall)) c :
  In c (edgesAcc (traceCall relative recordEdge root fid rel call s)) ->
  In c (edgesAcc s)
  \/ _findContainingFunctionId (call_chain call) fid rel (nodesMap s)
     = Some (fst (fst c)).
Proof.
  unfold traceCall, tier2.
  destruct (_findContainingFunctionId _ _ _ _) as [caller|]; [|auto].
  destruct (negb _); [auto|].
  destruct (calledNameOf _ _) as [calledName|]; [|auto].
  destruct (negb _); [auto|].
  assert (Hedge : forall t (s0 : EngineState (list EdgeCall)),
             (forall c0, In c0 (edgesAcc s0) ->
                         In c0 (edgesAcc s) \/ Some caller = Some (fst (fst c0))) ->
             forall c0, In c0 (edgesAcc (withEdge recordEdge caller t calls s0)) ->
                        In c0 (edgesAcc s) \/ Some caller = Some (fst (fst c0))).
  { intros t s0 Hs0 c0. simpl. unfold recordEdge. intros Hin.
    apply in_app_or in Hin as [Hin|[<-|[]]]; [now apply Hs0 | now right]. }
  destruct (tier1 _ _ _ _) as [t|].
  - apply (Hedge t s). auto.
  - destruct (call_symbol call) as [symbol|]; [|auto].
    revert c.
    apply (forEach_preserves
             (fun s0 : EngineState (list EdgeCall) =>
                forall c0, In c0 (edgesAcc s0) ->
                           In c0 (edgesAcc s)
                           \/ Some caller = Some (fst (fst c0)))); [|auto].
    intros declFile s0 Hs0. unfold traceDeclaration.
    destruct (Js.includes _ _); [exact Hs0|].
    destruct (firstCandidate _ _ _) as [t|]; [|exact Hs0].
    now apply Hedge.
Qed.

Lemma forallbFrom_visited {A : Type} (g : A -> nat -> bool) xs :
  forall i x idx,
    forallbFrom g i xs = true -> visitedAt i xs x idx -> g x idx = true.
Proof.
  induction xs as [|y rest IH]; simpl; intros i x idx Hall [k [-> Hk]].
  - destruct k; discriminate Hk.
  - apply andb_prop in Hall as [Hy Hrest]. destruct k as [|k].
    + injection Hk as <-. now rewrite Nat.add_0_r.
    + apply (IH (S i)); [exact Hrest|]. exists k. split; [lia | exact Hk].
Qed.

Lemma namesColonFree_fileOk relative root sfs :
  forallb (namesColonFree relative root) sfs = true ->
  Forall (fileOk relative root (fun p => colonFree p = true)
                               (fun c => colonFree c = true)) sfs.
Proof.
  intros Hall. apply Forall_forall. intros sf Hin.
  rewrite forallb_forall in Hall. apply Hall in Hin.
  unfold namesColonFree in Hin. apply andb_prop in Hin as [Hp Hc].
  split; [exact Hp|]. intros idx cls Hnth.
  apply (forallbFrom_visited _ _ 0 cls idx Hc). now exists idx.
Qed.

Lemma asParsed_fileOk relative root sfs :
  forallb (asParsed relative root) sfs = true ->
  Forall (fileOk relative root (fun p => hasSourceExtension p = true)
                               (fun c => identifierLike c = true)) sfs.
Proof.
  intros Hall. apply Forall_forall. intros sf Hin.
  rewrite forallb_forall in Hall. apply Hall in Hin.
  unfold asParsed in Hin. apply andb_prop in Hin as [Hin _].
  apply andb_prop in Hin as [Hp Hc].
  split; [exact Hp|]. intros idx cls Hnth.
  apply (forallbFrom_visited _ _ 0 cls idx Hc). now exists idx.
Qed.

(** In source files as parsed, every edge pass 2 hands to [addEdge]
    starts at an id built from a name as written. *)
Lemma observed_callers_written relative root added c :
  forallb (asParsed relative root) (getSourceFiles added) = true ->
  In c (callObservations relative root added) ->
  exists rel, writtenCallerId ("file:" ++ rel) (fst (fst c)).
Proof.
  intros Hall Hin. rewrite callObservations_sites in Hin.
  apply in_flat_map in Hin as [[[fid rel] call] [Hsite Hin]].
  unfold callSites in Hsite.
  apply in_flat_map in Hsite as [sf [Hsf Hsite]].
  rewrite forallb_forall in Hall. apply Hall in Hsf.
  unfold asParsed in Hsf. apply andb_prop in Hsf as [_ Hcalls].
  unfold callSitesOf in Hsite.
  destruct (outsideRoot _); [destruct Hsite|].
  apply in_map_iff in Hsite as [call0 [Heq Hcall]].
  injection Heq as <- <- <-.
  rewrite forallb_forall in Hcalls. apply Hcalls in Hcall.
  unfold siteObservations in Hin.
  apply traceCall_callers in Hin as [[]|Hfind].
  exists (relativePathOf relative root (sf_path sf)).
  now apply (findContainingFunctionId_written _ _ _ _ _ Hcall Hfind).
Qed.

(** C10 — every returned [calls] edge starts at an id of the form
    [file:<path>:fn:<name>] or [file:<path>:cls:<class>:method:<name>]
    that is the id of a returned node, and every returned node with that
    id is of type [function].  The model takes any string for a path or
    a name, so the statement names what the engine's input always
    satisfies ([asParsed]): the files come from the four globs, a class is
    named by an identifier, and the text of a name that holds a colon ends
    with a quote, a bracket or a brace.  Paths may hold colons. *)
Theorem calls_edges_start_at_functions relative root added :
  forallb (asParsed relative root) (getSourceFiles added) = true ->
  let g := analyze relative root added in
  Forall (fun e =>
            edge_relation e = calls ->
            (exists relativePath,
                callerIdOf ("file:" ++ relativePath) (edge_from e))
            /\ In (edge_from e) (map node_id (nodes g))
            /\ forall n, In n (nodes g) -> node_id n = edge_from e ->
                         node_type n = function)
         (edges g).
Proof.
  intros Hparsed g. apply Forall_forall. intros e Hin Hrel.
  destruct (returned_calls_edge_observed _ _ _ _ Hin Hrel)
    as [Hobs (_ & _ & Hfrom & _ & rel & Hcaller)].
  destruct (observed_callers_written _ _ _ _ Hparsed Hobs) as [rel' Hwritten].
  destruct (passes_facts relative root added _ _
              (asParsed_fileOk _ _ _ Hparsed)) as (Hnodes & _ & _).
  split; [now exists rel|]. split.
  - unfold g, analyze, assemble. cbn [nodes].
    now apply (has_node_id _ _ _ _ Hnodes).
  - intros n Hn Hid. unfold g, analyze, assemble in Hn. cbn [nodes] in Hn.
    apply JsMapFacts.in_values in Hn as [k Hn].
    destruct (Hnodes _ _ Hn) as [_ Hshape].
    apply (written_caller_is_function rel'); [exact Hshape|].
    rewrite Hid. exact Hwritten.
Qed.

(** In [busProject] a path and a method name hold colons; its one [calls]
    edge starts at the method. *)
Lemma calls_edges_start_at_functions_witness :
  forallb (asParsed PosixRelative.relative "/repo")
          (getSourceFiles busProject) = true
  /\ let g := analyze PosixRelative.relative "/repo" busProject in
     map edge_from (filter (fun e => RelationType_eqb (edge_relation e) calls)
                           (edges g))
     = ["file:pkg:core/bus.ts:cls:Bus:method:'on:ready'"]
     /\ Forall (fun e =>
                  edge_relation e = calls ->
                  (exists relativePath,
                      callerIdOf ("file:" ++ relativePath) (edge_from e))
                  /\ In (edge_from e) (map node_id (nodes g))
                  /\ forall n, In n (nodes g) -> node_id n = edge_from e ->
                               node_type n = function)
               (edges g).
Proof.
  split; [vm_compute; reflexivity|].
  split; [vm_compute; reflexivity|].
  apply (calls_edges_start_at_functions PosixRelative.relative "/repo"
           busProject).
  vm_compute. reflexivity.
Defined.

Lemma getSourceFiles_idempotent added :
  getSourceFiles (getSourceFiles added) = getSourceFiles added.
Proof.
  unfold getSourceFiles. induction added as [|sf rest IH]; simpl; [reflexivity|].
  destruct (negb (removedFromProject (sf_path sf))) eqn:Hk; simpl.
  - now rewrite Hk, IH.
  - exact IH.
Qed.

(** The three rules of the source set filter, spelled out. *)
Lemma removedFromProject_rules filePath :
  let p := Js.replaceBackslashes filePath in
  removedFromProject filePath = true
  <-> (exists ignored, In ignored ignoredPaths /\ Js.includes p ignored = true)
      \/ In (Js.toLowerCase (Path.extname p)) BINARY_EXTENSIONS
      \/ Js.endsWith p ".min.js" = true
      \/ Js.endsWith p ".min.css" = true.
Proof.
  intros p. unfold removedFromProject. fold p.
  rewrite !orb_true_iff, existsb_exists, mem_In. tauto.
Qed.

(** C8 — Filter soundness.  A file whose path holds an ignored directory,
    whose extension is in the binary list or whose name ends in [.min.js]
    or [.min.css] is removed before pass 1: the graph is the graph of the
    project without the removed files; when no kept file has the same
    relative path, no returned file, function or class node was made for
    it, and both ends of every returned edge are nodes made for something
    else. *)
Theorem removed_file_leaves_no_trace relative root added sf :
  In sf added ->
  removedFromProject (sf_path sf) = true ->
  (forall kept, In kept (getSourceFiles added) ->
                relativePathOf relative root (sf_path kept)
                <> relativePathOf relative root (sf_path sf)) ->
  let g := analyze relative root added in
  let rel := relativePathOf relative root (sf_path sf) in
  ~ In sf (getSourceFiles added)
  /\ g = analyze relative root (getSourceFiles added)
  /\ (forall n, In n (nodes g) -> ~ nodeOfFile rel n)
  /\ (forall e, In e (edges g) ->
        exists n1 n2,
          In n1 (nodes g) /\ node_id n1 = edge_from e /\ ~ nodeOfFile rel n1
          /\ In n2 (nodes g) /\ node_id n2 = edge_to e /\ ~ nodeOfFile rel n2).
Proof.
  intros _ Hremoved Hother g rel.
  assert (Hnodes : forall n, In n (nodes g) -> ~ nodeOfFile rel n).
  { intros n Hn [Hpath Hty].
    unfold g, analyze, assemble in Hn. cbn [nodes] in Hn.
    apply JsMapFacts.in_values in Hn as [k Hn].
    destruct (passes_facts relative root added
                (fun p => exists kept, In kept (getSourceFiles added)
                                       /\ p = relativePathOf relative root (sf_path kept))
                (fun _ => True)) as (Hinv & _ & _).
    { apply Forall_forall. intros kept Hkept. split; [|auto]. now exists kept. }
    destruct (Hinv _ _ Hn) as [_ Hshape]. unfold nodeShape in Hshape.
    assert (HP : exists kept, In kept (getSourceFiles added)
                              /\ node_path n = relativePathOf relative root (sf_path kept)).
    { destruct (node_type n); try apply Hshape; [now elim Hty | now elim Hshape]. }
    destruct HP as (kept & Hkept & Hrel).
    apply (Hother kept Hkept). now rewrite <- Hrel. }
  split; [|split; [|split]].
  - unfold getSourceFiles. rewrite filter_In, Hremoved. intros [_ H]. discriminate H.
  - unfold g, analyze, finalState, runPasses.
    now rewrite getSourceFiles_idempotent.
  - exact Hnodes.
  - intros e He.
    apply returned_edge_ends in He as (Hfrom & Hto).
    apply in_map_iff in Hfrom as (n1 & Hid1 & Hn1).
    apply in_map_iff in Hto as (n2 & Hid2 & Hn2).
    exists n1, n2. repeat split; auto; now apply Hnodes.
Qed.

(** The bundled dependency next to [a.ts] leaves nothing in the graph. *)
Lemma removed_file_leaves_no_trace_witness :
  let added := [helperFile; vendoredFile] in
  let g := analyze PosixRelative.relative "/repo" added in
  ~ In vendoredFile (getSourceFiles added)
  /\ g = analyze PosixRelative.relative "/repo" (getSourceFiles added)
  /\ (forall n, In n (nodes g) -> ~ nodeOfFile "node_modules/pkg/index.js" n).
Proof.
  destruct (removed_file_leaves_no_trace PosixRelative.relative "/repo"
              [helperFile; vendoredFile] vendoredFile) as (H1 & H2 & H3 & _).
  - right. left. reflexivity.
  - vm_compute. reflexivity.
  - intros kept Hin. vm_compute in Hin. destruct Hin as [<-|[]].
    vm_compute. discriminate.
  - repeat split; assumption.
Defined.

(** C9 — when no source file is left after the removals, [analyze]
    returns the empty graph and the upload route, instead of saving it and
    sending [done], ends the stream with an [error] event that carries the
    message "No source files found...". *)
Theorem no_source_files_is_reported relative persist root added :
  getSourceFiles added = [] ->
  let g := analyze relative root added in
  let sent := analyzeAndReport relative persist root added in
  nodes g = [] /\ edges g = []
  /\ sent = [EvProgress 75 "Found 0 nodes and 0 edges. Saving to database...";
             EvError noSourceMessage]
  /\ existsb isFailure sent = true /\ existsb isDone sent = false.
Proof.
  intros Hnone g sent.
  assert (Hg : g = mkGraph [] [] root).
  { unfold g, analyze, finalState, runPasses. now rewrite Hnone. }
  unfold sent, analyzeAndReport. fold g. rewrite Hg. repeat split.
Qed.

(** A project that holds nothing but a bundled dependency. *)
Lemma no_source_files_is_reported_witness :
  analyzeAndReport PosixRelative.relative (fun g => [EvDone g]) "/repo"
    [vendoredFile]
  = [EvProgress 75 "Found 0 nodes and 0 edges. Saving to database...";
     EvError noSourceMessage].
Proof.
  destruct (no_source_files_is_reported PosixRelative.relative
              (fun g => [EvDone g]) "/repo" [vendoredFile])
    as (_ & _ & Hsent & _).
  - vm_compute. reflexivity.
  - exact Hsent.
Defined.

(** ** Which insertions replace a node *)

Lemma length_append a b :
  String.length (a ++ b) = String.length a + String.length b.
Proof.
  induction a as [|c a IH]; [reflexivity|].
  change (S (String.length (a ++ b)) = S (String.length a + String.length b)).
  now rewrite IH.
Qed.

Lemma append_longer a c b : a ++ String c b <> a.
Proof.
  intros H. apply (f_equal String.length) in H.
  rewrite length_append in H. simpl in H. lia.
Qed.

Section NodePolicy.

Variable relative : string -> string -> string.
Context {E : Type}.
Variable addE : string -> string -> RelationType -> E -> E.

Lemma getNode_setNode_other id k n (st : EngineState E) :
  k <> id ->
  JsMap.get k (nodesMap (setNode id n st)) = JsMap.get k (nodesMap st).
Proof. intros H. simpl. now apply JsMapFacts.get_set_other. Qed.






Lemma getNode_addImport root fid imp k (st : EngineState E) :
  JsMap.get k (nodesMap (addImport relative addE root fid imp st))
  = JsMap.get k (nodesMap st).
Proof.
  unfold addImport. destruct (imp_resolved imp); [|reflexivity].
  destruct (negb _); reflexivity.
Qed.


End NodePolicy.




(** ** The registry entry of a name *)

Lemma startsWith_own fid rest : Js.startsWith (fid ++ String ":" rest) (fid ++ ":") = true.
Proof.
  unfold Js.startsWith.
  change (fid ++ String ":" rest) with (fid ++ ":" ++ rest).
  rewrite <- append_assoc. apply prefix_append.
Qed.

Lemma startsWith_nonempty id p c :
  Js.startsWith id (p ++ String c "") = true -> Js.truthy id = true.
Proof.
  unfold Js.startsWith, Js.truthy. destruct id as [|x id]; [|reflexivity].
  destruct p; discriminate.
Qed.

Section Registry.

Variable relative : string -> string -> string.
Context {E : Type}.
Variable addE : string -> string -> RelationType -> E -> E.

(** The file node id and the name the lemmas are about. *)
Variables fid name : string.

Abbreviation own := (@ownedBy E fid name).

Lemma own_setNode id n st : own st -> own (setNode id n st).
Proof.
  intros (i & Hg & Hp & Hh). exists i. repeat split; auto.
  simpl. now apply JsMapFacts.has_set_mono.
Qed.

Lemma own_withEdge f t r st : own st -> own (withEdge addE f t r st).
Proof. intros (i & Hg & Hp & Hh). now exists i. Qed.

Lemma own_markFolder d st : own st -> own (markFolder d st).
Proof. intros (i & Hg & Hp & Hh). now exists i. Qed.

(** Registering [key] and storing the node: the shape of every
    registration of pass 1. *)
Lemma own_stored f t r key id n st :
  Js.startsWith id (fid ++ ":") = true -> key = name ->
  own (withEdge addE f t r (setNode id n (register key id st))).
Proof.
  intros Hp ->. exists id. repeat split; simpl.
  - apply JsMapFacts.get_set_same.
  - exact Hp.
  - apply JsMapFacts.has_set_same.
Qed.

Lemma own_kept f t r key id n st :
  (key = name -> Js.startsWith id (fid ++ ":") = true) ->
  own st ->
  own (withEdge addE f t r (setNode id n (register key id st))).
Proof.
  intros Hkey Hown. destruct (string_dec key name) as [Heq|Hne].
  - now apply own_stored; auto.
  - destruct Hown as (i & Hg & Hp & Hh). exists i. repeat split; simpl; auto.
    + rewrite JsMapFacts.get_set_other; auto.
    + now apply JsMapFacts.has_set_mono.
Qed.

Lemma own_addFolderNodes rel st : own st -> own (_addFolderNodes addE rel st).
Proof.
  unfold _addFolderNodes.
  generalize (Js.replaceBackslashes (Path.dirname rel)) as d.
  generalize (S (String.length rel)) as fuel. intros fuel. revert st.
  induction fuel as [|fuel IH]; simpl; intros st d Hs; [exact Hs|].
  destruct (aboveRoot d); [|exact Hs].
  apply IH. unfold addFolderNode.
  destruct (Js.mem d (folderPaths st)); [exact Hs|].
  destruct (negb _ && negb _).
  - now apply own_withEdge, own_setNode, own_markFolder.
  - now apply own_setNode, own_markFolder.
Qed.

Lemma own_addImport root fx imp st :
  own st -> own (addImport relative addE root fx imp st).
Proof.
  intros Hs. unfold addImport. destruct (imp_resolved imp); [|exact Hs].
  destruct (negb _); [now apply own_withEdge | exact Hs].
Qed.

Lemma own_registerFunction fx rel fn idx st :
  (functionNameOf fn idx = name -> fx = fid) ->
  own st -> own (_registerFunction addE fn idx fx rel st).
Proof.
  intros Hk Hs. unfold _registerFunction. apply own_kept; [|exact Hs].
  intros Heq. rewrite (Hk Heq). apply startsWith_own.
Qed.

Lemma own_registerVariable fx rel v st :
  (isFunctionVariable v = true -> vd_name v = name -> fx = fid) ->
  own st -> own (registerVariable addE fx rel v st).
Proof.
  intros Hk Hs. unfold registerVariable, isFunctionVariable in *.
  destruct (vd_init v) as [init|]; [|exact Hs].
  destruct (isFunctionInitializer init); [|exact Hs].
  destruct (negb _); [|exact Hs].
  apply own_kept; [|exact Hs].
  intros Heq. rewrite (Hk eq_refl Heq). apply startsWith_own.
Qed.

Lemma own_registerClass fx rel cls idx st :
  (classNameOf cls idx = name -> fx = fid) ->
  (In name (methodKeysOf cls idx) -> fx = fid) ->
  own st -> own (registerClass addE fx rel cls idx st).
Proof.
  intros Hk Hm Hs. unfold registerClass.
  apply (forEach_invariant own
           (fun m => classNameOf cls idx ++ "." ++ md_name m = name -> fx = fid)).
  - intros m s Hmk Hown. unfold registerMethod. apply own_kept; [|exact Hown].
    intros Heq. rewrite (Hmk Heq), append_assoc. apply startsWith_own.
  - apply Forall_forall. intros m Hin Heq. apply Hm.
    unfold methodKeysOf. apply in_map_iff. now exists m.
  - apply own_kept; [|exact Hs].
    intros Heq. rewrite (Hk Heq). apply startsWith_own.
Qed.

(** A class registered under [name] in the file itself. *)
Lemma own_registerClass_new rel cls idx st :
  classNameOf cls idx = name ->
  own (registerClass addE fid rel cls idx st).
Proof.
  intros Hk. unfold registerClass.
  apply forEach_preserves.
  - intros m s Hown. unfold registerMethod. apply own_kept; [|exact Hown].
    intros _. rewrite append_assoc. apply startsWith_own.
  - apply own_stored; [apply startsWith_own | exact Hk].
Qed.

End Registry.

Lemma forEachFrom_app {A St : Type} (f : A -> nat -> St -> St) l1 l2 :
  forall i s,
    forEachFrom f i (l1 ++ l2) s
    = forEachFrom f (i + length l1) l2 (forEachFrom f i l1 s).
Proof.
  induction l1 as [|x l1 IH]; simpl; intros i s.
  - now rewrite Nat.add_0_r.
  - rewrite IH. f_equal. lia.
Qed.

Lemma forEach_app {A St : Type} (f : A -> St -> St) l1 l2 s :
  forEach f (l1 ++ l2) s = forEach f l2 (forEach f l1 s).
Proof. unfold forEach. apply fold_left_app. Qed.

Lemma namesFrom_In {A : Type} (f : A -> nat -> string) nm xs :
  forall i,
    In nm (namesFrom f i xs) ->
    exists l1 x l2, xs = (l1 ++ x :: l2)%list /\ f x (i + length l1) = nm.
Proof.
  induction xs as [|y rest IH]; simpl; intros i Hin; [easy|].
  destruct Hin as [Hy|Hin].
  - exists [], y, rest. split; [reflexivity|]. simpl. now rewrite Nat.add_0_r.
  - destruct (IH (S i) Hin) as (l1 & x & l2 & -> & Hx).
    exists (y :: l1), x, l2. split; [reflexivity|].
    simpl. now replace (i + S (length l1)) with (S i + length l1) by lia.
Qed.

Lemma visited_namesFrom {A : Type} (f : A -> nat -> string) xs :
  forall i x idx, visitedAt i xs x idx -> In (f x idx) (namesFrom f i xs).
Proof.
  induction xs as [|y rest IH]; simpl; intros i x idx [k [-> Hk]].
  - destruct k; discriminate Hk.
  - destruct k as [|k].
    + injection Hk as <-. left. now rewrite Nat.add_0_r.
    + right. apply (IH (S i)). exists k. split; [lia | exact Hk].
Qed.

Lemma visited_methodKeys classes :
  forall i cls idx key,
    visitedAt i classes cls idx -> In key (methodKeysOf cls idx) ->
    In key (methodKeysFrom i classes).
Proof.
  induction classes as [|c rest IH]; simpl; intros i cls idx key [k [-> Hk]] Hin.
  - destruct k; discriminate Hk.
  - apply in_or_app. destruct k as [|k].
    + injection Hk as <-. left. now rewrite Nat.add_0_r in Hin.
    + right. apply (IH (S i) cls (S i + k)); [|now replace (S i + k) with (i + S k) by lia].
      exists k. split; [lia | exact Hk].
Qed.

Section RegistryFile.

Variable relative : string -> string -> string.
Context {E : Type}.
Variable addE : string -> string -> RelationType -> E -> E.
Variables fid name : string.

Abbreviation own := (@ownedBy E fid name).

(** A file that registers nothing under [name] leaves the entry alone. *)
Lemma own_pass1File_other root sf st :
  ~ In name (registeredKeys sf) ->
  own st -> own (pass1File relative addE root sf st).
Proof.
  intros Hkeys Hs. unfold pass1File.
  destruct (outsideRoot _); [exact Hs|].
  unfold registeredKeys in Hkeys.
  rewrite !in_app_iff in Hkeys.
  unfold forEachIdx. apply forEachFrom_invariant.
  { intros cls idx s Hv Hown. apply own_registerClass; auto.
    - intros Heq. exfalso. apply Hkeys. right. right. left.
      rewrite <- Heq. now apply (visited_namesFrom classNameOf).
    - intros Hin. exfalso. apply Hkeys. right. right. right.
      now apply (visited_methodKeys _ 0 cls idx). }
  apply (forEach_invariant own (fun v => In v (sf_variables sf))).
  { intros v s Hin Hown. apply own_registerVariable; auto.
    intros Hfv Heq. exfalso. apply Hkeys. right. left.
    unfold variableNames. apply in_map_iff. exists v. split; [exact Heq|].
    apply filter_In. auto. }
  { apply Forall_forall. auto. }
  apply forEachFrom_invariant.
  { intros fn idx s Hv Hown. apply own_registerFunction; auto.
    intros Heq. exfalso. apply Hkeys. left.
    rewrite <- Heq. now apply (visited_namesFrom functionNameOf). }
  apply forEach_preserves.
  { intros imp s Hown. now apply own_addImport. }
  destruct (negb _).
  - now apply own_withEdge, own_setNode, own_addFolderNodes.
  - now apply own_setNode, own_addFolderNodes.
Qed.

Lemma own_pass1_other root sfs st :
  (forall later, In later sfs -> ~ In name (registeredKeys later)) ->
  own st -> own (pass1 relative addE root sfs st).
Proof.
  intros Hkeys Hs. unfold pass1.
  apply (forEach_invariant own (fun sf => ~ In name (registeredKeys sf))); auto.
  - intros sf s Hsf Hown. now apply own_pass1File_other.
  - apply Forall_forall. exact Hkeys.
Qed.

End RegistryFile.

Section RegistryDeclaring.

Variable relative : string -> string -> string.
Context {E : Type}.
Variable addE : string -> string -> RelationType -> E -> E.

(** The relative path of the declaring file and the declared name. *)
Variables rel name : string.

Abbreviation fid := ("file:" ++ rel).
Abbreviation fnId := (("file:" ++ rel) ++ ":fn:" ++ name).
Abbreviation own := (@ownedBy E ("file:" ++ rel) name).

(** The id of the variable is still free, or the entry is in place. *)
Abbreviation freeOrOwn :=
  (fun s : EngineState E => JsMap.has fnId (nodesMap s) = false \/ own s).

Lemma hasFnId_addFolderNodes p (st : EngineState E) :
  JsMap.has fnId (nodesMap (_addFolderNodes addE p st))
  = JsMap.has fnId (nodesMap st).
Proof.
  unfold _addFolderNodes.
  generalize (Js.replaceBackslashes (Path.dirname p)) as d.
  generalize (S (String.length p)) as fuel. intros fuel. revert st.
  induction fuel as [|fuel IH]; simpl; intros st d; [reflexivity|].
  destruct (aboveRoot d); [|reflexivity].
  rewrite IH. unfold addFolderNode.
  destruct (Js.mem d (folderPaths st)); [reflexivity|].
  assert (Hne : fnId <> "folder:" ++ d).
  { intros H. symmetry in H. now apply folderId_not_fileId in H. }
  destruct (negb _ && negb _); simpl; unfold JsMap.has;
    now rewrite JsMapFacts.get_set_other.
Qed.

Lemma freeOrOwn_registerFunction fn idx st :
  freeOrOwn st -> freeOrOwn (_registerFunction addE fn idx fid rel st).
Proof.
  intros HJ. destruct (string_dec (functionNameOf fn idx) name) as [Heq|Hne].
  - right. unfold _registerFunction.
    apply own_stored; [apply startsWith_own | exact Heq].
  - destruct HJ as [Hfree|Hown].
    + left. unfold _registerFunction. simpl. unfold JsMap.has.
      rewrite JsMapFacts.get_set_other; [exact Hfree|].
      intros H. apply append_inj_l in H. apply (append_inj_l ":fn:") in H.
      congruence.
    + right. now apply own_registerFunction.
Qed.

Lemma freeOrOwn_registerVariable v st :
  freeOrOwn st -> freeOrOwn (registerVariable addE fid rel v st).
Proof.
  intros HJ. unfold registerVariable.
  destruct (vd_init v) as [init|]; [|exact HJ].
  destruct (isFunctionInitializer init); [|exact HJ].
  destruct (negb _); [|exact HJ].
  destruct (string_dec (vd_name v) name) as [Heq|Hne].
  - right. apply own_stored; [apply startsWith_own | exact Heq].
  - destruct HJ as [Hfree|Hown].
    + left. simpl. unfold JsMap.has.
      rewrite JsMapFacts.get_set_other; [exact Hfree|].
      intros H. apply append_inj_l in H. apply (append_inj_l ":fn:") in H.
      congruence.
    + right. apply own_kept; [|exact Hown]. intros _. apply startsWith_own.
Qed.

(** The variable named [name] itself. *)
Lemma own_registerVariable_declared v st :
  isFunctionVariable v = true -> vd_name v = name ->
  freeOrOwn st -> own (registerVariable addE fid rel v st).
Proof.
  intros Hfv Hname HJ. unfold registerVariable, isFunctionVariable in *.
  destruct (vd_init v) as [init|]; [|discriminate Hfv].
  rewrite Hfv, Hname.
  destruct (JsMap.has fnId (nodesMap st)) eqn:Hhas; simpl.
  - destruct HJ as [Hfree|Hown]; [congruence | exact Hown].
  - apply own_stored; [apply startsWith_own | reflexivity].
Qed.

(** In the file itself every registration keeps the entry in the file. *)
Lemma own_classes classes i st :
  own st -> own (forEachFrom (registerClass addE fid rel) i classes st).
Proof.
  intros Hs. apply forEachFrom_invariant; [|exact Hs].
  intros cls idx s _ Hown. now apply own_registerClass.
Qed.

Lemma own_variables vars st :
  own st -> own (forEach (registerVariable addE fid rel) vars st).
Proof.
  apply forEach_preserves. intros v s Hown. now apply own_registerVariable.
Qed.

Lemma own_functions fns i st :
  own st ->
  own (forEachFrom (fun fn idx => _registerFunction addE fn idx fid rel) i fns st).
Proof.
  intros Hs. apply forEachFrom_invariant; [|exact Hs].
  intros fn idx s _ Hown. now apply own_registerFunction.
Qed.

Lemma own_pass1File_declaring root sf st :
  rel = relativePathOf relative root (sf_path sf) ->
  outsideRoot rel = false ->
  In name (functionNames sf) \/ In name (classNames sf)
  \/ (In name (variableNames sf) /\ JsMap.has fnId (nodesMap st) = false) ->
  own (pass1File relative addE root sf st).
Proof.
  intros Hrel Hin Hdecl. unfold pass1File. rewrite <- Hrel, Hin.
  unfold forEachIdx.
  match goal with
  | |- own (forEachFrom _ 0 _ (forEach _ _ (forEachFrom _ 0 _ ?s))) =>
      set (s4 := s)
  end.
  destruct Hdecl as [Hfn|[Hcls|[Hvar Hfree]]].
  - apply own_classes, own_variables.
    apply namesFrom_In in Hfn as (l1 & fn & l2 & -> & Hname).
    rewrite forEachFrom_app. cbn [forEachFrom].
    apply own_functions. unfold _registerFunction.
    apply own_stored; [apply startsWith_own | exact Hname].
  - apply namesFrom_In in Hcls as (l1 & cls & l2 & -> & Hname).
    rewrite forEachFrom_app. cbn [forEachFrom].
    apply own_classes. now apply own_registerClass_new.
  - apply own_classes.
    unfold variableNames in Hvar. apply in_map_iff in Hvar as (v & Hname & Hv).
    apply filter_In in Hv as [Hv Hfv].
    apply in_split in Hv as (l1 & l2 & ->).
    rewrite forEach_app.
    change (forEach (registerVariable addE fid rel) (v :: l2)
              (forEach (registerVariable addE fid rel) l1
                 (forEachFrom (fun fn idx => _registerFunction addE fn idx fid rel)
                    0 (sf_functions sf) s4)))
      with (forEach (registerVariable addE fid rel) l2
              (registerVariable addE fid rel v
                 (forEach (registerVariable addE fid rel) l1
                    (forEachFrom (fun fn idx => _registerFunction addE fn idx fid rel)
                       0 (sf_functions sf) s4)))).
    apply own_variables. apply own_registerVariable_declared; auto.
    apply (forEach_preserves freeOrOwn).
    { intros v' s HJ. now apply freeOrOwn_registerVariable. }
    apply (forEachFrom_invariant freeOrOwn).
    { intros fn idx s _ HJ. now apply freeOrOwn_registerFunction. }
    left. unfold s4.
    apply (forEach_preserves
             (fun s : EngineState E => JsMap.has fnId (nodesMap s) = false)).
    { intros imp s Hs. unfold JsMap.has. now rewrite getNode_addImport. }
    assert (Hfile : fnId <> fid).
    { apply append_longer. }
    destruct (negb _); simpl; unfold JsMap.has;
      rewrite JsMapFacts.get_set_other by exact Hfile;
      fold (JsMap.has fnId (nodesMap (_addFolderNodes addE rel st)));
      now rewrite hasFnId_addFolderNodes.
Qed.

End RegistryDeclaring.

(** ** When the id of a variable is free *)

Lemma stateAfter_nodes relative root earlier :
  nodesMap (stateAfter relative root earlier)
  = nodesMap (pass1 relative recordEdge root earlier
                (mkState JsMap.empty [] JsMap.empty [])).
Proof.
  unfold stateAfter. symmetry.
  apply (sim_pass1 relative recordEdge addEdge (fun _ _ => True)); [auto|].
  repeat split.
Qed.

(** With colon-free paths and class names, and no earlier file at the same
    relative path, no earlier file has stored a node under the id
    [file:<rel>:fn:<name>]. *)
Lemma variable_id_free relative root earlier rel name :
  colonFree rel = true ->
  forallb (namesColonFree relative root) earlier = true ->
  (forall sf, In sf earlier -> relativePathOf relative root (sf_path sf) <> rel) ->
  JsMap.has (("file:" ++ rel) ++ ":fn:" ++ name)
            (nodesMap (stateAfter relative root earlier)) = false.
Proof.
  intros Hrel Hnames Hother.
  destruct (JsMap.has _ _) eqn:Hhas; [exfalso|reflexivity].
  rewrite stateAfter_nodes in Hhas.
  apply JsMapFacts.has_in in Hhas as [n Hin].
  assert (Hinv : inv1 (fun p => colonFree p = true
                                /\ exists sf, In sf earlier
                                     /\ p = relativePathOf relative root (sf_path sf))
                      (fun c => colonFree c = true)
                      (pass1 relative recordEdge root earlier
                         (mkState JsMap.empty [] JsMap.empty []))).
  { apply inv_pass1; [|split; [intros k m []|constructor]].
    apply Forall_forall. intros sf Hsf.
    pose proof (namesColonFree_fileOk _ _ _ Hnames) as Hok.
    rewrite Forall_forall in Hok. destruct (Hok sf Hsf) as [Hp Hq].
    split; [|exact Hq]. split; [exact Hp | now exists sf]. }
  destruct Hinv as [Hnodes _]. destruct (Hnodes _ _ Hin) as [Hid Hshape].
  assert (Hf : fields (node_id n) = "file" :: rel :: "fn" :: fields name).
  { rewrite <- Hid, fields_fnId, fields_fileId, (fields_colonFree _ Hrel).
    reflexivity. }
  unfold nodeShape in Hshape. destruct (node_type n).
  - destruct Hshape as [Hfolder _]. rewrite Hfolder in Hid.
    symmetry in Hid. now apply folderId_not_fileId in Hid.
  - destruct Hshape as ([Hp _] & Hfile & _).
    rewrite Hfile, fields_fileId, (fields_colonFree _ Hp) in Hf. discriminate Hf.
  - destruct Hshape as ([Hp (sf & Hsf & Hpath)] & [[Hfn _]|(c & _ & _ & Hm)]).
    + rewrite Hfn, fields_fnId, fields_fileId, (fields_colonFree _ Hp) in Hf.
      injection Hf as Heq _. apply (Hother sf Hsf). congruence.
    + rewrite Hm, fields_methodId, fields_clsId, fields_fileId,
        (fields_colonFree _ Hp) in Hf.
      simpl in Hf. discriminate Hf.
  - destruct Hshape as ([Hp _] & Hq & Hcls & _).
    rewrite Hcls, fields_clsId, fields_fileId, (fields_colonFree _ Hp) in Hf.
    discriminate Hf.
  - exact Hshape.
Qed.

(** C6 — the registry is last-writer-wins.  Let [declaring] be the last
    source file of pass 1 that registers anything under [name], by a
    function declaration, a class, or a function-valued variable whose
    node id is free when the file is reached (the guard of that branch).
    Whatever earlier files registered under [name], the registry then maps
    [name] to a live node whose id starts with the id of [declaring], and
    tier 1 resolves [name] to that node for every other caller. *)
Theorem registry_last_writer_wins relative root added earlier declaring later
    name :
  getSourceFiles added = (earlier ++ declaring :: later)%list ->
  let rel := relativePathOf relative root (sf_path declaring) in
  outsideRoot rel = false ->
  In name (functionNames declaring) \/ In name (classNames declaring)
  \/ (In name (variableNames declaring)
      /\ JsMap.has (("file:" ++ rel) ++ ":fn:" ++ name)
                   (nodesMap (stateAfter relative root earlier)) = false) ->
  (forall sf, In sf later -> ~ In name (registeredKeys sf)) ->
  let final := finalState relative root added in
  exists id,
    JsMap.get name (fnRegistry final) = Some id
    /\ Js.startsWith id (("file:" ++ rel) ++ ":") = true
    /\ JsMap.has id (nodesMap final) = true
    /\ forall callerFnId,
         callerFnId <> id ->
         tier1 (fnRegistry final) (nodesMap final) callerFnId name = Some id.
Proof.
  intros Hsplit rel Hin Hdecl Hlater final.
  assert (Hown : ownedBy ("file:" ++ rel) name final).
  { unfold final, finalState, runPasses. rewrite Hsplit.
    destruct (sameTables_pass2 relative addEdge root
                (earlier ++ declaring :: later)
                (pass1 relative addEdge root (earlier ++ declaring :: later)
                   (mkState JsMap.empty JsMap.empty JsMap.empty [])))
      as (Hn & Hr & _).
    assert (H1 : ownedBy ("file:" ++ rel) name
                   (pass1 relative addEdge root (earlier ++ declaring :: later)
                      (mkState JsMap.empty JsMap.empty JsMap.empty []))).
    { unfold pass1. rewrite forEach_app.
      change (forEach (pass1File relative addEdge root) (declaring :: later)
                (forEach (pass1File relative addEdge root) earlier
                   (mkState JsMap.empty JsMap.empty JsMap.empty [])))
        with (pass1 relative addEdge root later
                (pass1File relative addEdge root declaring
                   (stateAfter relative root earlier))).
      apply own_pass1_other; [exact Hlater|].
      now apply own_pass1File_declaring. }
    destruct H1 as (id & Hg & Hp & Hh). exists id.
    rewrite Hn, Hr. auto. }
  destruct Hown as (id & Hg & Hp & Hh). exists id.
  repeat split; auto.
  intros caller Hne. unfold tier1. rewrite Hg, Hh.
  rewrite (startsWith_nonempty _ _ _ Hp).
  destruct (String.eqb id caller) eqn:Heq; [|reflexivity].
  apply String.eqb_eq in Heq. congruence.
Qed.

(** [helper] is declared in [a.ts] and again, as a variable, in
    [src/util.ts]; the registry ends on the later file's node. *)
Lemma registry_last_writer_wins_witness :
  let final := finalState PosixRelative.relative "/repo"
                 [helperFile; shadowFile; mainFile] in
  exists id,
    JsMap.get "helper" (fnRegistry final) = Some id
    /\ Js.startsWith id "file:src/util.ts:" = true
    /\ JsMap.has id (nodesMap final) = true
    /\ forall callerFnId,
         callerFnId <> id ->
         tier1 (fnRegistry final) (nodesMap final) callerFnId "helper" = Some id.
Proof.
  apply (registry_last_writer_wins PosixRelative.relative "/repo"
           [helperFile; shadowFile; mainFile] [helperFile] shadowFile [mainFile]
           "helper").
  - vm_compute. reflexivity.
  - vm_compute. reflexivity.
  - right. right. split; [vm_compute; auto | vm_compute; reflexivity].
  - intros sf [<-|[]]. vm_compute. intuition discriminate.
Defined.

(* ================================================================= *)
(** * Further properties of the engine *)

(** ** Invariants that every write of pass 1 keeps *)

Section WriteInvariant.

Variable relative : string -> string -> string.
Context {E : Type}.
Variable addE : string -> string -> RelationType -> E -> E.
Variable I : EngineState E -> Prop.

(** What is known of the directories the folder loop visits. *)
Variable G : string -> Prop.

(** The four kinds of write: an edge, a folder with its mark, a file
    node, and a registered declaration. *)
Hypothesis I_edge : forall f t r s, I s -> I (withEdge addE f t r s).
Hypothesis I_folder :
  forall d s, G d -> Js.mem d (folderPaths s) = false ->
              I s -> I (setNode ("folder:" ++ d) (folderNode d) (markFolder d s)).
Hypothesis I_file :
  forall rel n s, node_type n = file -> I s -> I (setNode ("file:" ++ rel) n s).
Hypothesis I_decl :
  forall rel rest key n s,
    node_type n <> folder ->
    I s ->
    I (setNode (("file:" ++ rel) ++ rest) n
         (register key (("file:" ++ rel) ++ rest) s)).

Lemma write_addFolderNodes rel s :
  (forall d, In d (ancestorDirs rel) -> G d) ->
  I s -> I (_addFolderNodes addE rel s).
Proof.
  unfold _addFolderNodes, ancestorDirs.
  generalize (Js.replaceBackslashes (Path.dirname rel)) as d.
  generalize (S (String.length rel)) as fuel. intros fuel. revert s.
  induction fuel as [|fuel IH]; simpl; intros s d HG Hs; [exact Hs|].
  destruct (aboveRoot d); [|exact Hs].
  apply IH; [intros d' Hd'; apply HG; now right|].
  unfold addFolderNode.
  destruct (Js.mem d (folderPaths s)) eqn:Hm; [exact Hs|].
  assert (Hd : G d) by (apply HG; now left).
  destruct (negb _ && negb _); [apply I_edge|]; now apply I_folder.
Qed.

Lemma write_pass1File root sf s :
  visitsOk relative G root sf -> I s -> I (pass1File relative addE root sf s).
Proof.
  intros HG Hs. unfold pass1File. unfold visitsOk, insideRoot in HG.
  destruct (outsideRoot _); [exact Hs|]. specialize (HG eq_refl).
  set (rel := relativePathOf relative root (sf_path sf)).
  apply forEachIdx_invariant.
  { intros cls idx s0 _ Hs0. unfold registerClass.
    apply forEach_preserves.
    - intros m s1 Hs1. unfold registerMethod. apply I_edge.
      rewrite append_assoc. now apply I_decl.
    - apply I_edge. now apply I_decl. }
  apply forEach_preserves.
  { intros v s0 Hs0. unfold registerVariable.
    destruct (vd_init v) as [init|]; [|exact Hs0].
    destruct (isFunctionInitializer init); [|exact Hs0].
    destruct (negb _); [|exact Hs0].
    apply I_edge. now apply I_decl. }
  apply forEachIdx_invariant.
  { intros fn idx s0 _ Hs0. unfold _registerFunction.
    apply I_edge. now apply I_decl. }
  apply forEach_preserves.
  { intros imp s0 Hs0. unfold addImport.
    destruct (imp_resolved imp); [|exact Hs0].
    destruct (negb _); [now apply I_edge | exact Hs0]. }
  destruct (negb _); [apply I_edge|];
    apply I_file; auto; now apply write_addFolderNodes.
Qed.

Lemma write_pass1 root sfs s :
  Forall (visitsOk relative G root) sfs ->
  I s -> I (pass1 relative addE root sfs s).
Proof.
  intros HG Hs. unfold pass1.
  apply (forEach_invariant I (visitsOk relative G root)); auto.
  intros sf s0 Hsf Hs0. now apply write_pass1File.
Qed.

End WriteInvariant.

Lemma visitsOk_trivial relative root sfs :
  Forall (visitsOk relative (fun _ => True) root) sfs.
Proof. apply Forall_forall. intros sf _ _ d _. exact Logic.I. Qed.

(** What the initial state and pass 2 contribute: an invariant of the
    tables that pass 1 keeps holds of the final state. *)
Lemma finalState_tables relative root added
    (I : EngineState (JsMap.t ProjectEdge) -> Prop) :
  (forall s s', sameTables s s' -> I s -> I s') ->
  I (pass1 relative addEdge root (getSourceFiles added)
       (mkState JsMap.empty JsMap.empty JsMap.empty [])) ->
  I (finalState relative root added).
Proof.
  intros Hsame H1. unfold finalState, runPasses.
  eapply Hsame; [|exact H1]. apply sameTables_pass2.
Qed.

(** ** Keys of the node map *)

Lemma nodeKeys_NoDup relative root added :
  NoDup (JsMap.keys (nodesMap (finalState relative root added))).
Proof.
  apply (finalState_tables relative root added
           (fun s => NoDup (JsMap.keys (nodesMap s)))).
  { intros s s' (Hn & _). now rewrite Hn. }
  apply (write_pass1 relative addEdge
           (fun s => NoDup (JsMap.keys (nodesMap s))) (fun _ => True)).
  - auto.
  - intros d s _ _ Hs. simpl. now apply JsMapFacts.NoDup_keys_set.
  - intros rel n s _ Hs. simpl. now apply JsMapFacts.NoDup_keys_set.
  - intros rel rest key n s _ Hs. simpl. now apply JsMapFacts.NoDup_keys_set.
  - apply visitsOk_trivial.
  - constructor.
Qed.

Lemma finalState_nodesInv relative root added :
  nodesInv (fun _ => True) (fun _ => True)
           (nodesMap (finalState relative root added)).
Proof.
  apply (passes_facts relative root added _ _ (fileOk_trivial relative root _)).
Qed.

Lemma node_ids_keys (m : JsMap.t ProjectNode) :
  (forall k n, In (k, n) m -> k = node_id n) ->
  map node_id (JsMap.values m) = JsMap.keys m.
Proof.
  induction m as [|[k n] rest IH]; intros H; [reflexivity|].
  simpl. rewrite <- (H k n) by (now left). f_equal.
  apply IH. intros k' n' Hin. apply H. now right.
Qed.

Lemma NoDup_in_get {V : Type} (m : JsMap.t V) k v :
  NoDup (JsMap.keys m) -> In (k, v) m -> JsMap.get k m = Some v.
Proof.
  induction m as [|[k0 v0] rest IH]; simpl; intros Hnd Hin; [easy|].
  inversion Hnd as [|? ? Hnotin Hrest]; subst.
  destruct Hin as [[= -> ->]|Hin].
  - now rewrite String.eqb_refl.
  - destruct (String.eqb k k0) eqn:Hk; [|now apply IH].
    apply String.eqb_eq in Hk. subst k0. exfalso. apply Hnotin.
    unfold JsMap.keys. apply in_map_iff. now exists (k, v).
Qed.

(** X1 — the ids of the returned nodes are pairwise different: an id
    names one node of the graph. *)
Theorem node_ids_unique relative root added :
  NoDup (map node_id (nodes (analyze relative root added))).
Proof.
  unfold analyze, assemble. cbn [nodes].
  rewrite node_ids_keys; [apply nodeKeys_NoDup|].
  intros k n Hin. now apply (finalState_nodesInv relative root added).
Qed.

(** ** One edge for each pair and relation *)

Lemma NoDup_map_factor {A B C : Type} (f : A -> B) (g : B -> C) (l : list A) :
  NoDup (map (fun x => g (f x)) l) -> NoDup (map f l).
Proof.
  induction l as [|x l IH]; simpl; intros H; [constructor|].
  inversion H as [|? ? Hnotin Hrest]; subst. constructor; [|now apply IH].
  intros Hin. apply Hnotin. apply in_map_iff in Hin as (y & Hy & Hin).
  apply in_map_iff. exists y. split; [now rewrite Hy | exact Hin].
Qed.

(** Dropping entries keeps the keys of the others distinct. *)
Lemma kept_keys_distinct {V K : Type} (key : V -> K) (keep : V -> bool) :
  forall entries : list V,
    NoDup (map key entries) -> NoDup (map key (filter keep entries)).
Proof.
  intros entries. induction entries as [|v rest IH]; intros Hnd.
  - constructor.
  - cbn [map] in Hnd. apply NoDup_cons_iff in Hnd as [Hfresh Hrest].
    cbn [filter]. destruct (keep v); [|exact (IH Hrest)].
    cbn [map]. apply NoDup_cons; [|exact (IH Hrest)].
    rewrite in_map_iff. intros (w & Hw & Hin).
    apply filter_In in Hin as [Hin _].
    apply Hfresh. rewrite <- Hw. now apply in_map.
Qed.

Lemma edge_keys (log : list EdgeCall) (m : JsMap.t ProjectEdge) :
  (forall k e, In (k, e) m -> edgeEntryOk log k e) ->
  map (fun e => edgeKey (edge_from e) (edge_to e) (edge_relation e))
      (JsMap.values m)
  = JsMap.keys m.
Proof.
  induction m as [|[k e] rest IH]; intros H; [reflexivity|].
  simpl. destruct (H k e (or_introl eq_refl)) as [<- _]. f_equal.
  apply IH. intros k' e' Hin. apply H. now right.
Qed.

(** X2 — the returned graph has at most one edge for each triple of
    from, to and relation; repeated observations are merged into it. *)
Theorem edges_unique relative root added :
  NoDup (map edgeTriple (edges (analyze relative root added))).
Proof.
  unfold analyze, assemble. cbn [edges]. apply kept_keys_distinct.
  rewrite finalState_edges.
  destruct (replay_inv (edgeCalls relative root added)) as [Hnd Hall].
  apply (NoDup_map_factor edgeTriple
           (fun t => let '(f, t0, r) := t in edgeKey f t0 r)).
  unfold edgeTriple. cbn beta iota.
  rewrite (edge_keys _ _ Hall). exact Hnd.
Qed.

(** ** Registered ids are live *)

Lemma startsWith_file rel rest :
  Js.startsWith (("file:" ++ rel) ++ rest) "file:" = true.
Proof.
  unfold Js.startsWith. rewrite append_assoc. apply prefix_append.
Qed.

Lemma registryLive_final relative root added :
  registryLive (finalState relative root added).
Proof.
  apply (finalState_tables relative root added registryLive).
  { intros s s' (Hn & Hr & _) H name id. rewrite Hn, Hr. apply H. }
  apply (write_pass1 relative addEdge registryLive (fun _ => True)).
  - intros f t r s H. exact H.
  - intros d s _ _ H name id Hg. destruct (H name id Hg) as [Hh Hp].
    split; [|exact Hp]. simpl. now apply JsMapFacts.has_set_mono.
  - intros rel n s _ H name id Hg. destruct (H name id Hg) as [Hh Hp].
    split; [|exact Hp]. simpl. now apply JsMapFacts.has_set_mono.
  - intros rel rest key n s _ H name id Hg. simpl in Hg. simpl.
    destruct (string_dec name key) as [->|Hne].
    + rewrite JsMapFacts.get_set_same in Hg. injection Hg as <-.
      split; [apply JsMapFacts.has_set_same | apply startsWith_file].
    + rewrite JsMapFacts.get_set_other in Hg by exact Hne.
      destruct (H name id Hg) as [Hh Hp].
      split; [now apply JsMapFacts.has_set_mono | exact Hp].
  - apply visitsOk_trivial.
  - intros name id Hg. discriminate Hg.
Qed.

(** X3 — every id in the registry is the id of a returned node, so the
    liveness test of tier 1 never rejects a registered callee: tier 1
    misses a name only when it is not registered or is registered to the
    caller itself. *)
Theorem registry_targets_are_nodes relative root added :
  let final := finalState relative root added in
  let g := analyze relative root added in
  (forall name id,
      JsMap.get name (fnRegistry final) = Some id ->
      In id (map node_id (nodes g)))
  /\ (forall callerFnId calledName,
         tier1 (fnRegistry final) (nodesMap final) callerFnId calledName
         = match JsMap.get calledName (fnRegistry final) with
           | Some id => if String.eqb id callerFnId then None else Some id
           | None => None
           end).
Proof.
  intros final g. split.
  - intros name id Hg.
    destruct (registryLive_final relative root added name id Hg) as [Hh _].
    unfold g, analyze, assemble. cbn [nodes].
    apply (has_node_id _ _ _ _ (finalState_nodesInv relative root added) Hh).
  - intros caller name. unfold tier1.
    destruct (JsMap.get name (fnRegistry final)) as [id|] eqn:Hg; [|reflexivity].
    destruct (registryLive_final relative root added name id Hg) as [Hh Hp].
    fold final in Hh. rewrite Hh.
    assert (Ht : Js.truthy id = true).
    { unfold Js.startsWith in Hp. unfold Js.truthy.
      destruct id; [discriminate Hp | reflexivity]. }
    rewrite Ht. now destruct (String.eqb id caller).
Qed.

(** ** Folder nodes and seen directories *)

Lemma folder_ne_file d x : "folder:" ++ d <> "file:" ++ x.
Proof.
  change (String "f" (String "o" ("lder:" ++ d))
          <> String "f" (String "i" ("le:" ++ x))).
  discriminate.
Qed.

Lemma mem_snoc x l d : Js.mem x (l ++ [d]) = Js.mem x l || String.eqb x d.
Proof.
  unfold Js.mem. rewrite existsb_app. simpl. now rewrite orb_false_r.
Qed.

Section Folders.

Variable relative : string -> string -> string.
Context {E : Type}.
Variable addE : string -> string -> RelationType -> E -> E.
Variable D : string -> Prop.

Lemma foldersInv_pass1 root sfs (s : EngineState E) :
  Forall (visitsOk relative D root) sfs ->
  foldersInv D s -> foldersInv D (pass1 relative addE root sfs s).
Proof.
  apply (write_pass1 relative addE (foldersInv D) D).
  - intros f t r s0 H. exact H.
  - intros d s0 HD Hm [Ha Hb]. split.
    + intros d' Hd'. simpl in Hd'. rewrite mem_snoc in Hd'. simpl.
      destruct (string_dec d' d) as [->|Hne].
      * split; [exact HD | apply JsMapFacts.get_set_same].
      * apply String.eqb_neq in Hne. rewrite Hne, orb_false_r in Hd'.
        destruct (Ha d' Hd') as [HD' Hg]. split; [exact HD'|].
        rewrite JsMapFacts.get_set_other; [exact Hg|].
        intros Heq. apply append_inj_l in Heq. apply String.eqb_neq in Hne.
        congruence.
    + intros k n Hin Hty. simpl in Hin. simpl. rewrite mem_snoc.
      apply JsMapFacts.in_set in Hin as [[_ ->]|Hin].
      * simpl. now rewrite String.eqb_refl, orb_true_r.
      * now rewrite (Hb k n Hin Hty).
  - intros rel n s0 Hty [Ha Hb]. split.
    + intros d Hd. destruct (Ha d Hd) as [HD Hg]. split; [exact HD|].
      simpl. rewrite JsMapFacts.get_set_other; [exact Hg | apply folder_ne_file].
    + intros k n' Hin Hty'. simpl in Hin.
      apply JsMapFacts.in_set in Hin as [[_ ->]|Hin]; [congruence|].
      now apply (Hb k n').
  - intros rel rest key n s0 Hty [Ha Hb]. split.
    + intros d Hd. destruct (Ha d Hd) as [HD Hg]. split; [exact HD|].
      simpl. rewrite JsMapFacts.get_set_other; [exact Hg|].
      apply folderId_not_fileId.
    + intros k n' Hin Hty'. simpl in Hin.
      apply JsMapFacts.in_set in Hin as [[_ ->]|Hin]; [congruence|].
      now apply (Hb k n').
Qed.

(** The folder loop marks every directory it visits. *)
Lemma addFolderNodes_marks rel (s : EngineState E) :
  (forall d, Js.mem d (folderPaths s) = true ->
             Js.mem d (folderPaths (_addFolderNodes addE rel s)) = true)
  /\ (forall d, In d (ancestorDirs rel) ->
                Js.mem d (folderPaths (_addFolderNodes addE rel s)) = true).
Proof.
  unfold _addFolderNodes, ancestorDirs.
  generalize (Js.replaceBackslashes (Path.dirname rel)) as d0.
  generalize (S (String.length rel)) as fuel. intros fuel. revert s.
  induction fuel as [|fuel IH]; simpl; intros s d0; [split; [auto | easy]|].
  destruct (aboveRoot d0); [|split; [auto | easy]].
  destruct (IH (addFolderNode addE d0 s)
               (Js.replaceBackslashes (Path.dirname d0))) as [Hmono Hvis].
  assert (Hstep : forall d, Js.mem d (folderPaths s) = true ->
                            Js.mem d (folderPaths (addFolderNode addE d0 s)) = true).
  { intros d Hd. unfold addFolderNode.
    destruct (Js.mem d0 (folderPaths s)); [exact Hd|].
    destruct (negb _ && negb _); simpl; rewrite mem_snoc, Hd; reflexivity. }
  assert (Hd0 : Js.mem d0 (folderPaths (addFolderNode addE d0 s)) = true).
  { unfold addFolderNode.
    destruct (Js.mem d0 (folderPaths s)) eqn:Hm; [exact Hm|].
    destruct (negb _ && negb _); simpl;
      rewrite mem_snoc, String.eqb_refl, orb_true_r; reflexivity. }
  split.
  - intros d Hd. auto.
  - intros d [<-|Hd]; auto.
Qed.

(** The rest of the loop body leaves the seen directories alone. *)
Lemma folderPaths_pass1File root sf (s : EngineState E) :
  insideRoot relative root sf = true ->
  folderPaths (pass1File relative addE root sf s)
  = folderPaths (_addFolderNodes addE
                   (relativePathOf relative root (sf_path sf)) s).
Proof.
  unfold insideRoot, pass1File. intros Hin.
  apply negb_true_iff in Hin. rewrite Hin.
  set (rel := relativePathOf relative root (sf_path sf)).
  set (X := folderPaths (_addFolderNodes addE rel s)).
  apply (forEachIdx_invariant (fun s' : EngineState E => folderPaths s' = X)).
  { intros cls idx s0 _ Hs0. unfold registerClass.
    apply (forEach_preserves (fun s' : EngineState E => folderPaths s' = X));
      [intros m s1 Hs1; exact Hs1 | exact Hs0]. }
  apply (forEach_preserves (fun s' : EngineState E => folderPaths s' = X)).
  { intros v s0 Hs0. unfold registerVariable.
    destruct (vd_init v) as [init|]; [|exact Hs0].
    destruct (isFunctionInitializer init); [|exact Hs0].
    destruct (negb _); exact Hs0. }
  apply (forEachIdx_invariant (fun s' : EngineState E => folderPaths s' = X)).
  { intros fn idx s0 _ Hs0. exact Hs0. }
  apply (forEach_preserves (fun s' : EngineState E => folderPaths s' = X)).
  { intros imp s0 Hs0. unfold addImport.
    destruct (imp_resolved imp); [|exact Hs0]. destruct (negb _); exact Hs0. }
  destruct (negb _); reflexivity.
Qed.

Lemma marked_pass1File root sf (s : EngineState E) d :
  Js.mem d (folderPaths s) = true ->
  Js.mem d (folderPaths (pass1File relative addE root sf s)) = true.
Proof.
  intros Hd. destruct (insideRoot relative root sf) eqn:Hin.
  - rewrite folderPaths_pass1File by exact Hin.
    now apply (proj1 (addFolderNodes_marks _ _)).
  - unfold insideRoot in Hin. apply negb_false_iff in Hin.
    unfold pass1File. now rewrite Hin.
Qed.

Lemma marked_pass1 root sfs (s : EngineState E) sf d :
  In sf sfs -> insideRoot relative root sf = true ->
  In d (ancestorDirs (relativePathOf relative root (sf_path sf))) ->
  Js.mem d (folderPaths (pass1 relative addE root sfs s)) = true.
Proof.
  intros Hsf Hin Hd. apply in_split in Hsf as (l1 & l2 & ->).
  unfold pass1. rewrite forEach_app.
  change (forEach (pass1File relative addE root) (sf :: l2)
            (forEach (pass1File relative addE root) l1 s))
    with (forEach (pass1File relative addE root) l2
            (pass1File relative addE root sf
               (forEach (pass1File relative addE root) l1 s))).
  apply forEach_preserves.
  - intros sf' s' Hs'. now apply marked_pass1File.
  - rewrite folderPaths_pass1File by exact Hin.
    now apply (proj2 (addFolderNodes_marks _ _)).
Qed.

End Folders.

(** X4 — the folder nodes of the returned graph are exactly the ancestor
    directories of the source files that pass 1 processes: each such
    directory has its folder node, and every folder node is the node
    [_addFolderNodes] builds for such a directory. *)
Theorem folder_nodes_are_ancestor_dirs relative root added :
  let g := analyze relative root added in
  let processed sf :=
    In sf (getSourceFiles added) /\ insideRoot relative root sf = true in
  (forall sf d,
      processed sf ->
      In d (ancestorDirs (relativePathOf relative root (sf_path sf))) ->
      In (folderNode d) (nodes g))
  /\ (forall n,
         In n (nodes g) -> node_type n = folder ->
         n = folderNode (node_path n)
         /\ exists sf,
              processed sf
              /\ In (node_path n)
                    (ancestorDirs (relativePathOf relative root (sf_path sf)))).
Proof.
  intros g processed.
  set (D := fun d => exists sf,
                processed sf
                /\ In d (ancestorDirs (relativePathOf relative root (sf_path sf)))).
  set (s1 := pass1 relative addEdge root (getSourceFiles added)
               (mkState JsMap.empty JsMap.empty JsMap.empty [])).
  assert (Hinv : foldersInv D s1).
  { apply foldersInv_pass1.
    - apply Forall_forall. intros sf Hsf Hin d Hd. exists sf. now repeat split.
    - split; [intros d Hd; discriminate Hd | intros k n []]. }
  assert (Hs1 : sameTables s1 (finalState relative root added)).
  { unfold finalState, runPasses. apply sameTables_pass2. }
  destruct Hs1 as (Hn & _ & _). destruct Hinv as [Ha Hb].
  split.
  - intros sf d [Hsf Hin] Hd.
    assert (Hm : Js.mem d (folderPaths s1) = true).
    { unfold s1. now apply (marked_pass1 relative addEdge root _ _ sf). }
    destruct (Ha d Hm) as [_ Hg].
    unfold g, analyze, assemble. cbn [nodes]. rewrite Hn.
    apply JsMapFacts.in_values. exists ("folder:" ++ d).
    now apply JsMapFacts.get_in.
  - intros n Hin Hty.
    unfold g, analyze, assemble in Hin. cbn [nodes] in Hin.
    apply JsMapFacts.in_values in Hin as [k Hin].
    destruct (finalState_nodesInv relative root added k n Hin) as [Hk Hshape].
    unfold nodeShape in Hshape. rewrite Hty in Hshape. destruct Hshape as [Hid _].
    pose proof (NoDup_in_get _ _ _ (nodeKeys_NoDup relative root added) Hin)
      as Hget.
    rewrite Hn in Hin, Hget.
    destruct (Ha _ (Hb k n Hin Hty)) as [HD Hg].
    split; [|exact HD].
    rewrite Hk, Hid in Hget. congruence.
Qed.

(** ** Parents *)

Lemma dirname_nonempty p : Path.dirname p <> "".
Proof.
  unfold Path.dirname.
  destruct (list_ascii_of_string p) as [|c rest]; [discriminate|].
  destruct (Path.dropWhile _ _) as [|x before].
  - destruct (Path.isSlash c); discriminate.
  - destruct before; [destruct (Path.isSlash c); discriminate | discriminate].
Qed.

Lemma parentDir_nonempty p : Js.replaceBackslashes (Path.dirname p) <> "".
Proof.
  intros H. apply (f_equal String.length) in H.
  rewrite length_replaceBackslashes in H.
  pose proof (dirname_nonempty p) as Hne.
  destruct (Path.dirname p); [congruence | discriminate H].
Qed.

Lemma parentsLive_set k n m :
  parentsLive m ->
  (forall p, node_parentId n = Some p ->
             JsMap.has p (JsMap.set k n m) = true
             \/ (node_type n = file /\ p = "folder:/")) ->
  parentsLive (JsMap.set k n m).
Proof.
  intros Hm Hn k' n' p Hin Hp.
  apply JsMapFacts.in_set in Hin as [[_ ->]|Hin]; [now apply Hn|].
  destruct (Hm k' n' p Hin Hp) as [Hh|Hh]; [left | now right].
  now apply JsMapFacts.has_set_mono.
Qed.

Section Parents.

Variable relative : string -> string -> string.
Context {E : Type}.
Variable addE : string -> string -> RelationType -> E -> E.

Lemma has_pass1 root sfs id (s : EngineState E) :
  JsMap.has id (nodesMap s) = true ->
  JsMap.has id (nodesMap (pass1 relative addE root sfs s)) = true.
Proof.
  apply (write_pass1 relative addE
           (fun s' : EngineState E => JsMap.has id (nodesMap s') = true)
           (fun _ => True)).
  - intros f t r s0 H. exact H.
  - intros d s0 _ _ H. simpl. now apply JsMapFacts.has_set_mono.
  - intros rel n s0 _ H. simpl. now apply JsMapFacts.has_set_mono.
  - intros rel rest key n s0 _ H. simpl. now apply JsMapFacts.has_set_mono.
  - apply Forall_forall. intros sf _ _ d _. exact Logic.I.
Qed.

Lemma pass1_skip root sfs (s : EngineState E) :
  pass1 relative addE root sfs s
  = pass1 relative addE root (filter (insideRoot relative root) sfs) s.
Proof.
  unfold pass1, forEach. revert s.
  induction sfs as [|sf sfs IH]; intros s; [reflexivity|].
  cbn [filter fold_left]. destruct (insideRoot relative root sf) eqn:Hin.
  - cbn [fold_left]. apply IH.
  - unfold insideRoot in Hin. apply negb_false_iff in Hin.
    unfold pass1File at 2. rewrite Hin. apply IH.
Qed.

Lemma parentsInv_setNode k n (s : EngineState E) :
  (forall p, node_parentId n = Some p ->
             JsMap.has p (JsMap.set k n (nodesMap s)) = true
             \/ (node_type n = file /\ p = "folder:/")) ->
  parentsInv s -> parentsInv (setNode k n s).
Proof.
  intros Hn [Hl Hf]. split; simpl.
  - now apply parentsLive_set.
  - intros d Hd. apply JsMapFacts.has_set_mono. now apply Hf.
Qed.

Lemma parentsInv_addFolderNodes rel (s : EngineState E) :
  parentsInv s -> parentsInv (_addFolderNodes addE rel s).
Proof.
  apply (write_addFolderNodes addE parentsInv (fun _ => True)).
  - intros f t r s0 H. exact H.
  - intros d s0 _ _ [Hl Hf]. split; simpl.
    + apply parentsLive_set; [exact Hl | discriminate].
    + intros d' Hd'. rewrite mem_snoc in Hd'.
      destruct (String.eqb d' d) eqn:He.
      * apply String.eqb_eq in He as ->. apply JsMapFacts.has_set_same.
      * rewrite orb_false_r in Hd'. apply JsMapFacts.has_set_mono. now apply Hf.
  - intros d _. exact Logic.I.
Qed.

(** A node whose parent is already there, and the edge from the parent. *)
Lemma parentsInv_child k n x key f t r (s : EngineState E) :
  node_parentId n = Some x ->
  parentsInv s /\ JsMap.has x (nodesMap s) = true ->
  parentsInv (withEdge addE f t r (setNode k n (register key k s)))
  /\ JsMap.has x
       (nodesMap (withEdge addE f t r (setNode k n (register key k s)))) = true.
Proof.
  intros Hp [Hs Hx]. split.
  - apply (parentsInv_setNode k n (register key k s)); [|exact Hs].
    intros p Hp'. left. simpl. apply JsMapFacts.has_set_mono. congruence.
  - simpl. now apply JsMapFacts.has_set_mono.
Qed.

Lemma parentsInv_pass1File root sf (s : EngineState E) :
  parentsInv s ->
  parentsInv (pass1File relative addE root sf s)
  /\ (insideRoot relative root sf = true ->
      JsMap.has ("file:" ++ relativePathOf relative root (sf_path sf))
                (nodesMap (pass1File relative addE root sf s)) = true).
Proof.
  intros Hs. unfold insideRoot, pass1File.
  destruct (outsideRoot _); [split; [exact Hs | discriminate]|].
  set (rel := relativePathOf relative root (sf_path sf)).
  set (fid := "file:" ++ rel).
  set (J := fun s' : EngineState E =>
              parentsInv s' /\ JsMap.has fid (nodesMap s') = true).
  enough (HJ : J (forEachIdx (registerClass addE fid rel) (sf_classes sf)
                (forEach (registerVariable addE fid rel) (sf_variables sf)
                   (forEachIdx
                      (fun fn idx => _registerFunction addE fn idx fid rel)
                      (sf_functions sf)
                      (forEach (addImport relative addE root fid) (sf_imports sf)
                         (if negb (String.eqb
                                     (Js.replaceBackslashes (Path.dirname rel)) ".")
                          then withEdge addE
                                 ("folder:" ++ Js.replaceBackslashes (Path.dirname rel))
                                 fid contains
                                 (setNode fid
                                    (fileNode fid rel
                                       (Js.replaceBackslashes (Path.dirname rel)) sf)
                                    (_addFolderNodes addE rel s))
                          else setNode fid
                                 (fileNode fid rel
                                    (Js.replaceBackslashes (Path.dirname rel)) sf)
                                 (_addFolderNodes addE rel s)))))))
    by (split; [exact (proj1 HJ) | intros _; exact (proj2 HJ)]).
  apply forEachIdx_invariant.
  { intros cls idx s0 _ Hs0. unfold registerClass.
    set (clsId := fid ++ ":cls:" ++ classNameOf cls idx).
    apply (forEach_preserves
             (fun s' : EngineState E =>
                J s' /\ JsMap.has clsId (nodesMap s') = true)).
    - intros m s1 [[Hs1 Hf1] Hc1]. unfold registerMethod.
      split; [split|].
      + apply parentsInv_child with (x := clsId); [reflexivity | now split].
      + simpl. now apply JsMapFacts.has_set_mono.
      + simpl. now apply JsMapFacts.has_set_mono.
    - split.
      + apply parentsInv_child with (x := fid); [reflexivity | exact Hs0].
      + simpl. apply JsMapFacts.has_set_same. }
  apply forEach_preserves.
  { intros v s0 Hs0. unfold registerVariable.
    destruct (vd_init v) as [init|]; [|exact Hs0].
    destruct (isFunctionInitializer init); [|exact Hs0].
    destruct (negb _); [|exact Hs0].
    apply parentsInv_child with (x := fid); [reflexivity | exact Hs0]. }
  apply forEachIdx_invariant.
  { intros fn idx s0 _ Hs0. unfold _registerFunction.
    apply parentsInv_child with (x := fid); [reflexivity | exact Hs0]. }
  apply forEach_preserves.
  { intros imp s0 Hs0. unfold addImport.
    destruct (imp_resolved imp); [|exact Hs0]. destruct (negb _); exact Hs0. }
  assert (H2 : J (setNode fid
                    (fileNode fid rel (Js.replaceBackslashes (Path.dirname rel)) sf)
                    (_addFolderNodes addE rel s))).
  { pose proof (parentsInv_addFolderNodes rel s Hs) as H1.
    split; [|simpl; apply JsMapFacts.has_set_same].
    apply parentsInv_setNode; [|exact H1].
    intros p Hp. cbn [fileNode node_parentId node_type] in Hp |- *.
    destruct (String.eqb (Js.replaceBackslashes (Path.dirname rel)) ".") eqn:Hdot;
      [discriminate Hp|].
    injection Hp as <-.
    destruct (aboveRoot (Js.replaceBackslashes (Path.dirname rel))) eqn:Hab.
    - left. apply JsMapFacts.has_set_mono. apply (proj2 H1).
      apply (proj2 (addFolderNodes_marks addE rel s)).
      unfold ancestorDirs. simpl. rewrite Hab. now left.
    - right. split; [reflexivity|]. unfold aboveRoot in Hab.
      rewrite Hdot in Hab. simpl in Hab.
      destruct (String.eqb (Js.replaceBackslashes (Path.dirname rel)) "") eqn:He.
      + apply String.eqb_eq in He. now apply parentDir_nonempty in He.
      + simpl in Hab. apply negb_false_iff, String.eqb_eq in Hab.
        now rewrite Hab. }
  destruct (negb _); exact H2.
Qed.

End Parents.

(** X5 — every [parentId] of a returned node is the id of a returned
    node: the folder of a file, the file of a function or class, the class
    of a method.  The one exception is a file whose directory is the
    filesystem root: its [parentId] is ["folder:/"], and the folder loop
    stops before it makes that node. *)
Theorem parent_ids_are_nodes relative root added :
  let g := analyze relative root added in
  forall n p,
    In n (nodes g) -> node_parentId n = Some p ->
    In p (map node_id (nodes g))
    \/ (node_type n = file /\ p = "folder:/"
        /\ Js.replaceBackslashes (Path.dirname (node_path n)) = "/").
Proof.
  intros g n p Hin Hp.
  assert (Hinv : parentsInv
                   (pass1 relative addEdge root (getSourceFiles added)
                      (mkState JsMap.empty JsMap.empty JsMap.empty []))).
  { unfold pass1. apply forEach_preserves.
    - intros sf s Hs. now apply (parentsInv_pass1File relative addEdge).
    - split; [intros k n0 p0 [] | intros d Hd; discriminate Hd]. }
  assert (Hs1 : sameTables
                  (pass1 relative addEdge root (getSourceFiles added)
                     (mkState JsMap.empty JsMap.empty JsMap.empty []))
                  (finalState relative root added)).
  { unfold finalState, runPasses. apply sameTables_pass2. }
  destruct Hs1 as (Hn & _ & _). destruct Hinv as [Hl _]. rewrite <- Hn in Hl.
  unfold g, analyze, assemble in Hin |- *. cbn [nodes] in Hin |- *.
  apply JsMapFacts.in_values in Hin as [k Hin].
  destruct (Hl k n p Hin Hp) as [Hh|[Hty ->]].
  - left.
    apply (has_node_id _ _ _ _ (finalState_nodesInv relative root added) Hh).
  - right. repeat split; [exact Hty|].
    destruct (finalState_nodesInv relative root added k n Hin) as [_ Hshape].
    unfold nodeShape in Hshape. rewrite Hty in Hshape.
    destruct Hshape as (_ & _ & Hpar). rewrite Hpar in Hp.
    unfold fileParentId in Hp.
    destruct (String.eqb _ "."); [discriminate Hp|].
    injection Hp as Hp. exact Hp.
Qed.

(** In [helperProject] the file [src/b.ts] has the folder [src] as its
    parent, and that folder is a node. *)
Lemma parent_ids_are_nodes_witness :
  In "folder:src"
     (map node_id (nodes (analyze PosixRelative.relative "/repo" helperProject))).
Proof.
  destruct (parent_ids_are_nodes PosixRelative.relative "/repo" helperProject
              (fileNode "file:src/b.ts" "src/b.ts" "src" mainFile) "folder:src")
    as [H|(_ & H & _)].
  - vm_compute. auto 10.
  - vm_compute. reflexivity.
  - exact H.
  - discriminate H.
Defined.

(** ** Which files leave nodes *)

(** X6 — every file, function and class node of the returned graph
    belongs to a source file that survived the removals and whose path
    relative to the root neither starts with [..] nor mentions
    [node_modules]: the files that pass 1 skips leave no node. *)
Theorem nodes_belong_to_processed_files relative root added :
  Forall (fun n =>
            node_type n <> folder ->
            outsideRoot (node_path n) = false
            /\ exists sf,
                 In sf (getSourceFiles added)
                 /\ node_path n = relativePathOf relative root (sf_path sf))
         (nodes (analyze relative root added)).
Proof.
  apply Forall_forall. intros n Hin Hty.
  unfold analyze, assemble in Hin. cbn [nodes] in Hin.
  apply JsMapFacts.in_values in Hin as [k Hin].
  rewrite finalState_nodes_pass1, pass1_skip in Hin.
  set (P := fun p => outsideRoot p = false
                     /\ exists sf, In sf (getSourceFiles added)
                                   /\ p = relativePathOf relative root (sf_path sf)).
  assert (Hinv : inv1 P (fun _ => True)
                   (pass1 relative recordEdge root
                      (filter (insideRoot relative root) (getSourceFiles added))
                      (mkState JsMap.empty [] JsMap.empty []))).
  { apply inv_pass1.
    - apply Forall_forall. intros sf Hsf. apply filter_In in Hsf as [Hsf Hi].
      unfold insideRoot in Hi. apply negb_true_iff in Hi.
      split; [split; [exact Hi | now exists sf] | auto].
    - split; [intros k0 n0 [] | constructor]. }
  destruct Hinv as [Hn _]. destruct (Hn _ _ Hin) as [_ Hshape].
  unfold nodeShape in Hshape.
  destruct (node_type n); [congruence | | | |]; try (exact (proj1 Hshape)).
  destruct Hshape.
Qed.

(** X7 — the graph is empty exactly when pass 1 processes no file, and
    only then does the upload route report that no source files were
    found; as soon as one file is processed the route goes on to save the
    graph. *)
Theorem empty_graph_iff_nothing_processed relative persist root added :
  let g := analyze relative root added in
  let anyProcessed :=
    existsb (insideRoot relative root) (getSourceFiles added) in
  (nodes g = [] <-> anyProcessed = false)
  /\ analyzeAndReport relative persist root added
     = EvProgress 75
         ("Found " ++ Js.ofNat (length (nodes g)) ++ " nodes and "
            ++ Js.ofNat (length (edges g)) ++ " edges. Saving to database...")
       :: (if anyProcessed then persist g else [EvError noSourceMessage]).
Proof.
  intros g anyProcessed.
  assert (Hiff : nodes g = [] <-> anyProcessed = false).
  { unfold g, analyze, assemble. cbn [nodes].
    assert (Hs1 : sameTables
                    (pass1 relative addEdge root (getSourceFiles added)
                       (mkState JsMap.empty JsMap.empty JsMap.empty []))
                    (finalState relative root added)).
    { unfold finalState, runPasses. apply sameTables_pass2. }
    destruct Hs1 as (Hn & _ & _). rewrite Hn.
    unfold anyProcessed. split.
    - intros Hnil. destruct (existsb _ _) eqn:Hex; [|reflexivity].
      apply existsb_exists in Hex as (sf & Hsf & Hi). exfalso.
      apply in_split in Hsf as (l1 & l2 & Hsplit). rewrite Hsplit in Hnil.
      unfold pass1 in Hnil. rewrite forEach_app in Hnil.
      change (forEach (pass1File relative addEdge root) (sf :: l2) ?s)
        with (pass1 relative addEdge root l2
                (pass1File relative addEdge root sf s)) in Hnil.
      match type of Hnil with
      | JsMap.values (nodesMap (pass1 _ _ _ _ (pass1File _ _ _ _ ?s0))) = [] =>
          assert (Hh : JsMap.has
                         ("file:" ++ relativePathOf relative root (sf_path sf))
                         (nodesMap (pass1 relative addEdge root l2
                                      (pass1File relative addEdge root sf s0)))
                       = true)
      end.
      { apply has_pass1. unfold insideRoot in Hi. apply negb_true_iff in Hi.
        unfold pass1File. rewrite Hi.
        apply (forEachIdx_invariant
                 (fun s' : EngineState (JsMap.t ProjectEdge) =>
                    JsMap.has
                      ("file:" ++ relativePathOf relative root (sf_path sf))
                      (nodesMap s') = true)).
        { intros cls idx s0 _ Hs0. unfold registerClass.
          apply forEach_preserves.
          - intros m s1 Hs1. simpl. now apply JsMapFacts.has_set_mono.
          - simpl. now apply JsMapFacts.has_set_mono. }
        apply forEach_preserves.
        { intros v s0 Hs0. unfold registerVariable.
          destruct (vd_init v) as [init|]; [|exact Hs0].
          destruct (isFunctionInitializer init); [|exact Hs0].
          destruct (negb _); [|exact Hs0].
          simpl. now apply JsMapFacts.has_set_mono. }
        apply forEachIdx_invariant.
        { intros fn idx s0 _ Hs0. simpl. now apply JsMapFacts.has_set_mono. }
        apply forEach_preserves.
        { intros imp s0 Hs0. unfold addImport.
          destruct (imp_resolved imp); [|exact Hs0]. destruct (negb _); exact Hs0. }
        destruct (negb _); simpl; apply JsMapFacts.has_set_same. }
      apply JsMapFacts.has_in in Hh as [n Hin].
      assert (Hv : In n (JsMap.values
                           (nodesMap (pass1 relative addEdge root l2
                              (pass1File relative addEdge root sf
                                 (forEach (pass1File relative addEdge root) l1
                                    (mkState JsMap.empty JsMap.empty
                                             JsMap.empty []))))))).
      { apply JsMapFacts.in_values. eauto. }
      rewrite Hnil in Hv. destruct Hv.
    - intros Hex. rewrite pass1_skip.
      assert (Hf : filter (insideRoot relative root) (getSourceFiles added) = []).
      { apply filter_none. intros sf Hsf.
        destruct (insideRoot relative root sf) eqn:Hi; [|reflexivity].
        assert (existsb (insideRoot relative root) (getSourceFiles added) = true)
          by (apply existsb_exists; eauto).
        congruence. }
      rewrite Hf. reflexivity. }
  split; [exact Hiff|].
  unfold analyzeAndReport, afterAnalysis. fold g. f_equal.
  destruct anyProcessed.
  - destruct (nodes g) as [|n ns] eqn:Hg; [|reflexivity].
    destruct Hiff as [Hiff _]. discriminate (Hiff eq_refl).
  - destruct Hiff as [_ Hiff]. now rewrite (Hiff eq_refl).
Qed.

(** ** The structure does not depend on the call expressions *)

Lemma getSourceFiles_withoutCalls added :
  getSourceFiles (map withoutCalls added) = map withoutCalls (getSourceFiles added).
Proof.
  unfold getSourceFiles.
  induction added as [|sf added IH]; [reflexivity|].
  cbn [map filter]. change (sf_path (withoutCalls sf)) with (sf_path sf).
  destruct (negb (removedFromProject (sf_path sf))); cbn [map]; now rewrite IH.
Qed.

Section WithoutCalls.

Variable relative : string -> string -> string.
Context {E : Type}.
Variable addE : string -> string -> RelationType -> E -> E.

Lemma pass1_withoutCalls root sfs (s : EngineState E) :
  pass1 relative addE root (map withoutCalls sfs) s
  = pass1 relative addE root sfs s.
Proof.
  unfold pass1, forEach. revert s.
  induction sfs as [|sf sfs IH]; intros s; [reflexivity|].
  cbn [map fold_left].
  change (pass1File relative addE root (withoutCalls sf) s)
    with (pass1File relative addE root sf s).
  apply IH.
Qed.

Lemma pass2_withoutCalls root sfs (s : EngineState E) :
  pass2 relative addE root (map withoutCalls sfs) s = s.
Proof.
  unfold pass2, forEach. revert s.
  induction sfs as [|sf sfs IH]; intros s; [reflexivity|].
  cbn [map fold_left].
  replace (pass2File relative addE root (withoutCalls sf) s) with s; [apply IH|].
  unfold pass2File. now destruct (outsideRoot _).
Qed.

End WithoutCalls.

Lemma set_absent {V : Type} k (v : V) m :
  JsMap.get k m = None -> JsMap.set k v m = (m ++ [(k, v)])%list.
Proof.
  induction m as [|[k0 v0] rest IH]; simpl; intros H; [reflexivity|].
  destruct (String.eqb k k0); [discriminate H|]. now rewrite IH.
Qed.

Lemma filter_values_set {V : Type} (p : V -> bool) k (v v' : V) m :
  JsMap.get k m = Some v -> p v = false -> p v' = false ->
  filter p (JsMap.values (JsMap.set k v' m)) = filter p (JsMap.values m).
Proof.
  unfold JsMap.values.
  induction m as [|[k0 v0] rest IH]; simpl; intros H Hv Hv'; [discriminate H|].
  destruct (String.eqb k k0).
  - injection H as ->. simpl. now rewrite Hv, Hv'.
  - simpl. now rewrite IH.
Qed.

Lemma filter_all {A : Type} (p : A -> bool) (l : list A) :
  (forall x, In x l -> p x = true) -> filter p l = l.
Proof.
  induction l as [|x l IH]; simpl; intros H; [reflexivity|].
  rewrite (H x) by auto. f_equal. apply IH. auto.
Qed.

Lemma filter_swap {A : Type} (p q : A -> bool) (l : list A) :
  filter p (filter q l) = filter q (filter p l).
Proof.
  induction l as [|x l IH]; [reflexivity|]. simpl.
  destruct (q x) eqn:Hq, (p x) eqn:Hp; simpl; rewrite ?Hq, ?Hp, IH; reflexivity.
Qed.

(** A call of [addEdge] for a calls edge leaves the other edges as they
    are, and in their places. *)
Lemma structure_kept_addEdge log m f t :
  edgesInv log m ->
  filter (fun e => negb (isCallsEdge e)) (JsMap.values (addEdge f t calls m))
  = filter (fun e => negb (isCallsEdge e)) (JsMap.values m).
Proof.
  intros [_ Hall]. unfold addEdge.
  destruct (JsMap.get (edgeKey f t calls) m) as [e|] eqn:Hget.
  - cbn [RelationType_eqb].
    assert (Hr : edge_relation e = calls).
    { apply JsMapFacts.get_in in Hget. destruct (Hall _ _ Hget) as [Hk _].
      symmetry. now apply edgeKey_relation in Hk. }
    apply (filter_values_set _ _ e); [exact Hget | |];
      unfold isCallsEdge; cbn [edge_relation]; now rewrite Hr.
  - rewrite set_absent by exact Hget.
    unfold JsMap.values. rewrite map_app, filter_app. simpl. apply app_nil_r.
Qed.

Lemma structure_kept_calls log' :
  Forall (fun c : EdgeCall => snd c = calls) log' ->
  forall log m,
    edgesInv log m ->
    filter (fun e => negb (isCallsEdge e))
           (JsMap.values (fold_left applyEdgeCall log' m))
    = filter (fun e => negb (isCallsEdge e)) (JsMap.values m).
Proof.
  induction 1 as [|[[f t] r] log' Hc _ IH]; intros log m Hm; [reflexivity|].
  simpl in Hc. subst r. cbn [fold_left applyEdgeCall].
  rewrite (IH (log ++ [(f, t, calls)])%list) by now apply edgesInv_addEdge.
  now apply (structure_kept_addEdge log).
Qed.

(** X8 — the call expressions of the source files only add calls
    edges: analysing the same files with every call expression taken out
    gives the same nodes in the same order, and the edges of the full
    graph that are not calls edges, in the same order. *)
Theorem structure_does_not_depend_on_calls relative root added :
  let g := analyze relative root added in
  let g0 := analyze relative root (map withoutCalls added) in
  nodes g0 = nodes g
  /\ edges g0 = filter (fun e => negb (isCallsEdge e)) (edges g)
  /\ Forall (fun e => edge_relation e <> calls) (edges g0).
Proof.
  intros g g0.
  assert (Hnodes : nodesMap (finalState relative root (map withoutCalls added))
                   = nodesMap (finalState relative root added)).
  { rewrite !finalState_nodes_pass1, getSourceFiles_withoutCalls.
    now rewrite pass1_withoutCalls. }
  assert (Hstruct : structureEdgeCalls relative root (map withoutCalls added)
                    = structureEdgeCalls relative root added).
  { unfold structureEdgeCalls, pass1Tables.
    now rewrite getSourceFiles_withoutCalls, pass1_withoutCalls. }
  assert (Hobs : callObservations relative root (map withoutCalls added) = []).
  { unfold callObservations.
    now rewrite getSourceFiles_withoutCalls, pass2_withoutCalls. }
  destruct (passes_facts relative root added _ _
              (fileOk_trivial relative root _)) as (_ & Hs & Hc).
  assert (Hkeep : filter (fun e => negb (isCallsEdge e))
                    (JsMap.values (replay (structureEdgeCalls relative root added)))
                  = JsMap.values (replay (structureEdgeCalls relative root added))).
  { apply filter_all. intros e He.
    apply JsMapFacts.in_values in He as [k He].
    destruct (replay_inv (structureEdgeCalls relative root added)) as [_ Hall].
    destruct (Hall _ _ He) as (_ & Hlog & _).
    rewrite Forall_forall in Hs. specialize (Hs _ Hlog).
    unfold structural in Hs. simpl in Hs. unfold isCallsEdge.
    destruct (edge_relation e); try reflexivity. now elim Hs. }
  assert (Hedges : edges g0 = filter (fun e => negb (isCallsEdge e)) (edges g)).
  { unfold g0, g, analyze, assemble. cbn [edges]. rewrite Hnodes.
    rewrite !finalState_edges, !edgeCalls_split, Hstruct, Hobs, app_nil_r.
    rewrite filter_swap. f_equal.
    unfold replay at 2. rewrite fold_left_app.
    fold (replay (structureEdgeCalls relative root added)).
    assert (Hcalls : Forall (fun c : EdgeCall => snd c = calls)
                       (callObservations relative root added)).
    { apply Forall_forall. intros [[f t] r] Hin.
      rewrite Forall_forall in Hc. now destruct (Hc _ Hin) as [-> _]. }
    rewrite (structure_kept_calls _ Hcalls
               (structureEdgeCalls relative root added))
      by apply replay_inv.
    now rewrite Hkeep. }
  split; [|split; [exact Hedges|]].
  - unfold g0, g, analyze, assemble. cbn [nodes]. now rewrite Hnodes.
  - rewrite Hedges. apply Forall_forall. intros e He.
    apply filter_In in He as [_ He]. unfold isCallsEdge in He.
    intros Hr. rewrite Hr in He. discriminate He.
Qed.

(** ** The folder loop walks up the directories *)

Lemma ancestorsFrom_bound fuel :
  forall d x,
    In x (ancestorsFrom fuel d) ->
    aboveRoot x = true /\ String.length x <= String.length d.
Proof.
  induction fuel as [|fuel IH]; simpl; intros d x Hx; [destruct Hx|].
  destruct (aboveRoot d) eqn:Ha; [|destruct Hx].
  destruct Hx as [<-|Hx]; [split; [exact Ha | lia]|].
  destruct (IH _ _ Hx) as [Hax Hlen]. split; [exact Hax|].
  destruct (aboveRoot_dirname d) as [H|H]; [|lia].
  destruct fuel; simpl in Hx; [destruct Hx|]. rewrite H in Hx. destruct Hx.
Qed.

Lemma ancestorsFrom_NoDup fuel : forall d, NoDup (ancestorsFrom fuel d).
Proof.
  induction fuel as [|fuel IH]; simpl; intros d; [constructor|].
  destruct (aboveRoot d) eqn:Ha; [|constructor].
  constructor; [|apply IH].
  intros Hin.
  destruct (aboveRoot_dirname d) as [H|H].
  - destruct fuel; simpl in Hin; [destruct Hin|]. rewrite H in Hin. destruct Hin.
  - apply ancestorsFrom_bound in Hin. lia.
Qed.

Lemma addFolderNodesLoop_fold {E : Type}
    (addE : string -> string -> RelationType -> E -> E) fuel :
  forall d (st : EngineState E),
    addFolderNodesLoop addE fuel d st
    = forEach (addFolderNode addE) (ancestorsFrom fuel d) st.
Proof.
  induction fuel as [|fuel IH]; simpl; intros d st; [reflexivity|].
  destruct (aboveRoot d); [|reflexivity].
  rewrite IH. reflexivity.
Qed.

(** X9 — the folder loop of [_addFolderNodes] ends: run with any larger
    bound on its iterations it gives the same state, which is the loop body
    applied to the directories above the file, from the nearest one up.
    Each of them is shorter than the path of the file and none is [.], the
    empty path or [/]; no directory is visited twice. *)
Theorem folder_loop_walks_the_ancestors {E : Type}
    (addE : string -> string -> RelationType -> E -> E)
    relativePath (st : EngineState E) extra :
  addFolderNodesLoop addE (S (String.length relativePath) + extra)
    (Js.replaceBackslashes (Path.dirname relativePath)) st
  = forEach (addFolderNode addE) (ancestorDirs relativePath) st
  /\ Forall (fun d => aboveRoot d = true
                      /\ String.length d < String.length relativePath)
            (ancestorDirs relativePath)
  /\ NoDup (ancestorDirs relativePath).
Proof.
  split; [|split].
  - rewrite addFolderNodes_terminates. unfold _addFolderNodes, ancestorDirs.
    apply addFolderNodesLoop_fold.
  - apply Forall_forall. intros d Hd. unfold ancestorDirs in Hd.
    pose proof Hd as Hd'. apply ancestorsFrom_bound in Hd' as [Ha Hlen].
    split; [exact Ha|].
    destruct (aboveRoot_dirname relativePath) as [H|H]; [|lia].
    simpl in Hd. rewrite H in Hd. destruct Hd.
  - apply ancestorsFrom_NoDup.
Qed.

(** ** The optional fields of a node *)

Section Built.

Variable relative : string -> string -> string.
Context {E : Type}.
Variable addE : string -> string -> RelationType -> E -> E.
Variable P : ProjectNode -> Prop.

Hypothesis P_folder : forall d, P (folderNode d).
Hypothesis P_file : forall fid rel parentDir sf, P (fileNode fid rel parentDir sf).
Hypothesis P_function : forall id name rel fid fn, P (functionNode id name rel fid fn).
Hypothesis P_variable :
  forall id name rel fid v init, P (variableNode id name rel fid v init).
Hypothesis P_class : forall id name rel fid cls, P (classNode id name rel fid cls).
Hypothesis P_method : forall id name rel clsId m, P (methodNode id name rel clsId m).





End Built.


(** ** The ends of the edges *)

Section EdgeShapes.

Variable relative : string -> string -> string.

Lemma shaped_withEdge f t r (s : EngineState (list EdgeCall)) :
  edgeShape (f, t, r) ->
  Forall edgeShape (edgesAcc s) ->
  Forall edgeShape (edgesAcc (withEdge recordEdge f t r s)).
Proof.
  intros Hc Hs. simpl. unfold recordEdge. apply Forall_app. split; [exact Hs|].
  now constructor.
Qed.

Lemma append_empty_r s : s ++ "" = s.
Proof.
  induction s as [|c s IH]; [reflexivity|].
  change (String c s ++ "") with (String c (s ++ "")). now rewrite IH.
Qed.

Lemma shaped_child f kind name key n (s : EngineState (list EdgeCall)) :
  (exists rel rest, f = ("file:" ++ rel) ++ rest) ->
  In kind [":fn:"; ":cls:"; ":method:"] ->
  Forall edgeShape (edgesAcc s) ->
  Forall edgeShape
    (edgesAcc
       (withEdge recordEdge f (f ++ kind ++ name) contains
          (setNode (f ++ kind ++ name) n
             (register key (f ++ kind ++ name) s)))).
Proof.
  intros (rel & rest & Hf) Hkind Hs. apply shaped_withEdge; [|exact Hs].
  right. exists rel, rest. split; [exact Hf|]. now exists kind, name.
Qed.

Lemma shaped_addFolderNodes rel (s : EngineState (list EdgeCall)) :
  Forall edgeShape (edgesAcc s) ->
  Forall edgeShape (edgesAcc (_addFolderNodes recordEdge rel s)).
Proof.
  unfold _addFolderNodes.
  generalize (Js.replaceBackslashes (Path.dirname rel)) as d.
  generalize (S (String.length rel)) as fuel. intros fuel. revert s.
  induction fuel as [|fuel IH]; simpl; intros s d Hs; [exact Hs|].
  destruct (aboveRoot d); [|exact Hs]. apply IH.
  unfold addFolderNode. destruct (Js.mem d (folderPaths s)); [exact Hs|].
  destruct (negb _ && negb _); [|exact Hs].
  apply (shaped_withEdge _ _ _ (setNode _ _ (markFolder d s))); [|exact Hs].
  left. exists d. auto.
Qed.

Lemma shaped_pass1File root sf (s : EngineState (list EdgeCall)) :
  Forall edgeShape (edgesAcc s) ->
  Forall edgeShape (edgesAcc (pass1File relative recordEdge root sf s)).
Proof.
  intros Hs. unfold pass1File. destruct (outsideRoot _); [exact Hs|].
  set (rel := relativePathOf relative root (sf_path sf)).
  apply (forEachIdx_invariant
           (fun s' : EngineState (list EdgeCall) =>
              Forall edgeShape (edgesAcc s'))).
  { intros cls idx s0 _ Hs0. unfold registerClass.
    apply (forEach_preserves
             (fun s' : EngineState (list EdgeCall) =>
                Forall edgeShape (edgesAcc s'))).
    - intros m s1 Hs1. unfold registerMethod.
      apply shaped_child; [|simpl; auto | exact Hs1].
      now exists rel, (":cls:" ++ classNameOf cls idx).
    - apply shaped_child; [|simpl; auto | exact Hs0].
      exists rel, "". now rewrite append_empty_r. }
  apply (forEach_preserves
           (fun s' : EngineState (list EdgeCall) =>
              Forall edgeShape (edgesAcc s'))).
  { intros v s0 Hs0. unfold registerVariable.
    destruct (vd_init v) as [init|]; [|exact Hs0].
    destruct (isFunctionInitializer init); [|exact Hs0].
    destruct (negb _); [|exact Hs0].
    apply shaped_child; [|simpl; auto | exact Hs0].
    exists rel, "". now rewrite append_empty_r. }
  apply (forEachIdx_invariant
           (fun s' : EngineState (list EdgeCall) =>
              Forall edgeShape (edgesAcc s'))).
  { intros fn idx s0 _ Hs0. unfold _registerFunction.
    apply shaped_child; [|simpl; auto | exact Hs0].
    exists rel, "". now rewrite append_empty_r. }
  apply (forEach_preserves
           (fun s' : EngineState (list EdgeCall) =>
              Forall edgeShape (edgesAcc s'))).
  { intros imp s0 Hs0. unfold addImport.
    destruct (imp_resolved imp) as [resolved|]; [|exact Hs0].
    destruct (negb _) eqn:Hnm; [|exact Hs0].
    apply shaped_withEdge; [|exact Hs0].
    exists rel, (Js.replaceBackslashes (relative root resolved)).
    split; [reflexivity|]. split; [reflexivity|]. now apply negb_true_iff. }
  pose proof (shaped_addFolderNodes rel s Hs) as H1.
  destruct (negb _); [|exact H1].
  apply (shaped_withEdge _ _ _ (setNode _ _ _)); [|exact H1].
  left. exists rel. auto.
Qed.

(** The ids pass 1 registers start with [file:]. *)
Lemma registered_ids_pass1 root sfs :
  forall name id,
    JsMap.get name
      (fnRegistry (pass1 relative recordEdge root sfs
                     (mkState JsMap.empty [] JsMap.empty [])))
    = Some id ->
    Js.startsWith id "file:" = true.
Proof.
  apply (write_pass1 relative recordEdge
           (fun s : EngineState (list EdgeCall) =>
              forall name id, JsMap.get name (fnRegistry s) = Some id ->
                              Js.startsWith id "file:" = true)
           (fun _ => True)).
  - intros f t r s H. exact H.
  - intros d s _ _ H. exact H.
  - intros rel n s _ H. exact H.
  - intros rel rest key n s _ H name id Hg. simpl in Hg.
    destruct (string_dec name key) as [->|Hne].
    + rewrite JsMapFacts.get_set_same in Hg. injection Hg as <-.
      apply startsWith_file.
    + rewrite JsMapFacts.get_set_other in Hg by exact Hne. now apply (H name).
  - apply visitsOk_trivial.
  - intros name id Hg. discriminate Hg.
Qed.

Section CallTargets.

Variable N : JsMap.t ProjectNode.
Variable Rg : JsMap.t string.
Hypothesis Rg_files :
  forall name id, JsMap.get name Rg = Some id -> Js.startsWith id "file:" = true.

Lemma shaped_traceCall root rel0 rel call (s : EngineState (list EdgeCall)) :
  nodesMap s = N /\ fnRegistry s = Rg /\ Forall edgeShape (edgesAcc s) ->
  nodesMap (traceCall relative recordEdge root ("file:" ++ rel0) rel call s) = N
  /\ fnRegistry (traceCall relative recordEdge root ("file:" ++ rel0) rel call s)
     = Rg
  /\ Forall edgeShape
       (edgesAcc (traceCall relative recordEdge root ("file:" ++ rel0) rel call s)).
Proof.
  intros (Hn & Hr & Hs).
  destruct (sameTables_traceCall relative recordEdge root ("file:" ++ rel0) rel
              call s) as (Hn' & Hr' & _).
  rewrite Hn', Hr'. split; [exact Hn|]. split; [exact Hr|].
  unfold traceCall, tier2. rewrite Hn, Hr.
  destruct (_findContainingFunctionId _ _ _ _) as [caller|] eqn:Hfind;
    [|exact Hs].
  apply findContainingFunctionId_spec in Hfind as [_ Hc].
  destruct (negb _); [exact Hs|].
  destruct (calledNameOf _ _) as [name|]; [|exact Hs].
  destruct (negb _); [exact Hs|].
  destruct (tier1 _ _ _ _) as [t|] eqn:Ht.
  - apply tier1_spec in Ht as (Hg & _ & _).
    apply shaped_withEdge; [|exact Hs].
    split; [now exists rel0 | now apply (Rg_files name)].
  - destruct (call_symbol call) as [symbol|]; [|exact Hs].
    apply (forEach_preserves
             (fun s' : EngineState (list EdgeCall) =>
                Forall edgeShape (edgesAcc s'))); [|exact Hs].
    intros declFile s0 Hs0. unfold traceDeclaration.
    destruct (Js.includes _ _); [exact Hs0|].
    destruct (firstCandidate _ _ _) as [c|] eqn:Hfc; [|exact Hs0].
    apply firstCandidate_spec in Hfc as (Hin & _ & _).
    apply shaped_withEdge; [|exact Hs0].
    split; [now exists rel0|].
    destruct Hin as [<-|[<-|[]]]; apply startsWith_file.
Qed.

Lemma shaped_pass2 root sfs (s : EngineState (list EdgeCall)) :
  nodesMap s = N /\ fnRegistry s = Rg /\ Forall edgeShape (edgesAcc s) ->
  Forall edgeShape (edgesAcc (pass2 relative recordEdge root sfs s)).
Proof.
  intros Hs.
  enough (H : nodesMap (pass2 relative recordEdge root sfs s) = N
              /\ fnRegistry (pass2 relative recordEdge root sfs s) = Rg
              /\ Forall edgeShape
                   (edgesAcc (pass2 relative recordEdge root sfs s)))
    by apply H.
  unfold pass2.
  apply (forEach_preserves
           (fun s' : EngineState (list EdgeCall) =>
              nodesMap s' = N /\ fnRegistry s' = Rg
              /\ Forall edgeShape (edgesAcc s'))); [|exact Hs].
  intros sf s0 Hs0. unfold pass2File. destruct (outsideRoot _); [exact Hs0|].
  unfold _traceCallEdges.
  apply (forEach_preserves
           (fun s' : EngineState (list EdgeCall) =>
              nodesMap s' = N /\ fnRegistry s' = Rg
              /\ Forall edgeShape (edgesAcc s'))); [|exact Hs0].
  intros call s1 Hs1. now apply shaped_traceCall.
Qed.

End CallTargets.

End EdgeShapes.

(** X21 — the ends of the returned edges, by relation.  A contains
    edge runs from the folder of a directory or file to that directory or
    file, or from a file or class to a function, class or method whose id
    extends the id of the container; an imports edge joins two file ids
    and never leads to a path that mentions [node_modules]; a calls edge
    runs from a function or method id to an id that starts with [file:],
    never to a folder; no edge has the relation [extends] or [renders]. *)
Theorem edge_ends_by_relation relative root added :
  Forall (fun e => edgeShape (edgeTriple e))
         (edges (analyze relative root added)).
Proof.
  apply Forall_forall. intros e He.
  destruct (returned_edge_entry relative root added e He) as (k & _ & Hlog & _).
  rewrite edgeCalls_split in Hlog. apply in_app_or in Hlog as [Hlog|Hlog].
  - assert (Hshaped : Forall edgeShape (structureEdgeCalls relative root added)).
    { unfold structureEdgeCalls, pass1Tables, pass1.
      apply (forEach_preserves
               (fun s' : EngineState (list EdgeCall) =>
                  Forall edgeShape (edgesAcc s'))).
      - intros sf s Hs. now apply shaped_pass1File.
      - constructor. }
    rewrite Forall_forall in Hshaped. exact (Hshaped _ Hlog).
  - assert (Hshaped : Forall edgeShape (callObservations relative root added)).
    { unfold callObservations.
      apply (shaped_pass2 relative
               (nodesMap (pass1Tables relative root added))
               (fnRegistry (pass1Tables relative root added))).
      - apply registered_ids_pass1.
      - repeat split. constructor. }
    rewrite Forall_forall in Hshaped. exact (Hshaped _ Hlog).
Qed.

(* ================================================================= *)
(** * Properties of the embeddings library *)

(** ** Loops over slices *)

Lemma slice_next {A : Type} (size i : nat) (xs : list A) :
  skipn i xs = (slice i (i + size) xs ++ skipn (i + size) xs)%list.
Proof.
  unfold slice. replace (i + size - i) with size by lia.
  rewrite (Nat.add_comm i size), <- skipn_skipn.
  symmetry. apply firstn_skipn.
Qed.

Lemma slice_size {A : Type} (size i : nat) (xs : list A) :
  i < length xs -> 1 <= size ->
  1 <= length (slice i (i + size) xs) <= size.
Proof.
  intros Hi Hs. unfold slice. replace (i + size - i) with size by lia.
  rewrite length_firstn, length_skipn. lia.
Qed.

(** The loop is its body run on the visited slices. *)
Lemma forChunksFrom_run {W A R : Type} (body : nat -> list A -> R -> Eff W R)
    size (xs : list A) fuel :
  forall i acc w,
    forChunksFrom fuel size xs body i acc w
    = runChunks body (chunksFrom fuel size xs i) acc w.
Proof.
  induction fuel as [|fuel IH]; intros i acc w; [reflexivity|].
  simpl. destruct (Nat.ltb i (length xs)); [|reflexivity].
  simpl. unfold bind. destruct (body i _ acc w) as [[acc'|message] w'];
    [apply IH | reflexivity].
Qed.

(** With a positive step the bound is never reached: the visited slices
    are consecutive, none is empty or longer than the step, and together
    they are the rest of the list. *)
Lemma chunksFrom_cover {A : Type} size (xs : list A) :
  1 <= size ->
  forall fuel i,
    length xs - i < fuel ->
    concat (map snd (chunksFrom fuel size xs i)) = skipn i xs
    /\ Forall (fun visit => 1 <= length (snd visit) <= size)
              (chunksFrom fuel size xs i).
Proof.
  intros Hs. induction fuel as [|fuel IH]; intros i Hf; [lia|].
  simpl. destruct (Nat.ltb i (length xs)) eqn:Hlt.
  - apply Nat.ltb_lt in Hlt.
    destruct (IH (i + size)) as [Hc Hall]; [lia|]. split.
    + simpl. rewrite Hc. symmetry. apply slice_next.
    + constructor; [apply slice_size; assumption | exact Hall].
  - apply Nat.ltb_ge in Hlt. split; [|constructor].
    simpl. symmetry. now apply skipn_all2.
Qed.

Lemma chunksOf_cover {A : Type} size (xs : list A) :
  1 <= size ->
  concat (map snd (chunksOf size xs)) = xs
  /\ Forall (fun visit => 1 <= length (snd visit) <= size) (chunksOf size xs).
Proof.
  intros Hs. unfold chunksOf.
  destruct (chunksFrom_cover size xs Hs (S (length xs)) 0) as [Hc Hall]; [lia|].
  split; [exact Hc | exact Hall].
Qed.

(** ** [generateEmbeddings] *)

Section EmbeddingFacts.

Variable Num : Type.
Variable W : Type.
Variable mockEmbedding : string -> list Num.
Variable featureExtraction : list string -> Eff W (FeatureOutput Num).
Variable sliceUnits : nat -> string -> string.

Lemma chunkResults_ids chunk (embeddings : list (list Num)) :
  forall j,
    map result_id (chunkResultsFrom Num j chunk embeddings) = map item_id chunk.
Proof.
  induction chunk as [|c chunk IH]; intros j; [reflexivity|].
  simpl. now rewrite IH.
Qed.

Lemma embedBatch_outcome total sendProgress i chunk results w :
  match fst (embedBatch Num W featureExtraction sliceUnits total sendProgress
               i chunk results w) with
  | Returned results' =>
      map result_id results'
      = (map result_id results ++ map item_id chunk)%list
  | Thrown message =>
      sendProgress = None -> exists m, message = embeddingsApiError m
  end.
Proof.
  unfold embedBatch, bind, tryCatch, optionalCall.
  destruct sendProgress as [send|].
  - destruct (send _ w) as [[[]|message] w1]; [|simpl; discriminate].
    destruct (featureExtraction _ w1) as [[out|message] w2]; simpl.
    + now rewrite map_app, chunkResults_ids.
    + discriminate.
  - unfold ret.
    destruct (featureExtraction _ w) as [[out|message] w2]; simpl.
    + now rewrite map_app, chunkResults_ids.
    + intros _. now exists message.
Qed.

Lemma embedBatches_outcome total sendProgress visits :
  forall results w,
    match fst (runChunks
                 (embedBatch Num W featureExtraction sliceUnits total
                    sendProgress)
                 visits results w) with
    | Returned results' =>
        map result_id results'
        = (map result_id results
             ++ map item_id (concat (map snd visits)))%list
    | Thrown message =>
        sendProgress = None -> exists m, message = embeddingsApiError m
    end.
Proof.
  induction visits as [|[i chunk] visits IH]; intros results w.
  - simpl. now rewrite app_nil_r.
  - cbn [runChunks]. unfold bind at 1.
    pose proof (embedBatch_outcome total sendProgress i chunk results w) as Hb.
    destruct (embedBatch Num W featureExtraction sliceUnits total sendProgress
                i chunk results w) as [[results'|message] w'].
    + simpl in Hb. specialize (IH results' w').
      destruct (fst (runChunks _ visits results' w')) as [rs|m]; [|exact IH].
      rewrite IH, Hb. cbn [map snd concat]. now rewrite map_app, app_assoc.
    + exact Hb.
Qed.

End EmbeddingFacts.

(** X11 — [generateEmbeddings] answers item by item: when it returns,
    the results carry the ids of the items, one result per item and in the
    order of the items, whatever the API answered (too few vectors leave
    embeddings undefined, they do not shift ids).  It can only throw when
    a token is set, and without a progress callback what it throws is the
    API's error behind the fixed prefix. *)
Theorem embeddings_keep_ids (Num W : Type) (mockEmbedding : string -> list Num)
    (featureExtraction : list string -> Eff W (FeatureOutput Num))
    (sliceUnits : nat -> string -> string) token items sendProgress w :
  match fst (generateEmbeddings Num W mockEmbedding featureExtraction
               sliceUnits token items sendProgress w) with
  | Returned results => map result_id results = map item_id items
  | Thrown message =>
      isTruthy token = true
      /\ (sendProgress = None -> exists m, message = embeddingsApiError m)
  end.
Proof.
  unfold generateEmbeddings. destruct (isTruthy token); simpl.
  - unfold forChunks. rewrite forChunksFrom_run.
    pose proof (embedBatches_outcome Num W featureExtraction sliceUnits
                  (length items) sendProgress (chunksOf BATCH items) [] w) as H.
    fold (chunksOf BATCH items).
    destruct (fst (runChunks _ (chunksOf BATCH items) [] w)) as [rs|m].
    + rewrite H. simpl.
      destruct (chunksOf_cover BATCH items) as [-> _]; [unfold BATCH; lia|].
      reflexivity.
    + split; [reflexivity | exact H].
  - rewrite map_map. reflexivity.
Qed.

(** One batch on the recording API. *)
Lemma embedBatch_recorded {Num : Type}
    (answer : list string -> Outcome (FeatureOutput Num)) sliceUnits
    total i chunk results calls :
  embedBatch Num (list (list string)) (recordingApi answer) sliceUnits total
    None i chunk results calls
  = (match answer (map (fun c => sliceUnits 2048 (item_text c)) chunk) with
     | Returned out =>
         Returned (results
                     ++ chunkResultsFrom Num 0 chunk (embeddingsArray Num out))%list
     | Thrown message => Thrown (embeddingsApiError message)
     end,
     (calls ++ [map (fun c => sliceUnits 2048 (item_text c)) chunk])%list).
Proof.
  unfold embedBatch, bind, tryCatch, optionalCall, ret, recordingApi, throw.
  destruct (answer _); reflexivity.
Qed.

(** What reaches the API, batch by batch: the batches up to the first one
    the API fails on, which is the last call. *)
Lemma recorded_batches {Num : Type}
    (answer : list string -> Outcome (FeatureOutput Num)) sliceUnits
    total visits :
  forall results calls,
    let run :=
      runChunks (embedBatch Num (list (list string)) (recordingApi answer)
                   sliceUnits total None)
                visits results calls in
    exists sent rest,
      map (fun visit => map (fun c => sliceUnits 2048 (item_text c)) (snd visit))
          visits
      = (sent ++ rest)%list
      /\ snd run = (calls ++ sent)%list
      /\ failsLast answer embeddingsApiError (fst run) sent rest.
Proof.
  induction visits as [|[i chunk] visits IH]; intros results calls run.
  - exists [], []. subst run. simpl. rewrite app_nil_r.
    repeat split. constructor.
  - subst run. cbn [runChunks]. unfold bind. rewrite embedBatch_recorded.
    destruct (answer (map (fun c => sliceUnits 2048 (item_text c)) chunk))
      as [out|message] eqn:Hanswer.
    + destruct (IH (results ++ chunkResultsFrom Num 0 chunk (embeddingsArray Num out))%list
                   (calls ++ [map (fun c => sliceUnits 2048 (item_text c)) chunk])%list)
        as (sent & rest & Hsplit & Hcalls & Hlast).
      exists (map (fun c => sliceUnits 2048 (item_text c)) chunk :: sent), rest.
      cbn [map snd]. rewrite Hsplit. split; [reflexivity|]. split.
      * rewrite Hcalls. now rewrite <- app_assoc.
      * cbn zeta in Hlast. unfold failsLast in *.
        destruct (fst (runChunks _ visits _ _)) as [rs|m].
        -- destruct Hlast as [-> Hall]. split; [reflexivity|].
           constructor; [now exists out | exact Hall].
        -- destruct Hlast as (answered & failing & m0 & -> & Hall & Hfail & ->).
           exists (map (fun c => sliceUnits 2048 (item_text c)) chunk :: answered),
             failing, m0.
           split; [reflexivity|]. split; [|auto].
           constructor; [now exists out | exact Hall].
    + exists [map (fun c => sliceUnits 2048 (item_text c)) chunk],
        (map (fun visit =>
                map (fun c => sliceUnits 2048 (item_text c)) (snd visit)) visits).
      cbn [map snd fst]. split; [reflexivity|]. split; [reflexivity|].
      exists [], (map (fun c => sliceUnits 2048 (item_text c)) chunk), message.
      repeat split; [constructor | exact Hanswer].
Qed.

(** X12 — the requests [generateEmbeddings] makes, observed on an API
    that records its inputs and answers as [answer] says: without a token
    the API is not called at all; with a token the calls carry the texts
    of the items in order, each cut at 2048 characters, in batches of at
    least one and at most fifty texts.  The calls stop at the first
    failure: when the function returns, every text has been sent exactly
    once and the API answered every call; when it throws, the API
    answered every call but the last, failed on the last, and the error
    thrown is the API's behind the fixed prefix. *)
Theorem embedding_requests (Num : Type) (mockEmbedding : string -> list Num)
    (answer : list string -> Outcome (FeatureOutput Num))
    (sliceUnits : nat -> string -> string) token items :
  let run :=
    generateEmbeddings Num (list (list string)) mockEmbedding
      (recordingApi answer) sliceUnits token items None [] in
  let texts := map (fun item => sliceUnits 2048 (item_text item)) items in
  let calls := snd run in
  if isTruthy token then
    Forall (fun call => 1 <= length call <= BATCH) calls
    /\ exists unsent,
         texts = (concat calls ++ unsent)%list
         /\ match fst run with
            | Returned _ =>
                unsent = []
                /\ Forall (fun call => exists out, answer call = Returned out)
                          calls
            | Thrown message =>
                exists answered failing m,
                  calls = (answered ++ [failing])%list
                  /\ Forall (fun call => exists out, answer call = Returned out)
                            answered
                  /\ answer failing = Thrown m
                  /\ message = embeddingsApiError m
            end
  else calls = [].
Proof.
  intros run texts calls. subst calls run. unfold generateEmbeddings.
  destruct (isTruthy token); simpl; [|reflexivity].
  unfold forChunks. rewrite forChunksFrom_run. fold (chunksOf BATCH items).
  destruct (recorded_batches answer sliceUnits (length items)
              (chunksOf BATCH items) [] [])
    as (sent & rest & Hsplit & Hcalls & Hlast).
  destruct (chunksOf_cover BATCH items) as [Hcat Hsizes]; [unfold BATCH; lia|].
  cbn zeta in Hlast. simpl in Hcalls. rewrite Hcalls.
  assert (Htexts : texts = (concat sent ++ concat rest)%list).
  { unfold texts. rewrite <- Hcat at 1. rewrite concat_map, map_map.
    rewrite Hsplit. apply concat_app. }
  split.
  - assert (Hall : Forall (fun call : list string => 1 <= length call <= BATCH)
                     (sent ++ rest)).
    { rewrite <- Hsplit. apply Forall_map.
      eapply Forall_impl; [|exact Hsizes].
      intros visit Hv. cbn beta. now rewrite length_map. }
    apply Forall_app in Hall. tauto.
  - exists (concat rest). split; [exact Htexts|].
    unfold failsLast in Hlast.
    destruct (fst (runChunks _ (chunksOf BATCH items) [] [])) as [rs|m].
    + destruct Hlast as [-> Hall]. split; [reflexivity | exact Hall].
    + exact Hlast.
Qed.

(** ** [buildEmbeddingText] *)

Lemma join_nonempty sep x parts :
  In x parts -> x <> "" -> Js.join sep parts <> "".
Proof.
  induction parts as [|p parts IH]; intros Hin Hx; [destruct Hin|].
  cbn [Js.join]. destruct parts as [|q parts].
  - destruct Hin as [->|[]]. exact Hx.
  - destruct Hin as [->|Hin].
    + destruct x; [congruence | discriminate].
    + specialize (IH Hin Hx). destruct p; [|discriminate].
      cbn [String.append]. destruct sep; [exact IH | discriminate].
Qed.

Lemma pushIf_keeps cond part parts x :
  In x parts -> In x (pushIf cond part parts).
Proof.
  unfold pushIf. destruct cond; [|auto]. intros H. apply in_or_app. now left.
Qed.

(** X13 — the text built for an embedding is never empty (there is
    always a signature line or the line [type name]), and of the content
    only the first 500 characters are used: two contents that have them in
    common, both empty or both not, give the same text. *)
Theorem embedding_text_parts (sliceUnits : nat -> string -> string) node :
  buildEmbeddingText sliceUnits node <> ""
  /\ forall content content',
       sliceUnits 500 content = sliceUnits 500 content' ->
       Js.truthy content = Js.truthy content' ->
       buildEmbeddingText sliceUnits (withContent (Some content) node)
       = buildEmbeddingText sliceUnits (withContent (Some content') node).
Proof.
  split.
  - unfold buildEmbeddingText.
    destruct (isTruthy (en_signature node)) eqn:Hsig.
    + apply (join_nonempty _ (Js.template (en_signature node))).
      * do 2 apply pushIf_keeps. apply in_or_app. right. now left.
      * destruct (en_signature node) as [sig|]; [|discriminate Hsig].
        simpl in *. unfold Js.truthy in Hsig.
        intros ->. discriminate Hsig.
    + apply (join_nonempty _ (en_type node ++ " " ++ en_name node)).
      * do 2 apply pushIf_keeps. apply in_or_app. right. now left.
      * destruct (en_type node); discriminate.
  - intros content content' Hcut Htruthy.
    unfold buildEmbeddingText, withContent.
    cbn [en_name en_type en_path en_signature en_docComment en_content
         isTruthy Js.template].
    now rewrite Hcut, Htruthy.
Qed.

(* ================================================================= *)
(** * Properties of the stream parsers *)

Lemma linesOf_nonempty s : linesOf s <> [].
Proof.
  destruct s as [|c s]; simpl; [discriminate|].
  destruct (Ascii.eqb c (ascii_of_nat 10)); [discriminate|].
  destruct (linesOf s); discriminate.
Qed.

(** Appending text only touches the last line. *)
Lemma linesOf_app a b :
  linesOf (a ++ b)
  = (removelast (linesOf a) ++ linesOf (last (linesOf a) "" ++ b))%list.
Proof.
  induction a as [|c a IH]; [reflexivity|].
  change (String c a ++ b) with (String c (a ++ b)).
  cbn [linesOf]. rewrite IH.
  pose proof (linesOf_nonempty a) as Hne.
  destruct (Ascii.eqb c (ascii_of_nat 10)) eqn:Hc.
  - destruct (linesOf a) as [|h t]; [congruence|]. reflexivity.
  - destruct (linesOf a) as [|h t]; [congruence|].
    destruct t as [|x t].
    + cbn [removelast last app].
      change (String c h ++ b) with (String c (h ++ b)).
      cbn [linesOf]. rewrite Hc. reflexivity.
    + reflexivity.
Qed.

(** The last line holds no newline. *)
Lemma last_line_single s :
  linesOf (last (linesOf s) "") = [last (linesOf s) ""].
Proof.
  induction s as [|c s IH]; [reflexivity|].
  cbn [linesOf]. pose proof (linesOf_nonempty s) as Hne.
  destruct (Ascii.eqb c (ascii_of_nat 10)) eqn:Hc.
  - destruct (linesOf s) as [|h t]; [congruence|]. exact IH.
  - destruct (linesOf s) as [|h t]; [congruence|].
    destruct t as [|x t]; [|exact IH].
    cbn [last] in IH |- *. cbn [linesOf]. rewrite Hc, IH. reflexivity.
Qed.

Lemma removelast_app_nonempty {A : Type} (l1 l2 : list A) :
  l2 <> [] -> removelast (l1 ++ l2) = (l1 ++ removelast l2)%list.
Proof. intros H. now apply removelast_app. Qed.

Lemma forLines_app step l1 l2 :
  forLines step (l1 ++ l2)
  = (let (texts1, returned1) := forLines step l1 in
     if returned1 then (texts1, true)
     else let (texts2, returned2) := forLines step l2 in
          ((texts1 ++ texts2)%list, returned2)).
Proof.
  induction l1 as [|line l1 IH].
  - cbn [app forLines]. now destruct (forLines step l2).
  - cbn [app forLines]. destruct (step line) as [yielded|]; [|reflexivity].
    rewrite IH. destruct (forLines step l1) as [texts1 returned1].
    destruct returned1; [reflexivity|].
    destruct (forLines step l2) as [texts2 returned2].
    now destruct yielded.
Qed.

(** The loop yields what the complete lines of the whole body yield. *)
Lemma readChunks_lines step chunks :
  forall buffer,
    linesOf buffer = [buffer] ->
    readChunks step chunks buffer
    = fst (forLines step (completeLines (buffer ++ String.concat "" chunks))).
Proof.
  unfold completeLines.
  induction chunks as [|value rest IH]; intros buffer Hbuf.
  - cbn [readChunks String.concat].
    rewrite append_empty_r, Hbuf. reflexivity.
  - cbn [readChunks].
    assert (Hcat : buffer ++ String.concat "" (value :: rest)
                   = (buffer ++ value) ++ String.concat "" rest).
    { destruct rest as [|r rest]; cbn [String.concat].
      - now rewrite append_empty_r.
      - now rewrite append_assoc. }
    rewrite Hcat, (linesOf_app (buffer ++ value) (String.concat "" rest)).
    rewrite removelast_app_nonempty by apply linesOf_nonempty.
    rewrite forLines_app.
    rewrite (IH _ (last_line_single (buffer ++ value))).
    destruct (forLines step (removelast (linesOf (buffer ++ value))))
      as [texts1 returned1].
    destruct returned1; [reflexivity|].
    now destruct (forLines step _) as [texts2 returned2].
Qed.

Lemma readChunks_whole step chunks :
  readChunks step chunks ""
  = fst (forLines step (completeLines (String.concat "" chunks))).
Proof. now rewrite readChunks_lines. Qed.

Lemma concat_single s : String.concat "" [s] = s.
Proof. reflexivity. Qed.

(** X14 — the three stream parsers do not depend on how the body of
    the response is cut into pieces: they yield what the same text read
    in one piece yields, which is what the lines that a newline ends
    yield in turn. *)
Theorem stream_parsers_ignore_chunking (extract : string -> option string)
    (chunks : list string) :
  let body := String.concat "" chunks in
  (openAIStream extract chunks = openAIStream extract [body]
   /\ openAIStream extract chunks
      = fst (forLines (openAIStep extract) (completeLines body)))
  /\ (anthropicStream extract chunks = anthropicStream extract [body]
      /\ anthropicStream extract chunks
         = fst (forLines (dataStep extract) (completeLines body)))
  /\ (geminiStream extract chunks = geminiStream extract [body]
      /\ geminiStream extract chunks
         = fst (forLines (dataStep extract) (completeLines body))).
Proof.
  intros body. unfold openAIStream, anthropicStream, geminiStream.
  rewrite !readChunks_whole, !concat_single. fold body. repeat split.
Qed.

(** A newline separates the lines before it from the lines after it. *)
Lemma linesOf_newline a b :
  linesOf (a ++ newline ++ b) = (linesOf a ++ linesOf b)%list.
Proof.
  induction a as [|c a IH].
  - change ("" ++ newline ++ b) with (String (ascii_of_nat 10) b).
    cbn [linesOf]. now rewrite Ascii.eqb_refl.
  - change (String c a ++ newline ++ b) with (String c (a ++ newline ++ b)).
    cbn [linesOf]. rewrite IH.
    destruct (Ascii.eqb c (ascii_of_nat 10)); [reflexivity|].
    pose proof (linesOf_nonempty a) as Hne.
    destruct (linesOf a) as [|h t]; [congruence | reflexivity].
Qed.

Lemma completeLines_newline text tail :
  completeLines (text ++ newline ++ tail)
  = (linesOf text ++ completeLines tail)%list.
Proof.
  unfold completeLines. rewrite linesOf_newline.
  apply removelast_app_nonempty, linesOf_nonempty.
Qed.

Lemma completeLines_terminated text :
  completeLines (text ++ newline) = linesOf text.
Proof.
  rewrite <- (append_empty_r newline), completeLines_newline.
  apply app_nil_r.
Qed.

(** X15 — what follows the last newline of the body is never parsed:
    the loop ends with the rest still in [buffer].  A body that does not
    end in a newline loses its last event, and a body without any newline
    yields nothing. *)
Theorem unterminated_line_is_dropped (extract : string -> option string)
    (text tail : string) :
  linesOf tail = [tail] ->
  (openAIStream extract [text ++ newline ++ tail]
   = openAIStream extract [text ++ newline]
   /\ anthropicStream extract [text ++ newline ++ tail]
      = anthropicStream extract [text ++ newline]
   /\ geminiStream extract [text ++ newline ++ tail]
      = geminiStream extract [text ++ newline])
  /\ openAIStream extract [tail] = []
  /\ anthropicStream extract [tail] = []
  /\ geminiStream extract [tail] = [].
Proof.
  intros Htail. unfold openAIStream, anthropicStream, geminiStream.
  rewrite !readChunks_whole, !concat_single.
  rewrite completeLines_newline, completeLines_terminated.
  unfold completeLines. rewrite Htail. cbn [removelast].
  rewrite app_nil_r. repeat split.
Qed.

(** A body whose last event lacks the final newline. *)
Lemma unterminated_line_is_dropped_witness :
  anthropicStream (fun data => Some data)
    ["data: first" ++ newline ++ "data: second"]
  = ["first"].
Proof.
  destruct (unterminated_line_is_dropped (fun data => Some data)
              "data: first" "data: second" eq_refl) as [(_ & H & _) _].
  rewrite H. reflexivity.
Defined.

(** X16 — [openAIStream] stops at the line [data: [DONE]]: whatever
    the body holds after that line is not parsed, however the body is cut
    into pieces. *)
Theorem openAI_stops_at_done (extract : string -> option string)
    (before after : string) :
  openAIStream extract [before ++ newline ++ "data: [DONE]" ++ newline ++ after]
  = openAIStream extract [before ++ newline].
Proof.
  unfold openAIStream. rewrite !readChunks_whole, !concat_single.
  rewrite completeLines_terminated, !completeLines_newline.
  rewrite forLines_app.
  destruct (forLines (openAIStep extract) (linesOf before))
    as [texts returned].
  destruct returned; [reflexivity|].
  change (linesOf "data: [DONE]") with ["data: [DONE]"].
  cbn [app forLines]. unfold openAIStep at 1.
  replace (Js.startsWith "data: [DONE]" "data: ") with true by reflexivity.
  cbn [negb]. replace (Js.trim (sliceFrom 6 "data: [DONE]")) with "[DONE]"
    by reflexivity.
  rewrite String.eqb_refl. cbn [fst]. apply app_nil_r.
Qed.

(* ================================================================= *)
(** * Properties of the upload route *)

(** ** What the steps add to the stream *)

Section RouteSteps.

Context {W : Type}.

Lemma progress_ret {A : Type} (a : A) : sendsProgress (W := W) (ret a).
Proof. intros st. exists []. simpl. rewrite app_nil_r. split; [reflexivity | constructor]. Qed.

Lemma progress_throw {A : Type} message :
  sendsProgress (W := W) (A := A) (throw message).
Proof. intros st. exists []. simpl. rewrite app_nil_r. split; [reflexivity | constructor]. Qed.

Lemma progress_send pct message :
  sendsProgress (W := W) (send (SentProgress pct message)).
Proof.
  intros st. exists [SentProgress pct message]. simpl.
  split; [reflexivity | repeat constructor].
Qed.

Lemma progress_await {A : Type} (call : Eff W A) : sendsProgress (await call).
Proof.
  intros st. exists []. unfold await. destruct (call (fst st)) as [r w].
  simpl. rewrite app_nil_r. split; [reflexivity | constructor].
Qed.

Lemma progress_bind {A B : Type} (c : Eff (W * list Sent) A)
    (k : A -> Eff (W * list Sent) B) :
  sendsProgress c -> (forall a, sendsProgress (k a)) -> sendsProgress (bind c k).
Proof.
  intros Hc Hk st. unfold bind. destruct (Hc st) as (new1 & H1 & P1).
  destruct (c st) as [[a|message] st1]; simpl in H1.
  - destruct (Hk a st1) as (new2 & H2 & P2). exists (new1 ++ new2)%list.
    rewrite H2, H1, app_assoc. split; [reflexivity | now apply Forall_app].
  - exists new1. simpl. auto.
Qed.

Lemma progress_tryCatch {A : Type} (body : Eff (W * list Sent) A) handler :
  sendsProgress body -> (forall message, sendsProgress (handler message)) ->
  sendsProgress (tryCatch body handler).
Proof.
  intros Hb Hh st. unfold tryCatch. destruct (Hb st) as (new1 & H1 & P1).
  destruct (body st) as [[a|message] st1]; simpl in H1.
  - exists new1. simpl. auto.
  - destruct (Hh message st1) as (new2 & H2 & P2). exists (new1 ++ new2)%list.
    rewrite H2, H1, app_assoc. split; [reflexivity | now apply Forall_app].
Qed.

Lemma progress_runChunks {A R : Type}
    (body : nat -> list A -> R -> Eff (W * list Sent) R) visits :
  (forall i chunk acc, sendsProgress (body i chunk acc)) ->
  forall acc, sendsProgress (runChunks body visits acc).
Proof.
  intros Hb. induction visits as [|[i chunk] visits IH]; intros acc.
  - apply progress_ret.
  - cbn [runChunks]. apply progress_bind; [apply Hb | exact IH].
Qed.

Lemma progress_forChunks {A R : Type} size (xs : list A)
    (body : nat -> list A -> R -> Eff (W * list Sent) R) acc :
  (forall i chunk acc, sendsProgress (body i chunk acc)) ->
  sendsProgress (forChunks size xs body acc).
Proof.
  intros Hb st. unfold forChunks. rewrite forChunksFrom_run.
  now apply progress_runChunks.
Qed.

Lemma progress_generateEmbeddings (Num : Type) mockEmbedding
    (featureExtraction : list string -> Eff W (FeatureOutput Num))
    sliceUnits token items :
  sendsProgress
    (generateEmbeddings Num (W * list Sent) mockEmbedding
       (fun inputs => await (featureExtraction inputs)) sliceUnits token items
       (Some (fun msg => send (SentProgress 97 msg)))).
Proof.
  unfold generateEmbeddings. destruct (negb (isTruthy token)); [apply progress_ret|].
  apply progress_forChunks. intros i chunk acc. unfold embedBatch.
  apply progress_bind; [apply progress_send|]. intros _.
  apply progress_tryCatch; [|intros; apply progress_throw].
  apply progress_bind; [apply progress_await | intros; apply progress_ret].
Qed.

Lemma finishes_send (final : Sent) : finishesWith (W := W) final (send final).
Proof.
  intros st. exists []. split; [constructor | reflexivity].
Qed.

Lemma finishes_bind {A B : Type} final (c : Eff (W * list Sent) A)
    (k : A -> Eff (W * list Sent) B) :
  sendsProgress c -> (forall a, finishesWith final (k a)) ->
  finishesWith final (bind c k).
Proof.
  intros Hc Hk st. unfold bind. destruct (Hc st) as (new1 & H1 & P1).
  destruct (c st) as [[a|message] st1]; simpl in H1.
  - destruct (Hk a st1) as (new2 & P2 & H2). exists (new1 ++ new2)%list.
    split; [now apply Forall_app|].
    destruct (fst (k a st1)); rewrite H2, H1, <- !app_assoc; reflexivity.
  - exists new1. simpl. auto.
Qed.

End RouteSteps.

Section SaveGraphFacts.

Variable Num : Type.
Variable W : Type.
Variable mockEmbedding : string -> list Num.
Variable featureExtraction : list string -> Eff W (FeatureOutput Num).
Variable sliceUnits : nat -> string -> string.
Variable token : option string.
Variable insertProject :
  string -> option string -> string -> string -> Eff W string.
Variable insertNodes : list NodeRow -> Eff W unit.
Variable insertEdges : list EdgeRow -> Eff W unit.
Variable selectNodeIds :
  string -> list string -> W -> option (list (string * string)) * W.
Variable Json : Type.
Variable stringify : option (list Num) -> Json.
Variable updateEmbedding : string -> Json -> W -> W.
Variable roundTenths : nat -> nat -> nat.
Variable expiresAt : string.

Lemma progress_saveNodes projectId analysis :
  sendsProgress (saveNodes W insertNodes roundTenths projectId analysis).
Proof.
  unfold saveNodes. apply progress_forChunks. intros i chunk acc.
  apply progress_bind; [apply progress_await | intros; apply progress_send].
Qed.

Lemma progress_saveEdges projectId analysis :
  sendsProgress (saveEdges W insertEdges projectId analysis).
Proof.
  unfold saveEdges. apply progress_forChunks. intros i chunk acc.
  apply progress_await.
Qed.

Lemma progress_storeEmbeddings embedResults dbNodes :
  sendsProgress
    (storeEmbeddings Num W Json stringify updateEmbedding embedResults dbNodes).
Proof.
  unfold storeEmbeddings. apply progress_bind; [|intros; apply progress_send].
  apply progress_forChunks. intros i batch acc.
  apply progress_bind; [apply progress_await | intros; apply progress_send].
Qed.

Lemma progress_indexEmbeddings projectId analysis :
  sendsProgress
    (indexEmbeddings Num W mockEmbedding featureExtraction sliceUnits token selectNodeIds
       Json stringify updateEmbedding projectId analysis).
Proof.
  unfold indexEmbeddings. destruct (Nat.ltb 0 _); [|apply progress_ret].
  apply progress_bind; [apply progress_send|]. intros _.
  apply progress_tryCatch; [|intros; apply progress_send].
  apply progress_bind; [apply progress_generateEmbeddings|]. intros embedResults.
  apply progress_bind; [apply progress_await|]. intros [rows|];
    [|apply progress_ret].
  destruct (Nat.ltb 0 (length rows));
    [apply progress_storeEmbeddings | apply progress_ret].
Qed.

Lemma saveRows_events projectId analysis :
  finishesWith (SentDone analysis projectId)
    (saveRows Num W mockEmbedding featureExtraction sliceUnits token insertNodes
       insertEdges selectNodeIds Json stringify updateEmbedding roundTenths
       projectId analysis).
Proof.
  unfold saveRows.
  apply finishes_bind; [apply progress_send|]. intros _.
  apply finishes_bind; [apply progress_saveNodes|]. intros _.
  apply finishes_bind; [apply progress_send|]. intros _.
  apply finishes_bind; [apply progress_saveEdges|]. intros _.
  apply finishes_bind; [apply progress_indexEmbeddings|]. intros _.
  apply finishes_bind; [apply progress_send|]. intros _.
  apply finishes_send.
Qed.

Lemma createAndSave_unfold projectName repoUrl analysis st :
  createAndSave Num W mockEmbedding featureExtraction sliceUnits token insertProject
    insertNodes insertEdges selectNodeIds Json stringify updateEmbedding
    roundTenths expiresAt projectName repoUrl analysis st
  = match insertProject projectName (orNull repoUrl) (rootPath analysis)
            expiresAt (fst st) with
    | (Returned projectId, w1) =>
        saveRows Num W mockEmbedding featureExtraction sliceUnits token insertNodes
          insertEdges selectNodeIds Json stringify updateEmbedding roundTenths
          projectId analysis
          (w1, (snd st ++ [SentProgress 80 "Creating project record..."])%list)
    | (Thrown message, w1) =>
        (Thrown message,
         (w1, (snd st ++ [SentProgress 80 "Creating project record..."])%list))
    end.
Proof.
  unfold createAndSave, bind, send, await. cbn [fst snd].
  destruct (insertProject _ _ _ _ (fst st)) as [[projectId|message] w1];
    reflexivity.
Qed.

(** The [try] block of the handler sends progress events and, when it
    runs to its end, [done] with the graph. *)
Lemma createAndSave_events projectName repoUrl analysis st :
  let run :=
    createAndSave Num W mockEmbedding featureExtraction sliceUnits token insertProject
      insertNodes insertEdges selectNodeIds Json stringify updateEmbedding
      roundTenths expiresAt projectName repoUrl analysis st in
  exists new,
    allProgress new
    /\ match fst run with
       | Returned _ =>
           exists projectId,
             snd (snd run)
             = (snd st ++ new ++ [SentDone analysis projectId])%list
       | Thrown _ => snd (snd run) = (snd st ++ new)%list
       end.
Proof.
  intros run. subst run. rewrite createAndSave_unfold.
  destruct (insertProject projectName (orNull repoUrl) (rootPath analysis)
              expiresAt (fst st)) as [[projectId|message] w1].
  - destruct (saveRows_events projectId analysis
                (w1, (snd st ++ [SentProgress 80 "Creating project record..."])%list))
      as (new & Pnew & Hnew).
    exists (SentProgress 80 "Creating project record..." :: new).
    split; [constructor; [reflexivity | exact Pnew]|].
    cbn [snd] in Hnew.
    destruct (fst (saveRows _ _ _ _ _ _ _ _ _ _ _ _ _ _ _ _)) as [[]|message].
    + exists projectId. rewrite Hnew, <- app_assoc. reflexivity.
    + rewrite Hnew, <- app_assoc. reflexivity.
  - exists [SentProgress 80 "Creating project record..."].
    split; [repeat constructor | reflexivity].
Qed.

Lemma saveGraph_events projectName repoUrl analysis w :
  exists progress terminal,
    saveGraphEvents Num W mockEmbedding featureExtraction sliceUnits token insertProject
      insertNodes insertEdges selectNodeIds Json stringify updateEmbedding
      roundTenths expiresAt projectName repoUrl w analysis
    = (progress ++ [terminal])%list
    /\ allProgress progress
    /\ ((exists projectId, terminal = SentDone analysis projectId)
        \/ (exists message, terminal = SentError message /\ message <> "")).
Proof.
  unfold saveGraphEvents, saveGraph, tryCatch.
  destruct (createAndSave_events projectName repoUrl analysis (w, []))
    as (new & Pnew & Hnew).
  cbn zeta in Hnew.
  destruct (createAndSave _ _ _ _ _ _ _ _ _ _ _ _ _ _ _ _ _ _ (w, []))
    as [[[]|message] st1]; cbn [fst snd] in Hnew |- *.
  - destruct Hnew as [projectId Hnew]. exists new, (SentDone analysis projectId).
    split; [exact Hnew|]. split; [exact Pnew|]. left. now exists projectId.
  - exists new, (SentError (messageOr "Analysis failed" message)).
    unfold send. cbn [fst snd].
    rewrite Hnew. split; [reflexivity|]. split; [exact Pnew|]. right.
    eexists. split; [reflexivity|].
    unfold messageOr, Js.truthy.
    destruct (String.eqb message "") eqn:He; simpl; [discriminate|].
    now apply String.eqb_neq.
Qed.

End SaveGraphFacts.

(** X17 — from the call of [analyze] on, the upload route ends its
    stream with exactly one terminal event, and nothing follows it: the
    [error] event (with the message about missing source files when the
    graph is empty, with a non-empty message otherwise) or the [done]
    event, which carries the graph [analyze] returned.  Every event before
    it is a progress event. *)
Theorem upload_stream_ends_once (Num W Json : Type)
    (mockEmbedding : string -> list Num)
    (featureExtraction : list string -> Eff W (FeatureOutput Num))
    (sliceUnits : nat -> string -> string)
    (token : option string)
    (insertProject : string -> option string -> string -> string -> Eff W string)
    (insertNodes : list NodeRow -> Eff W unit)
    (insertEdges : list EdgeRow -> Eff W unit)
    (selectNodeIds :
       string -> list string -> W -> option (list (string * string)) * W)
    (stringify : option (list Num) -> Json)
    (updateEmbedding : string -> Json -> W -> W)
    (roundTenths : nat -> nat -> nat) (expiresAt : string)
    relative root added projectName repoUrl w :
  let g := analyze relative root added in
  let persist analysis :=
    map toStreamEvent
        (saveGraphEvents Num W mockEmbedding featureExtraction sliceUnits token
           insertProject insertNodes insertEdges selectNodeIds Json stringify
           updateEmbedding roundTenths expiresAt projectName repoUrl w
           analysis) in
  exists progress terminal,
    analyzeAndReport relative persist root added
    = (progress ++ [terminal])%list
    /\ Forall (fun ev => isTerminal ev = false) progress
    /\ (terminal = EvDone g
        \/ exists message, terminal = EvError message /\ message <> "")
    /\ (nodes g = [] -> terminal = EvError noSourceMessage).
Proof.
  intros g persist. unfold analyzeAndReport, afterAnalysis. fold g.
  destruct (nodes g) as [|n ns] eqn:Hg.
  - eexists [_], (EvError noSourceMessage). cbn [length Nat.eqb app].
    split; [reflexivity|]. split; [repeat constructor|].
    split; [|reflexivity]. right. eexists. split; [reflexivity | discriminate].
  - cbn [length Nat.eqb]. unfold persist.
    destruct (saveGraph_events Num W mockEmbedding featureExtraction sliceUnits token
                insertProject insertNodes insertEdges selectNodeIds Json
                stringify updateEmbedding roundTenths expiresAt projectName
                repoUrl g w) as (progress & terminal & -> & Hp & Ht).
    eexists (_ :: map toStreamEvent progress), (toStreamEvent terminal).
    rewrite map_app. cbn [map app]. split; [reflexivity|]. split; [|split].
    + constructor; [reflexivity|]. apply Forall_map.
      eapply Forall_impl; [|exact Hp].
      intros [pct m|m|a p] Hev; [reflexivity | discriminate Hev | discriminate Hev].
    + destruct Ht as [[projectId ->]|(message & -> & Hm)].
      * now left.
      * right. now exists message.
    + discriminate.
Qed.

(** ** Failures of the embeddings are not fatal *)

Section Returns.

Context {W : Type}.

Lemma returns_bind {A B : Type} (c : Eff W A) (k : A -> Eff W B) :
  neverThrows c -> (forall a, neverThrows (k a)) -> neverThrows (bind c k).
Proof.
  intros Hc Hk w. unfold bind. destruct (Hc w) as [a Ha].
  destruct (c w) as [[a'|message] w']; simpl in Ha; [|discriminate Ha].
  apply Hk.
Qed.

Lemma returns_ret {A : Type} (a : A) : neverThrows (W := W) (ret a).
Proof. intros w. now exists a. Qed.

Lemma returns_tryCatch {A : Type} (body : Eff W A) handler :
  (forall message, neverThrows (handler message)) ->
  neverThrows (tryCatch body handler).
Proof.
  intros Hh w. unfold tryCatch.
  destruct (body w) as [[a|message] w']; [now exists a | apply Hh].
Qed.

Lemma returns_runChunks {A R : Type} (body : nat -> list A -> R -> Eff W R)
    visits :
  (forall i chunk acc, neverThrows (body i chunk acc)) ->
  forall acc, neverThrows (runChunks body visits acc).
Proof.
  intros Hb. induction visits as [|[i chunk] visits IH]; intros acc.
  - apply returns_ret.
  - cbn [runChunks]. apply returns_bind; [apply Hb | exact IH].
Qed.

Lemma returns_forChunks {A R : Type} size (xs : list A)
    (body : nat -> list A -> R -> Eff W R) acc :
  (forall i chunk acc, neverThrows (body i chunk acc)) ->
  neverThrows (forChunks size xs body acc).
Proof.
  intros Hb w. unfold forChunks. rewrite forChunksFrom_run.
  now apply returns_runChunks.
Qed.

Lemma returns_send (ev : Sent) : neverThrows (W := W * list Sent) (send ev).
Proof. intros st. now exists tt. Qed.

Lemma returns_await {A : Type} (call : Eff W A) :
  neverThrows call -> neverThrows (await call).
Proof.
  intros Hc st. unfold await. destruct (Hc (fst st)) as [a Ha].
  destruct (call (fst st)) as [r w']. simpl in Ha. subst r. now exists a.
Qed.

End Returns.

(** X18 — a failure of the embeddings does not fail the upload: when
    the three inserts succeed, the stream ends with [done] whatever the
    Hugging Face API and the later database calls do; the [catch] around
    the embeddings turns their failure into a progress event. *)
Theorem embedding_failure_is_not_fatal (Num W Json : Type)
    (mockEmbedding : string -> list Num)
    (featureExtraction : list string -> Eff W (FeatureOutput Num))
    (sliceUnits : nat -> string -> string)
    (token : option string)
    (insertProject : string -> option string -> string -> string -> Eff W string)
    (insertNodes : list NodeRow -> Eff W unit)
    (insertEdges : list EdgeRow -> Eff W unit)
    (selectNodeIds :
       string -> list string -> W -> option (list (string * string)) * W)
    (stringify : option (list Num) -> Json)
    (updateEmbedding : string -> Json -> W -> W)
    (roundTenths : nat -> nat -> nat) (expiresAt : string)
    projectName repoUrl w analysis :
  (forall name url rootPath expires,
      neverThrows (insertProject name url rootPath expires)) ->
  (forall rows, neverThrows (insertNodes rows)) ->
  (forall rows, neverThrows (insertEdges rows)) ->
  exists progress projectId,
    saveGraphEvents Num W mockEmbedding featureExtraction sliceUnits token insertProject
      insertNodes insertEdges selectNodeIds Json stringify updateEmbedding
      roundTenths expiresAt projectName repoUrl w analysis
    = (progress ++ [SentDone analysis projectId])%list
    /\ allProgress progress.
Proof.
  intros Hproject Hnodes Hedges.
  assert (Hreturns :
            neverThrows
              (createAndSave Num W mockEmbedding featureExtraction sliceUnits token
                 insertProject insertNodes insertEdges selectNodeIds Json
                 stringify updateEmbedding roundTenths expiresAt projectName
                 repoUrl analysis)).
  { unfold createAndSave.
    apply returns_bind; [apply returns_send|]. intros _.
    apply returns_bind; [apply returns_await, Hproject|]. intros projectId.
    unfold saveRows.
    apply returns_bind; [apply returns_send|]. intros _.
    apply returns_bind.
    { unfold saveNodes. apply returns_forChunks. intros i chunk acc.
      apply returns_bind; [apply returns_await, Hnodes|]. intros _.
      apply returns_send. }
    intros _. apply returns_bind; [apply returns_send|]. intros _.
    apply returns_bind.
    { unfold saveEdges. apply returns_forChunks. intros i chunk acc.
      apply returns_await, Hedges. }
    intros _. apply returns_bind.
    { unfold indexEmbeddings. destruct (Nat.ltb 0 _); [|apply returns_ret].
      apply returns_bind; [apply returns_send|]. intros _.
      apply returns_tryCatch. intros message. apply returns_send. }
    intros _. apply returns_bind; [apply returns_send|]. intros _.
    apply returns_send. }
  unfold saveGraphEvents, saveGraph, tryCatch.
  destruct (createAndSave_events Num W mockEmbedding featureExtraction sliceUnits token
              insertProject insertNodes insertEdges selectNodeIds Json
              stringify updateEmbedding roundTenths expiresAt projectName
              repoUrl analysis (w, [])) as (new & Pnew & Hnew).
  cbn zeta in Hnew. destruct (Hreturns (w, [])) as [[] Hret].
  rewrite Hret in Hnew. destruct Hnew as [projectId Hnew].
  destruct (createAndSave _ _ _ _ _ _ _ _ _ _ _ _ _ _ _ _ _ _ (w, []))
    as [[[]|message] st1]; [|discriminate Hret].
  exists new, projectId. split; [exact Hnew | exact Pnew].
Qed.

(** The API is down, the database works: the upload of [helperProject]
    still ends with [done]. *)
Lemma embedding_failure_is_not_fatal_witness :
  exists progress projectId,
    saveGraphEvents nat unit (fun _ => [])
      (fun _ w => (Thrown "503 Service Unavailable", w)) Js.slice0
      (Some "hf_token")
      (fun _ _ _ _ w => (Returned "project-1", w))
      (fun _ w => (Returned tt, w)) (fun _ w => (Returned tt, w))
      (fun _ _ w => (None, w)) unit (fun _ => tt) (fun _ _ w => w)
      (fun _ _ => 10) "2026-01-01T00:10:00.000Z" "repo" None tt
      (analyze PosixRelative.relative "/repo" helperProject)
    = (progress
         ++ [SentDone (analyze PosixRelative.relative "/repo" helperProject)
               projectId])%list
    /\ allProgress progress.
Proof.
  apply (embedding_failure_is_not_fatal nat unit unit).
  - intros name url rootPath expires w. now exists "project-1".
  - intros rows w. now exists tt.
  - intros rows w. now exists tt.
Defined.

(** ** The rows that reach the tables *)

(** A loop whose body hands its slice to a recording table and throws
    what the table reports: the recorded calls are the visited slices up
    to the first one the table refuses, which is the last call. *)
Lemma recorded_chunks {Row : Type} (verdict : list Row -> Outcome unit)
    (body : nat -> list Row -> unit -> Eff (list (list Row) * list Sent) unit)
    visits :
  (forall i chunk acc st,
      fst (snd (body i chunk acc st)) = (fst st ++ [chunk])%list
      /\ fst (body i chunk acc st) = verdict chunk) ->
  forall acc st,
    exists sent rest,
      map snd visits = (sent ++ rest)%list
      /\ fst (snd (runChunks body visits acc st)) = (fst st ++ sent)%list
      /\ failsLast verdict (fun message => message)
           (fst (runChunks body visits acc st)) sent rest.
Proof.
  intros Hbody. induction visits as [|[i chunk] visits IH]; intros acc st.
  - exists [], []. simpl. rewrite app_nil_r. repeat split. constructor.
  - cbn [runChunks]. unfold bind.
    destruct (Hbody i chunk acc st) as [Hlog Hverdict].
    destruct (body i chunk acc st) as [[acc'|message] st1]; simpl in Hlog, Hverdict.
    + destruct (IH acc' st1) as (sent & rest & Hsplit & Hcalls & Hlast).
      exists (chunk :: sent), rest. cbn [map snd]. rewrite Hsplit.
      split; [reflexivity|]. split.
      * rewrite Hcalls, Hlog, <- app_assoc. reflexivity.
      * unfold failsLast in *.
        destruct (fst (runChunks body visits acc' st1)) as [r|m].
        -- destruct Hlast as [-> Hall]. split; [reflexivity|].
           constructor; [now exists acc' | exact Hall].
        -- destruct Hlast as (accepted & failing & m0 & -> & Hall & Hfail & ->).
           exists (chunk :: accepted), failing, m0.
           split; [reflexivity|]. split; [|auto].
           constructor; [now exists acc' | exact Hall].
    + exists [chunk], (map snd visits). cbn [map snd fst].
      split; [reflexivity|]. split; [exact Hlog|].
      exists [], chunk, message. repeat split; [constructor | now symmetry].
Qed.

Lemma recorded_forChunks {Row : Type} (verdict : list Row -> Outcome unit)
    size (rows : list Row)
    (body : nat -> list Row -> unit -> Eff (list (list Row) * list Sent) unit) :
  1 <= size ->
  (forall i chunk acc st,
      fst (snd (body i chunk acc st)) = (fst st ++ [chunk])%list
      /\ fst (body i chunk acc st) = verdict chunk) ->
  let run := forChunks size rows body tt ([], []) in
  Forall (fun call => 1 <= length call <= size) (fst (snd run))
  /\ exists rest,
       rows = concat (fst (snd run) ++ rest)
       /\ failsLast verdict (fun message => message) (fst run)
            (fst (snd run)) rest.
Proof.
  intros Hsize Hbody run. subst run. unfold forChunks.
  rewrite forChunksFrom_run. fold (chunksOf size rows).
  destruct (recorded_chunks verdict body (chunksOf size rows) Hbody tt ([], []))
    as (sent & rest & Hsplit & Hcalls & Hlast).
  destruct (chunksOf_cover size rows Hsize) as [Hcat Hsizes].
  cbn [fst app] in Hcalls. rewrite Hcalls. split.
  - assert (Hall : Forall (fun call : list Row => 1 <= length call <= size)
                     (sent ++ rest)).
    { rewrite <- Hsplit. now apply Forall_map. }
    apply Forall_app in Hall. tauto.
  - exists rest. split; [|exact Hlast].
    rewrite <- Hsplit. now symmetry.
Qed.

(** X19 — the node rows and the edge rows reach their tables in
    order and in inserts of at least one and at most 500 rows, observed on
    tables that record every insert and report what [nodesVerdict] and
    [edgesVerdict] say.  What is recorded and what is left ([rest]) are
    the rows, in order, so no row is sent twice.  The inserts stop at the
    first one that fails ([failsLast]): when the loop runs to its end
    nothing is left and the table accepted every insert; when it throws,
    the table accepted every insert but the last, refused the last, and
    the loop throws what the table reported. *)
Theorem rows_are_saved_in_chunks
    (nodesVerdict : list NodeRow -> Outcome unit)
    (edgesVerdict : list EdgeRow -> Outcome unit)
    (roundTenths : nat -> nat -> nat) projectId analysis :
  let nodesRun :=
    saveNodes (list (list NodeRow)) (recordingInsert nodesVerdict) roundTenths
      projectId analysis ([], []) in
  let edgesRun :=
    saveEdges (list (list EdgeRow)) (recordingInsert edgesVerdict)
      projectId analysis ([], []) in
  (Forall (fun call => 1 <= length call <= CHUNK) (fst (snd nodesRun))
   /\ exists rest,
        map (nodeRow projectId) (nodes analysis)
        = concat (fst (snd nodesRun) ++ rest)
        /\ failsLast nodesVerdict (fun message => message) (fst nodesRun)
             (fst (snd nodesRun)) rest)
  /\ (Forall (fun call => 1 <= length call <= CHUNK) (fst (snd edgesRun))
      /\ exists rest,
           map (edgeRow projectId) (edges analysis)
           = concat (fst (snd edgesRun) ++ rest)
           /\ failsLast edgesVerdict (fun message => message) (fst edgesRun)
                (fst (snd edgesRun)) rest).
Proof.
  intros nodesRun edgesRun. split.
  - apply recorded_forChunks; [unfold CHUNK; lia|].
    intros i chunk acc st. unfold bind, await, recordingInsert, send.
    cbn [fst snd]. destruct (nodesVerdict chunk) as [[]|message]; now split.
  - apply recorded_forChunks; [unfold CHUNK; lia|].
    intros i chunk acc st. unfold await, recordingInsert. now split.
Qed.

(** X20 — the rows built from the graph [analyze] returns: the node
    rows have pairwise different [node_id]s; no two edge rows share
    [from_node], [to_node] and [relation]; both ends of every edge row are
    [node_id]s of node rows; and [call_count] is the edge's own count, at
    least 1 and exactly 1 off the calls edges, so the fallback of
    [edge.callCount || 1] is never taken. *)
Theorem rows_of_the_analysed_graph relative root added projectId :
  let g := analyze relative root added in
  let nodeRows := map (nodeRow projectId) (nodes g) in
  let edgeRows := map (edgeRow projectId) (edges g) in
  NoDup (map row_node_id nodeRows)
  /\ NoDup (map (fun r => (erow_from_node r, erow_to_node r, erow_relation r))
                edgeRows)
  /\ Forall (fun r => In (erow_from_node r) (map row_node_id nodeRows)
                      /\ In (erow_to_node r) (map row_node_id nodeRows))
            edgeRows
  /\ Forall (fun e =>
               edge_callCount e = Some (erow_call_count (edgeRow projectId e))
               /\ 1 <= erow_call_count (edgeRow projectId e)
               /\ (edge_relation e <> calls ->
                   erow_call_count (edgeRow projectId e) = 1))
            (edges g).
Proof.
  intros g nodeRows edgeRows.
  assert (Hids : map row_node_id nodeRows = map node_id (nodes g)).
  { unfold nodeRows. rewrite map_map. reflexivity. }
  split; [|split; [|split]].
  - rewrite Hids. unfold g, analyze, assemble. cbn [nodes].
    rewrite node_ids_keys; [apply nodeKeys_NoDup|].
    intros k n Hin. now apply (finalState_nodesInv relative root added).
  - unfold edgeRows. rewrite map_map. cbn [edgeRow erow_from_node erow_to_node
                                            erow_relation].
    unfold g, analyze, assemble. cbn [edges]. apply kept_keys_distinct.
    rewrite finalState_edges.
    destruct (replay_inv (edgeCalls relative root added)) as [Hnd Hall].
    apply (NoDup_map_factor
             (fun e => (edge_from e, edge_to e, edge_relation e))
             (fun t => let '(f, t0, r) := t in edgeKey f t0 r)).
    cbn beta iota. rewrite (edge_keys _ _ Hall). exact Hnd.
  - rewrite Hids. unfold edgeRows. apply Forall_map. apply Forall_forall.
    intros e He. cbn [edgeRow erow_from_node erow_to_node].
    now apply returned_edge_ends.
  - apply Forall_forall. intros e He.
    destruct (returned_edge_entry relative root added e He)
      as (k & _ & _ & n & Hn & Hpos & Hone).
    cbn [edgeRow erow_call_count]. rewrite Hn.
    destruct n as [|n]; [lia|]. cbn [callCountOr1].
    split; [reflexivity|]. split; [lia | exact Hone].
Qed.

(* ================================================================= *)
(** * Properties of the audit route *)

(** ** [buildCodeContext] *)

Section CodeContextFacts.

Variable Sim : Type.
Variable percent : Sim -> string.
Variable sliceUnits : nat -> string -> string.
Variable lengthUnits : string -> nat.

Lemma totalLength_cons chunk chunks :
  totalLength lengthUnits (chunk :: chunks)
  = lengthUnits chunk + totalLength lengthUnits chunks.
Proof. reflexivity. Qed.

Lemma contextChunks_break showSimilarity before (node : ContextNode Sim) after :
  isTruthy (cn_content node) = false ->
  forall totalChars,
    contextChunks Sim percent sliceUnits lengthUnits showSimilarity
      (before ++ node :: after) totalChars
    = contextChunks Sim percent sliceUnits lengthUnits showSimilarity before
        totalChars.
Proof.
  intros Hnode. induction before as [|n before IH]; intros totalChars.
  - cbn [app contextChunks]. now rewrite Hnode.
  - cbn [app contextChunks]. destruct (negb _ || _); [reflexivity|].
    now rewrite IH.
Qed.

Lemma contextChunks_limit showSimilarity (nodes : list (ContextNode Sim)) :
  forall totalChars pre last,
    contextChunks Sim percent sliceUnits lengthUnits showSimilarity nodes
      totalChars
    = (pre ++ [last])%list ->
    totalChars + totalLength lengthUnits pre < CHAR_LIMIT.
Proof.
  induction nodes as [|node nodes IH]; intros totalChars pre last Hc.
  - destruct pre; discriminate Hc.
  - cbn [contextChunks] in Hc.
    remember (snippetOf Sim percent sliceUnits showSimilarity node) as snippet.
    destruct (negb (isTruthy (cn_content node))); [destruct pre; discriminate Hc|].
    destruct (Nat.leb CHAR_LIMIT totalChars) eqn:Hl;
      [destruct pre; discriminate Hc|].
    apply Nat.leb_gt in Hl. cbn [orb] in Hc.
    destruct pre as [|p pre].
    + cbn [totalLength fold_right]. lia.
    + injection Hc as Hp Hc. subst p. apply IH in Hc.
      rewrite totalLength_cons. lia.
Qed.

Lemma contextChunks_all showSimilarity (nodes : list (ContextNode Sim)) :
  Forall (fun n => isTruthy (cn_content n) = true) nodes ->
  forall totalChars,
    totalChars
    + totalLength lengthUnits
        (map (snippetOf Sim percent sliceUnits showSimilarity)
             (removelast nodes))
    < CHAR_LIMIT ->
    contextChunks Sim percent sliceUnits lengthUnits showSimilarity nodes
      totalChars
    = map (snippetOf Sim percent sliceUnits showSimilarity) nodes.
Proof.
  induction 1 as [|node nodes Hnode _ IH]; intros totalChars Hlim;
    [reflexivity|].
  cbn [contextChunks map]. rewrite Hnode. cbn [negb orb].
  destruct nodes as [|n nodes].
  - simpl in Hlim.
    destruct (Nat.leb CHAR_LIMIT totalChars) eqn:Hl; [|reflexivity].
    apply Nat.leb_le in Hl. lia.
  - change (removelast (node :: n :: nodes))
      with (node :: removelast (n :: nodes)) in Hlim.
    cbn [map] in Hlim. rewrite totalLength_cons in Hlim.
    destruct (Nat.leb CHAR_LIMIT totalChars) eqn:Hl.
    + apply Nat.leb_le in Hl. lia.
    + f_equal. apply IH. lia.
Qed.

End CodeContextFacts.

(** X22 — [buildCodeContext] never returns the empty string; it
    stops at the first node without content, so the nodes after it are
    left out whatever they hold; it stops once the snippets reach 70000
    characters, so all snippets but the last stay below that together;
    and when every node has content and the limit is not reached before
    the last node, every node gets its snippet.  Lengths are in UTF-16
    code units, as [lengthUnits] counts them. *)
Theorem code_context_stops_early (Sim : Type) (percent : Sim -> string)
    (sliceUnits : nat -> string -> string) (lengthUnits : string -> nat)
    (showSimilarity : bool) :
  (forall nodes,
      buildCodeContext Sim percent sliceUnits lengthUnits nodes showSimilarity
      <> "")
  /\ (forall before node after,
         isTruthy (cn_content node) = false ->
         buildCodeContext Sim percent sliceUnits lengthUnits
           (before ++ node :: after) showSimilarity
         = buildCodeContext Sim percent sliceUnits lengthUnits before
             showSimilarity)
  /\ (forall nodes pre last,
         contextChunks Sim percent sliceUnits lengthUnits showSimilarity nodes 0
         = (pre ++ [last])%list ->
         totalLength lengthUnits pre < CHAR_LIMIT)
  /\ (forall nodes,
         Forall (fun n => isTruthy (cn_content n) = true) nodes ->
         totalLength lengthUnits
           (map (snippetOf Sim percent sliceUnits showSimilarity)
                (removelast nodes)) < CHAR_LIMIT ->
         contextChunks Sim percent sliceUnits lengthUnits showSimilarity nodes 0
         = map (snippetOf Sim percent sliceUnits showSimilarity) nodes).
Proof.
  split; [|split; [|split]].
  - intros nodes. unfold buildCodeContext.
    destruct (Js.truthy _) eqn:Ht; [|discriminate].
    unfold Js.truthy in Ht. apply negb_true_iff, String.eqb_neq in Ht. exact Ht.
  - intros before node after Hnode. unfold buildCodeContext.
    now rewrite contextChunks_break.
  - intros nodes pre last Hc.
    apply (contextChunks_limit Sim percent sliceUnits lengthUnits) in Hc.
    rewrite Nat.add_0_l in Hc. exact Hc.
  - intros nodes Hall Hlim.
    apply (contextChunks_all Sim percent sliceUnits lengthUnits showSimilarity
             nodes Hall 0).
    rewrite Nat.add_0_l. exact Hlim.
Qed.

(** ** The hits of the vector search *)

Section HitFacts.

Variable Sim : Type.

Lemma addHit_inv (hit : Hit Sim) (acc : Seen Sim) :
  fst acc = map hit_node_id (snd acc) /\ NoDup (fst acc) ->
  (fst (addHit Sim hit acc) = map hit_node_id (snd (addHit Sim hit acc))
   /\ NoDup (fst (addHit Sim hit acc)))
  /\ In (hit_node_id hit) (fst (addHit Sim hit acc))
  /\ (forall id, In id (fst acc) -> In id (fst (addHit Sim hit acc)))
  /\ (forall h, In h (snd (addHit Sim hit acc)) -> h = hit \/ In h (snd acc)).
Proof.
  intros [Hids Hnd]. unfold addHit.
  destruct (Js.mem (hit_node_id hit) (fst acc)) eqn:Hm.
  - apply mem_In in Hm. repeat split; auto.
  - cbn [fst snd]. repeat split.
    + rewrite map_app, Hids. reflexivity.
    + apply NoDup_app; [exact Hnd | repeat constructor; intros [] |].
      intros id Hid [<-|[]]. apply mem_In in Hid. congruence.
    + apply in_or_app. right. now left.
    + intros id Hid. apply in_or_app. now left.
    + intros h Hh. apply in_app_or in Hh as [Hh|[<-|[]]]; auto.
Qed.

End HitFacts.

Section HitsCollected.

Variable Sim : Type.

Lemma addHits_inv (answer : option (list (Hit Sim))) (acc : Seen Sim) :
  fst acc = map hit_node_id (snd acc) /\ NoDup (fst acc) ->
  (fst (addHits Sim answer acc) = map hit_node_id (snd (addHits Sim answer acc))
   /\ NoDup (fst (addHits Sim answer acc)))
  /\ (forall hits hit, answer = Some hits -> In hit hits ->
                       In (hit_node_id hit) (fst (addHits Sim answer acc)))
  /\ (forall id, In id (fst acc) -> In id (fst (addHits Sim answer acc)))
  /\ (forall h, In h (snd (addHits Sim answer acc)) ->
                (exists hits, answer = Some hits /\ In h hits) \/ In h (snd acc)).
Proof.
  intros Hacc. destruct answer as [hits|]; cbn [addHits].
  - unfold forEach. revert acc Hacc.
    induction hits as [|hit hits IH]; intros acc Hacc; cbn [fold_left].
    + repeat split; try tauto. intros hits' hit' Heq. injection Heq as <-.
      intros [].
    + destruct (addHit_inv Sim hit acc Hacc) as (Hinv & Hin & Hmono & Hsub).
      destruct (IH (addHit Sim hit acc) Hinv) as (Hinv' & Hin' & Hmono' & Hsub').
      split; [exact Hinv'|]. split; [|split].
      * intros hits' hit' Heq Hh. injection Heq as <-.
        destruct Hh as [<-|Hh]; [now apply Hmono' | now apply (Hin' hits)].
      * intros id Hid. auto.
      * intros h Hh. destruct (Hsub' h Hh) as [(hits' & Heq & Hh')|Hh'].
        -- injection Heq as <-. left. exists (hit :: hits).
           split; [reflexivity | now right].
        -- destruct (Hsub h Hh') as [->|Hold]; [|now right].
           left. exists (hit :: hits). split; [reflexivity | now left].
  - repeat split; try tauto. intros hits hit Heq. discriminate Heq.
Qed.

Lemma collected_inv (answers : list (option (list (Hit Sim)))) :
  forall acc : Seen Sim,
    fst acc = map hit_node_id (snd acc) /\ NoDup (fst acc) ->
    let final := forEach (addHits Sim) answers acc in
    (fst final = map hit_node_id (snd final) /\ NoDup (fst final))
    /\ (forall hits hit, In (Some hits) answers -> In hit hits ->
                         In (hit_node_id hit) (fst final))
    /\ (forall id, In id (fst acc) -> In id (fst final))
    /\ (forall h, In h (snd final) ->
                  (exists hits, In (Some hits) answers /\ In h hits)
                  \/ In h (snd acc)).
Proof.
  unfold forEach.
  induction answers as [|answer answers IH]; intros acc Hacc; cbn [fold_left].
  - repeat split; try tauto. intros hits hit [].
  - destruct (addHits_inv answer acc Hacc) as (Hinv & Hin & Hmono & Hsub).
    destruct (IH (addHits Sim answer acc) Hinv) as (Hinv' & Hin' & Hmono' & Hsub').
    split; [exact Hinv'|]. split; [|split].
    + intros hits hit [->|Hans] Hh; [|now apply (Hin' hits)].
      apply Hmono'. now apply (Hin hits).
    + intros id Hid. auto.
    + intros h Hh. destruct (Hsub' h Hh) as [(hits & Hans & Hh')|Hh'].
      * left. exists hits. split; [now right | exact Hh'].
      * destruct (Hsub h Hh') as [(hits & -> & Hh'')|Hold]; [|now right].
        left. exists hits. split; [now left | exact Hh''].
Qed.

End HitsCollected.

(** X23 — the nodes collected from the vector searches hold no node
    id twice; every hit of every search that answered is represented by
    its node id, and every collected node is such a hit.  The nodes merged
    from them all have content, so [buildCodeContext] gives each of them
    its snippet unless the limit of 70000 characters is reached first. *)
Theorem relevant_nodes_are_distinct (Sim : Type) (percent : Sim -> string)
    (sliceUnits : nat -> string -> string) (lengthUnits : string -> nat)
    (answers : list (option (list (Hit Sim))))
    (enriched : option (list (string * ContextNode Sim))) :
  let relevant := relevantNodes Sim answers in
  let merged := mergedNodes Sim enriched relevant in
  NoDup (map hit_node_id relevant)
  /\ (forall hits hit,
         In (Some hits) answers -> In hit hits ->
         In (hit_node_id hit) (map hit_node_id relevant))
  /\ (forall hit,
         In hit relevant -> exists hits, In (Some hits) answers /\ In hit hits)
  /\ (totalLength lengthUnits
        (map (snippetOf Sim percent sliceUnits true) (removelast merged))
      < CHAR_LIMIT ->
      contextChunks Sim percent sliceUnits lengthUnits true merged 0
      = map (snippetOf Sim percent sliceUnits true) merged).
Proof.
  intros relevant merged.
  destruct (collected_inv Sim answers ([], []))
    as ((Hids & Hnd) & Hin & _ & Hsub).
  { split; [reflexivity | constructor]. }
  fold (relevantNodes Sim answers) in Hids, Hsub. fold relevant in Hids, Hsub.
  split; [|split; [|split]].
  - now rewrite <- Hids.
  - intros hits hit Hans Hh. rewrite <- Hids. now apply (Hin hits).
  - intros hit Hh. destruct (Hsub hit Hh) as [H|[]]. exact H.
  - intros Hlim.
    assert (Hall : Forall (fun n : ContextNode Sim => isTruthy (cn_content n) = true)
                     merged).
    { apply Forall_forall. intros n Hn. unfold merged, mergedNodes in Hn.
      apply filter_In in Hn. exact (proj2 Hn). }
    apply (contextChunks_all Sim percent sliceUnits lengthUnits true merged
             Hall 0).
    rewrite Nat.add_0_l. exact Hlim.
Qed.

(** ** The system prompt *)

Lemma filter_no_system messages :
  Forall (fun m => isSystem m = false)
         (filter (fun m => negb (isSystem m)) messages).
Proof.
  apply Forall_forall. intros m Hm. apply filter_In in Hm as [_ Hm].
  now apply negb_true_iff.
Qed.

(** X24 — the system prompt the provider receives is the one the
    route wrote, for every provider and for first requests and follow-ups
    alike: a message with the role [system] in the client's conversation
    is neither used as the system prompt nor passed on among the
    messages.  To Gemini every message goes with the role [user] or
    [model]. *)
Theorem system_prompt_is_the_server_s provider apiKey model customEndpoint
    incomingMessages systemPrompt userPrompt followUpSystem :
  let serverPrompt :=
    if isFollowUp incomingMessages then followUpSystem else systemPrompt in
  let request :=
    buildProviderRequest provider apiKey model customEndpoint
      (finalMessages incomingMessages systemPrompt userPrompt followUpSystem) in
  match body request with
  | AnthropicBody _ _ _ system messages =>
      system = serverPrompt
      /\ Forall (fun m => isSystem m = false) messages
  | GeminiBody contents systemInstruction _ =>
      systemInstruction = serverPrompt
      /\ Forall (fun c => gc_role c = "user" \/ gc_role c = "model") contents
  | OpenAIBody _ messages _ _ =>
      exists rest,
        messages = mkMessage "system" serverPrompt :: rest
        /\ Forall (fun m => isSystem m = false) rest
  end.
Proof.
  intros serverPrompt request.
  assert (Hfinal : exists rest,
             finalMessages incomingMessages systemPrompt userPrompt followUpSystem
             = mkMessage "system" serverPrompt :: rest
             /\ Forall (fun m => isSystem m = false) rest).
  { unfold finalMessages, serverPrompt.
    destruct (isFollowUp incomingMessages).
    - eexists. split; [reflexivity | apply filter_no_system].
    - eexists. split; [reflexivity | repeat constructor]. }
  destruct Hfinal as (rest & Hfinal & Hrest).
  assert (Hfilter : filter (fun m => negb (isSystem m)) rest = rest).
  { apply filter_all. intros m Hm. rewrite Forall_forall in Hrest.
    now rewrite (Hrest m Hm). }
  subst request. unfold buildProviderRequest. rewrite Hfinal.
  destruct (String.eqb provider "anthropic"); [|destruct (String.eqb provider "gemini")];
    cbn [body].
  - unfold systemContent. cbn [find isSystem msg_role String.eqb].
    split; [reflexivity|]. apply filter_no_system.
  - unfold systemContent. split; [reflexivity|].
    apply Forall_map. apply Forall_forall. intros m _.
    destruct (String.eqb (msg_role m) "assistant"); auto.
  - exists rest. split; [reflexivity | exact Hrest].
Qed.
